(** * IPI multiplexer: several virtual IPIs over one hardware IPI

    A shallow embedding of the IPI-mux irqchip helper
    ([ipi_mux_send_mask], [ipi_mux_process], [ipi_mux_create] and the
    CPU hotplug callbacks) together with the properties of its send and
    drain protocol.

    The send and drain paths run concurrently on several CPUs.  They are
    therefore written as programs over the atomic operations the C code
    performs (barriers, [set_bit], [xchg], calls into the parent
    irqchip and into the irq core), so that one definition serves both
    the sequential reading ([exec]) and the interleaved one
    ([run_pool]).  Atomic operations are interleaved under sequential
    consistency, the ordering the code asks for with the full barriers
    it places around them. *)

From stdpp Require Import base option list sorting gmap strings.
From Stdlib Require Import ZArith Lia.

Local Open Scope Z_scope.

(** ** Platform constants *)

(** [BITS_PER_LONG], [IPI_MUX_NR_IRQS] and [nr_cpu_ids] come from
    kernel headers and configuration; they are parameters here. *)
Class platform := {
  BITS_PER_LONG : Z;
  IPI_MUX_NR_IRQS : Z;
  nr_cpu_ids : nat;
}.

Definition EINVAL : Z := 22.
Definition IRQ_TYPE_NONE : Z := 0.

(** ** Data *)

(** A function pointer supplied by the parent irqchip driver. *)
Definition fnptr := nat.

(** [struct ipi_mux_ops]: [None] is a NULL member. *)
Record struct_ipi_mux_ops := {
  ipi_mux_clear : option fnptr;
  ipi_mux_send : option fnptr;
}.

(** A [struct cpumask] is a bitmap: bit [c] is set iff CPU [c] is in
    the set. *)
Definition cpumask := Z.

(** The functions the members of this file's [struct irq_chip] point
    to. *)
Inductive chip_fn := fn_ipi_mux_dummy | fn_ipi_mux_send_mask.

Record struct_irq_chip := {
  chip_name : string;
  irq_mask : option chip_fn;
  irq_unmask : option chip_fn;
  ipi_send_mask : option chip_fn;
}.

Definition ipi_mux_chip : struct_irq_chip :=
  {| chip_name := "IPI Mux";
     irq_mask := Some fn_ipi_mux_dummy;
     irq_unmask := Some fn_ipi_mux_dummy;
     ipi_send_mask := Some fn_ipi_mux_send_mask |}.

Inductive flow_handler := handle_percpu_devid_irq | handle_bad_irq.

(** What the irq core records for one allocated Linux interrupt. *)
Record irq_data := {
  d_hwirq : Z;
  d_chip : option struct_irq_chip;
  d_percpu_devid : bool;
  d_handler : flow_handler;
}.

(** The functions the members of this file's [struct irq_domain_ops]
    point to. *)
Inductive translate_fn := fn_irq_domain_translate_onecell.
Inductive alloc_fn := fn_ipi_mux_domain_alloc.
Inductive free_fn := fn_irq_domain_free_irqs_top.

Record struct_irq_domain_ops := {
  ops_translate : translate_fn;
  ops_alloc : alloc_fn;
  ops_free : free_fn;
}.

Definition ipi_mux_domain_ops : struct_irq_domain_ops :=
  {| ops_translate := fn_irq_domain_translate_onecell;
     ops_alloc := fn_ipi_mux_domain_alloc;
     ops_free := fn_irq_domain_free_irqs_top |}.

(** A linear [struct irq_domain]: its size, its operations and its
    reverse map from hardware interrupt number to Linux interrupt
    number. *)
Record irq_domain := {
  dom_size : Z;
  dom_fwnode : option nat;
  dom_ops : struct_irq_domain_ops;
  dom_revmap : gmap Z Z;
}.

Record irq_fwspec := {
  fwnode : option nat;
  param_count : Z;
  param : list Z;
}.

Inductive chained_fn := fn_ipi_mux_handler.
Inductive hotplug_fn := fn_ipi_mux_starting_cpu | fn_ipi_mux_dying_cpu.

Inductive cpuhp_state := CPUHP_AP_ONLINE_DYN.

Record cpuhp_step := {
  cpuhp_id : cpuhp_state;
  cpuhp_name : string;
  cpuhp_startup : hotplug_fn;
  cpuhp_teardown : hotplug_fn;
}.

(** The part of the irq core and of the CPU hotplug core that this
    file acts on. *)
Record host := {
  h_domains : gmap nat irq_domain;   (* live domains, by address *)
  h_irqs : gmap Z irq_data;          (* allocated Linux interrupts *)
  h_chained : gmap Z chained_fn;     (* chained handlers, by parent irq *)
  h_cpuhp : list cpuhp_step;         (* hotplug states set up *)
  h_enabled : gmap (Z * nat) Z;      (* per-CPU irqs enabled, with type *)
  h_trigger : gmap Z Z;              (* configured trigger types *)
}.

(** The file's static variables and the host they live in. *)
Record state := {
  ipi_mux_parent_virq : Z;
  ipi_mux_domain : option nat;
  ipi_mux_ops : option struct_ipi_mux_ops;
  ipi_mux_bits : gmap nat Z;
  kernel : host;
}.

Definition set_bits (f : gmap nat Z → gmap nat Z) (s : state) : state :=
  {| ipi_mux_parent_virq := ipi_mux_parent_virq s;
     ipi_mux_domain := ipi_mux_domain s;
     ipi_mux_ops := ipi_mux_ops s;
     ipi_mux_bits := f (ipi_mux_bits s);
     kernel := kernel s |}.

Definition set_kernel (f : host → host) (s : state) : state :=
  {| ipi_mux_parent_virq := ipi_mux_parent_virq s;
     ipi_mux_domain := ipi_mux_domain s;
     ipi_mux_ops := ipi_mux_ops s;
     ipi_mux_bits := ipi_mux_bits s;
     kernel := f (kernel s) |}.

Definition set_statics (virq : Z) (d : option nat)
    (ops : option struct_ipi_mux_ops) (s : state) : state :=
  {| ipi_mux_parent_virq := virq;
     ipi_mux_domain := d;
     ipi_mux_ops := ops;
     ipi_mux_bits := ipi_mux_bits s;
     kernel := kernel s |}.

Definition set_domains (f : gmap nat irq_domain → gmap nat irq_domain)
    (h : host) : host :=
  {| h_domains := f (h_domains h); h_irqs := h_irqs h;
     h_chained := h_chained h; h_cpuhp := h_cpuhp h;
     h_enabled := h_enabled h; h_trigger := h_trigger h |}.

Definition set_irqs (f : gmap Z irq_data → gmap Z irq_data) (h : host) : host :=
  {| h_domains := h_domains h; h_irqs := f (h_irqs h);
     h_chained := h_chained h; h_cpuhp := h_cpuhp h;
     h_enabled := h_enabled h; h_trigger := h_trigger h |}.

Definition set_chained (f : gmap Z chained_fn → gmap Z chained_fn)
    (h : host) : host :=
  {| h_domains := h_domains h; h_irqs := h_irqs h;
     h_chained := f (h_chained h); h_cpuhp := h_cpuhp h;
     h_enabled := h_enabled h; h_trigger := h_trigger h |}.

Definition set_cpuhp (f : list cpuhp_step → list cpuhp_step) (h : host) : host :=
  {| h_domains := h_domains h; h_irqs := h_irqs h;
     h_chained := h_chained h; h_cpuhp := f (h_cpuhp h);
     h_enabled := h_enabled h; h_trigger := h_trigger h |}.

Definition set_enabled (f : gmap (Z * nat) Z → gmap (Z * nat) Z)
    (h : host) : host :=
  {| h_domains := h_domains h; h_irqs := h_irqs h;
     h_chained := h_chained h; h_cpuhp := h_cpuhp h;
     h_enabled := f (h_enabled h); h_trigger := h_trigger h |}.

(** The per-CPU variable [ipi_mux_bits] is zero until written. *)
Definition per_cpu (s : state) (cpu : nat) : Z :=
  default 0 (ipi_mux_bits s !! cpu).

(** [set_bit] on one word: OR the bit in. *)
Definition word_set_bit (nr : Z) (w : Z) : Z := Z.lor w (Z.shiftl 1 nr).

Inductive barrier := mb_before_atomic | mb_after_atomic | mb_full.

(** What an execution does that is visible outside the state. *)
Inductive event :=
  | EvBarrier (b : barrier)
  | EvSetBit (cpu : nat) (nr : Z)
  | EvXchg (cpu : nat) (old new : Z)
  | EvIpiMuxSend (fn : fnptr) (parent_virq : Z) (mask : cpumask)
  | EvIpiMuxClear (fn : fnptr) (parent_virq : Z)
  | EvDispatch (cpu : nat) (hwirq : Z) (virq : option Z)
  | EvWarnRatelimited (msg : string) (hwirq : Z)
  | EvErr (msg : string)
  | EvChainedEnter
  | EvChainedExit.

(** ** The monad of the sequential code

    A computation reads and writes the state, emits events, and may
    fault ([None]: a NULL dereference or an access outside an object). *)
Definition M (A : Type) : Type := state → option (A * state * list event).

Definition retM {A} (a : A) : M A := λ s, Some (a, s, []).

Definition bindM {A B} (m : M A) (f : A → M B) : M B := λ s,
  match m s with
  | None => None
  | Some (a, s1, e1) =>
      match f a s1 with
      | None => None
      | Some (b, s2, e2) => Some (b, s2, e1 ++ e2)
      end
  end.

Definition fault {A} : M A := λ _, None.
Definition emit (e : event) : M unit := λ s, Some (tt, s, [e]).
Definition get {A} (f : state → A) : M A := λ s, Some (f s, s, []).
Definition modify (f : state → state) : M unit := λ s, Some (tt, f s, []).

Global Instance M_ret : MRet M := @retM.
Global Instance M_bind : MBind M := λ A B f m, bindM m f.

(** ** Atomic operations of the send and drain paths

    Each constructor is one step of the C code that other CPUs cannot
    split: a barrier, an atomic read-modify-write of one pending word
    ([set_bit nr cpu] on the word of [cpu], [xchg cpu new] returning the
    old word), the load of [ipi_mux_ops->ipi_mux_clear], a call through
    a member of [ipi_mux_ops] with [ipi_mux_parent_virq], the call of
    [generic_handle_domain_irq] with [ipi_mux_domain] on the running
    CPU, a log line.  The index is the type of the result. *)

Inductive op : Type → Type :=
  | smp_mb__before_atomic : op unit
  | smp_mb__after_atomic : op unit
  | smp_mb : op unit
  | set_bit (nr : Z) (cpu : nat) : op unit
  | xchg (cpu : nat) (new : Z) : op Z
  | load_ipi_mux_clear : op (option fnptr)
  | call_ipi_mux_clear (f : fnptr) : op unit
  | call_ipi_mux_send (mask : cpumask) : op unit
  | generic_handle_domain_irq (cpu : nat) (hwirq : Z) : op Z
  | pr_warn_ratelimited (msg : string) (hwirq : Z) : op unit
  | chained_irq_enter : op unit
  | chained_irq_exit : op unit.

(** A program is a tree of atomic operations: each step performs one
    operation and continues with its result. *)
Inductive prog (A : Type) : Type :=
  | Ret (a : A)
  | Step {B : Type} (o : op B) (k : B → prog A).
Arguments Ret {A} a.
Arguments Step {A B} o k.

Fixpoint bindP {A C} (p : prog A) (f : A → prog C) : prog C :=
  match p with
  | Ret a => f a
  | Step o k => Step o (λ b, bindP (k b) f)
  end.

Global Instance prog_ret : MRet prog := @Ret.
Global Instance prog_bind : MBind prog := λ A C f p, bindP p f.

Definition call {B} (o : op B) : prog B := Step o Ret.

Fixpoint foreach {X} (l : list X) (body : X → prog unit) : prog unit :=
  match l with
  | [] => mret tt
  | x :: l => body x;; foreach l body
  end.

Definition finished {A} (p : prog A) : Prop :=
  match p with Ret _ => True | Step _ _ => False end.

Section Model.
Context `{platform}.

(** Modelled from the spec: the irq core's dispatch callback, which
    given a logical line index looks it up in the domain's mapping. *)
Definition irq_resolve_mapping (s : state) (hwirq : Z) : option Z :=
  p ← ipi_mux_domain s; d ← h_domains (kernel s) !! p; dom_revmap d !! hwirq.

Definition exec_op {B} (o : op B) : M B :=
  match o in op B return M B with
  | smp_mb__before_atomic => emit (EvBarrier mb_before_atomic)
  | smp_mb__after_atomic => emit (EvBarrier mb_after_atomic)
  | smp_mb => emit (EvBarrier mb_full)
  | set_bit nr cpu =>
      (* the word has BITS_PER_LONG bits; another bit is outside it *)
      if bool_decide (0 ≤ nr < BITS_PER_LONG) then
        modify (set_bits (λ b, <[cpu := word_set_bit nr (default 0 (b !! cpu))]> b)) ;;
        emit (EvSetBit cpu nr)
      else fault
  | xchg cpu new =>
      old ← get (λ s, per_cpu s cpu);
      modify (set_bits (λ b, <[cpu := new]> b)) ;;
      emit (EvXchg cpu old new) ;;
      mret old
  | load_ipi_mux_clear =>
      ops ← get ipi_mux_ops;
      match ops with
      | None => fault
      | Some ops => mret (ipi_mux_clear ops)
      end
  | call_ipi_mux_clear f =>
      virq ← get ipi_mux_parent_virq;
      emit (EvIpiMuxClear f virq)
  | call_ipi_mux_send mask =>
      ops ← get ipi_mux_ops;
      match ops with
      | None => fault
      | Some ops =>
          match ipi_mux_send ops with
          | None => fault
          | Some f =>
              virq ← get ipi_mux_parent_virq;
              emit (EvIpiMuxSend f virq mask)
          end
      end
  | generic_handle_domain_irq cpu hwirq =>
      virq ← get (λ s, irq_resolve_mapping s hwirq);
      emit (EvDispatch cpu hwirq virq) ;;
      mret (match virq with Some _ => 0 | None => - EINVAL end)
  | pr_warn_ratelimited msg hwirq => emit (EvWarnRatelimited msg hwirq)
  | chained_irq_enter => emit EvChainedEnter
  | chained_irq_exit => emit EvChainedExit
  end.

(** Sequential execution of a program. *)
Fixpoint exec {A} (p : prog A) : M A :=
  match p with
  | Ret a => mret a
  | Step o k => b ← exec_op o; exec (k b)
  end.

(** Interleaved execution: [sched] names, step by step, the thread
    that performs its next atomic operation.  A thread that has
    finished, or an index outside the pool, lets the turn pass. *)
Fixpoint run_pool (sched : list nat) (pool : list (prog unit))
    : M (list (prog unit)) :=
  match sched with
  | [] => mret pool
  | i :: sched =>
      match pool !! i with
      | Some (Step o k) => b ← exec_op o; run_pool sched (<[i := k b]> pool)
      | _ => run_pool sched pool
      end
  end.

(** ** The send and drain paths *)

(** [for_each_cpu]: the CPUs of the mask below [nr_cpu_ids], in
    ascending order. *)
Definition cpus_of (mask : cpumask) : list nat :=
  filter (λ c, Z.testbit mask (Z.of_nat c) = true) (seq 0 nr_cpu_ids).

Definition for_each_cpu (mask : cpumask) (body : nat → prog unit) : prog unit :=
  foreach (cpus_of mask) body.

(** [for_each_set_bit]: the set bits of the word below [size], in
    ascending order. *)
Definition bits_of (w size : Z) : list Z :=
  filter (λ i, Z.testbit w i = true) (seqZ 0 size).

Definition for_each_set_bit (w size : Z) (body : Z → prog unit) : prog unit :=
  foreach (bits_of w size) body.

Definition ipi_mux_dummy (d : irq_data) : prog unit := mret tt.

Definition ipi_mux_send_mask (d : irq_data) (mask : cpumask) : prog unit :=
  (* Barrier before doing atomic bit update to IPI bits *)
  call smp_mb__before_atomic;;
  for_each_cpu mask (λ cpu, call (set_bit (d_hwirq d) cpu));;
  (* Barrier after doing atomic bit update to IPI bits *)
  call smp_mb__after_atomic;;
  (* Trigger the parent IPI *)
  call (call_ipi_mux_send mask).

(** [cpu] is the CPU the function runs on ([this_cpu_ptr]). *)
Definition ipi_mux_process (cpu : nat) : prog unit :=
  (* Clear the parent IPI *)
  clear ← call load_ipi_mux_clear;
  match clear with
  | Some f => call (call_ipi_mux_clear f)
  | None => mret tt
  end;;
  call smp_mb;;
  irqs ← call (xchg cpu 0);
  if bool_decide (irqs = 0) then mret tt
  else
    for_each_set_bit irqs IPI_MUX_NR_IRQS (λ hwirq,
      err ← call (generic_handle_domain_irq cpu hwirq);
      if bool_decide (err ≠ 0) then
        call (pr_warn_ratelimited "can't find mapping for hwirq %lu" hwirq)
      else mret tt).

(** Calling through a member of [ipi_mux_chip]. *)
Definition call_chip_fn (f : chip_fn) (d : irq_data) (mask : cpumask)
    : prog unit :=
  match f with
  | fn_ipi_mux_dummy => ipi_mux_dummy d
  | fn_ipi_mux_send_mask => ipi_mux_send_mask d mask
  end.

Definition ipi_mux_handler (cpu : nat) : prog unit :=
  call chained_irq_enter;;
  ipi_mux_process cpu;;
  call chained_irq_exit.

(** ** The irq core and the hotplug core, as far as creation uses them *)

(** What the host's allocators answer: whether the domain can be
    allocated, and the first Linux interrupt number of the block of
    descriptors or the error number of the failure. *)
Inductive descs_outcome := DescsOk (base : positive) | DescsErr (errno : positive).

Record alloc_outcome := {
  domain_alloc_ok : bool;
  descs_alloc : descs_outcome;
}.

Definition no_irq_data : irq_data :=
  {| d_hwirq := 0; d_chip := None; d_percpu_devid := false;
     d_handler := handle_bad_irq |}.

(** Modelled from the spec: [irq_domain_add_linear] allocates an empty
    mapping of the given size at a fresh address, or returns NULL. *)
Definition irq_domain_add_linear (ok : bool) (of_node : option nat) (size : Z)
    (ops : struct_irq_domain_ops) : M (option nat) :=
  if ok then
    p ← get (λ s, fresh (dom (h_domains (kernel s))));
    modify (set_kernel (set_domains
      <[p := {| dom_size := size; dom_fwnode := of_node; dom_ops := ops;
               dom_revmap := ∅ |}]>));;
    mret (Some p)
  else mret None.

(** Modelled from the spec: [irq_domain_remove] gives the mapping back. *)
Definition irq_domain_remove (p : nat) : M unit :=
  modify (set_kernel (set_domains (delete p))).

(** Modelled from the spec: [irq_set_percpu_devid] marks a virtual line
    as per-CPU. *)
Definition irq_set_percpu_devid (irq : Z) : M unit :=
  modify (set_kernel (set_irqs (alter (λ d,
    {| d_hwirq := d_hwirq d; d_chip := d_chip d; d_percpu_devid := true;
       d_handler := d_handler d |}) irq))).

(** Modelled from the spec: [irq_domain_set_info] configures a virtual
    line with its logical index, chip and flow handler. *)
Definition irq_domain_set_info (d : nat) (irq hwirq : Z) (chip : struct_irq_chip)
    (handler : flow_handler) : M unit :=
  modify (set_kernel (set_irqs (alter (λ d,
    {| d_hwirq := hwirq; d_chip := Some chip; d_percpu_devid := d_percpu_devid d;
       d_handler := handler |}) irq))).

(** Modelled from the spec: [irq_domain_translate_onecell] reads the
    logical index from the first cell of the specifier. *)
Definition irq_domain_translate_onecell (fwspec : irq_fwspec) : Z * Z * Z :=
  if bool_decide (param_count fwspec < 1) then (- EINVAL, 0, IRQ_TYPE_NONE)
  else (0, default 0 (param fwspec !! 0%nat), IRQ_TYPE_NONE).

Definition ipi_mux_domain_map (d : nat) (irq hwirq : Z) : M Z :=
  irq_set_percpu_devid irq;;
  irq_domain_set_info d irq hwirq ipi_mux_chip handle_percpu_devid_irq;;
  mret 0.

Fixpoint ipi_mux_domain_alloc_loop (d : nat) (virq hwirq : Z) (idx : list Z) : M Z :=
  match idx with
  | [] => mret 0
  | i :: idx =>
      ret ← ipi_mux_domain_map d ((virq + i) mod 2 ^ 32)
              ((hwirq + i) mod 2 ^ BITS_PER_LONG);
      if bool_decide (ret ≠ 0) then mret ret
      else ipi_mux_domain_alloc_loop d virq hwirq idx
  end.

Definition ipi_mux_domain_alloc (d : nat) (virq nr_irqs : Z) (arg : irq_fwspec)
    : M Z :=
  let '(ret, hwirq, type) := irq_domain_translate_onecell arg in
  if bool_decide (ret ≠ 0) then mret ret
  else ipi_mux_domain_alloc_loop d virq hwirq (seqZ 0 nr_irqs).

(** Modelled from the spec: [__irq_domain_alloc_irqs] allocates the
    virtual lines, has the domain's [alloc] callback configure them and
    enters them in the mapping; on any failure it rolls its own
    allocations back and returns a negative error number. *)
Definition __irq_domain_alloc_irqs (out : descs_outcome) (d : nat) (nr_irqs : Z)
    (arg : irq_fwspec) : M Z :=
  match out with
  | DescsErr errno => mret (Z.neg errno)
  | DescsOk base =>
      let virq := Z.pos base in
      let irqs := (λ i, virq + i) <$> seqZ 0 nr_irqs in
      modify (set_kernel (set_irqs (λ m,
        foldr (λ irq m, <[irq := no_irq_data]> m) m irqs)));;
      dm ← get (λ s, h_domains (kernel s) !! d);
      ret ← match dm with
            | None => fault
            | Some dm =>
                match ops_alloc (dom_ops dm) with
                | fn_ipi_mux_domain_alloc => ipi_mux_domain_alloc d virq nr_irqs arg
                end
            end;
      if bool_decide (ret < 0) then
        modify (set_kernel (set_irqs (λ m, foldr delete m irqs)));;
        mret ret
      else
        modify (set_kernel (λ h, set_domains (alter (λ dm,
          {| dom_size := dom_size dm; dom_fwnode := dom_fwnode dm;
             dom_ops := dom_ops dm;
             dom_revmap :=
               foldr (λ irq r,
                 match h_irqs h !! irq with
                 | Some data => <[d_hwirq data := irq]> r
                 | None => r
                 end) (dom_revmap dm) irqs |}) d) h));;
        mret virq
  end.

(** Modelled from the spec: [irq_set_chained_handler] installs a
    sub-handler on the physical interrupt. *)
Definition irq_set_chained_handler (irq : Z) (f : chained_fn) : M unit :=
  modify (set_kernel (set_chained <[irq := f]>)).

(** Modelled from the spec: [cpuhp_setup_state] registers the pair of
    callbacks run as CPUs come online and go offline. *)
Definition cpuhp_setup_state (st : cpuhp_state) (name : string)
    (startup teardown : hotplug_fn) : M unit :=
  modify (set_kernel (set_cpuhp (λ l, l ++
    [{| cpuhp_id := st; cpuhp_name := name; cpuhp_startup := startup;
        cpuhp_teardown := teardown |}]))).

(** Modelled from the spec: enabling and disabling reception of a
    per-CPU interrupt on the CPU that runs the call. *)
Definition enable_percpu_irq (cpu : nat) (irq type : Z) : M unit :=
  modify (set_kernel (set_enabled <[(irq, cpu) := type]>)).

Definition disable_percpu_irq (cpu : nat) (irq : Z) : M unit :=
  modify (set_kernel (set_enabled (delete (irq, cpu)))).

Definition irq_get_trigger_type (irq : Z) : M Z :=
  get (λ s, default IRQ_TYPE_NONE (h_trigger (kernel s) !! irq)).

(** ** Hotplug callbacks and creation *)

Definition ipi_mux_dying_cpu (cpu : nat) : M Z :=
  virq ← get ipi_mux_parent_virq;
  disable_percpu_irq cpu virq;;
  mret 0.

Definition ipi_mux_starting_cpu (cpu : nat) : M Z :=
  virq ← get ipi_mux_parent_virq;
  type ← irq_get_trigger_type virq;
  enable_percpu_irq cpu virq type;;
  mret 0.

Definition ipi_mux_create (env : alloc_outcome) (parent_virq : Z)
    (ops : option struct_ipi_mux_ops) : M Z :=
  cur ← get ipi_mux_domain;
  if decide (is_Some cur ∨ ¬ is_Some ops ∨ ¬ is_Some (ops ≫= ipi_mux_send))
  then mret 0
  else
    domain ← irq_domain_add_linear (domain_alloc_ok env) None IPI_MUX_NR_IRQS
               ipi_mux_domain_ops;
    match domain with
    | None =>
        emit (EvErr "unable to add IPI Mux domain");;
        mret 0
    | Some domain =>
        fw ← get (λ s, default None (dom_fwnode <$> h_domains (kernel s) !! domain));
        let ipi := {| fwnode := fw; param_count := 1; param := [0] |} in
        virq ← __irq_domain_alloc_irqs (descs_alloc env) domain
                 IPI_MUX_NR_IRQS ipi;
        if bool_decide (virq ≤ 0) then
          emit (EvErr "unable to alloc IRQs from IPI Mux domain");;
          irq_domain_remove domain;;
          mret virq
        else
          modify (set_statics parent_virq (Some domain) ops);;
          (if bool_decide (parent_virq > 0) then
             irq_set_chained_handler parent_virq fn_ipi_mux_handler;;
             cpuhp_setup_state CPUHP_AP_ONLINE_DYN "irqchip/ipi-mux:starting"
               fn_ipi_mux_starting_cpu fn_ipi_mux_dying_cpu
           else mret tt);;
          mret virq
    end.

(** Modelled from the spec: what the hotplug core does when a CPU
    reaches the "starting" and the "dying" transition: it runs the
    callbacks registered for it, on that CPU. *)
Definition call_hotplug_fn (f : hotplug_fn) (cpu : nat) : M Z :=
  match f with
  | fn_ipi_mux_starting_cpu => ipi_mux_starting_cpu cpu
  | fn_ipi_mux_dying_cpu => ipi_mux_dying_cpu cpu
  end.

Fixpoint call_hotplug_fns (fs : list hotplug_fn) (cpu : nat) : M unit :=
  match fs with
  | [] => mret tt
  | f :: fs => call_hotplug_fn f cpu;; call_hotplug_fns fs cpu
  end.

Definition cpu_starting (cpu : nat) : M unit :=
  steps ← get (λ s, h_cpuhp (kernel s));
  call_hotplug_fns (cpuhp_startup <$> steps) cpu.

Definition cpu_dying (cpu : nat) : M unit :=
  steps ← get (λ s, h_cpuhp (kernel s));
  call_hotplug_fns (cpuhp_teardown <$> reverse steps) cpu.

End Model.

(** ** Reading event lists *)

(** The logical lines handed to the irq core on [cpu], in order. *)
Definition dispatched (cpu : nat) (evs : list event) : list Z :=
  omap (λ e, match e with
             | EvDispatch c hwirq _ => if decide (c = cpu) then Some hwirq else None
             | _ => None
             end) evs.

(** The logical lines a warning was issued for, in order. *)
Definition warned (evs : list event) : list Z :=
  omap (λ e, match e with EvWarnRatelimited _ hwirq => Some hwirq | _ => None end) evs.

(** The words the exchanges on [cpu] returned, in order. *)
Definition snapshots (cpu : nat) (evs : list event) : list Z :=
  omap (λ e, match e with
             | EvXchg c old _ => if decide (c = cpu) then Some old else None
             | _ => None
             end) evs.

(** The calls of the parent's send function, in order. *)
Definition backend_sends (evs : list event) : list (fnptr * Z * cpumask) :=
  omap (λ e, match e with EvIpiMuxSend f v m => Some (f, v, m) | _ => None end) evs.

Definition has_bit (w : Z) (i : Z) : Prop := Z.testbit w i = true.

(** ** Definitions used in the statements *)

(** The words after the loop of [ipi_mux_send_mask]. *)
Definition set_bit_all (nr : Z) (l : list nat) (b : gmap nat Z) : gmap nat Z :=
  foldl (λ b cpu, <[cpu := word_set_bit nr (default 0 (b !! cpu))]> b) b l.

(** What one pass of the loop of [ipi_mux_process] emits for one bit. *)
Definition dispatch_events (s : state) (cpu : nat) (hwirq : Z) : list event :=
  match irq_resolve_mapping s hwirq with
  | Some virq => [EvDispatch cpu hwirq (Some virq)]
  | None => [EvDispatch cpu hwirq None;
             EvWarnRatelimited "can't find mapping for hwirq %lu" hwirq]
  end.

(** What clearing the parent IPI emits. *)
Definition clear_events (s : state) : list event :=
  match ipi_mux_ops s ≫= ipi_mux_clear with
  | Some f => [EvIpiMuxClear f (ipi_mux_parent_virq s)]
  | None => []
  end.

(** The number of times [x] occurs in [l]. *)
Definition occurrences (x : Z) (l : list Z) : nat :=
  length (filter (λ y, y = x) l).

(** What [ipi_mux_domain_map] makes of a virtual line. *)
Definition configure_line (hwirq : Z) (d : irq_data) : irq_data :=
  {| d_hwirq := hwirq; d_chip := Some ipi_mux_chip; d_percpu_devid := true;
     d_handler := handle_percpu_devid_irq |}.

(** The hotplug state [ipi_mux_create] sets up. *)
Definition ipi_mux_cpuhp : cpuhp_step :=
  {| cpuhp_id := CPUHP_AP_ONLINE_DYN;
     cpuhp_name := "irqchip/ipi-mux:starting";
     cpuhp_startup := fn_ipi_mux_starting_cpu;
     cpuhp_teardown := fn_ipi_mux_dying_cpu |}.

(** A change of the host that touches only the domains and the
    allocated interrupts. *)
Definition irq_core_only (kf : host → host) : Prop :=
  ∀ h, h_chained (kf h) = h_chained h ∧ h_cpuhp (kf h) = h_cpuhp h ∧
       h_enabled (kf h) = h_enabled h ∧ h_trigger (kf h) = h_trigger h.

(** The inputs [ipi_mux_create] turns down, and the allocation
    failures it meets. *)
Definition create_fails (env : alloc_outcome)
    (ops : option struct_ipi_mux_ops) (s : state) : Prop :=
  is_Some (ipi_mux_domain s) ∨ ¬ is_Some ops ∨ ¬ is_Some (ops ≫= ipi_mux_send) ∨
  domain_alloc_ok env = false ∨ (∃ errno, descs_alloc env = DescsErr errno).

(** The state a successful creation leaves: the statics are bound, and
    in chained mode the handler and the hotplug callbacks are set up. *)
Definition created_state (parent_virq : Z) (p : nat)
    (ops : option struct_ipi_mux_ops) (kf : host → host) (s : state) : state :=
  let s1 := set_statics parent_virq (Some p) ops (set_kernel kf s) in
  if bool_decide (parent_virq > 0) then
    set_kernel (set_cpuhp (λ l, l ++ [ipi_mux_cpuhp]))
      (set_kernel (set_chained <[parent_virq := fn_ipi_mux_handler]>) s1)
  else s1.

(** Is the operation an exchange on the pending word of [cpu]? *)
Definition is_xchg_on (cpu : nat) {T} (o : op T) : bool :=
  match o with
  | xchg c _ => bool_decide (c = cpu)
  | _ => false
  end.

(** Is the operation the setting of bit [nr] in the word of [cpu]? *)
Definition is_set_bit (nr : Z) (cpu : nat) {T} (o : op T) : bool :=
  match o with
  | set_bit n c => bool_decide (n = nr ∧ c = cpu)
  | _ => false
  end.

(** The only value the code ever exchanges in is zero. *)
Definition xchg_only_zero {T} (o : op T) : Prop :=
  match o with
  | xchg _ new => new = 0
  | _ => True
  end.

(** Every operation of the program, on every path, satisfies [Q]. *)
Fixpoint all_ops {A} (Q : ∀ T, op T → Prop) (p : prog A) : Prop :=
  match p with
  | Ret _ => True
  | Step o k => Q _ o ∧ ∀ b, all_ops Q (k b)
  end.

(** The program never exchanges the word of [cpu]. *)
Definition xchg_free {A} (cpu : nat) (p : prog A) : Prop :=
  all_ops (λ T o, is_xchg_on cpu o = false) p.

(** On every path the program exchanges the word of [cpu] exactly once. *)
Fixpoint one_xchg {A} (cpu : nat) (p : prog A) : Prop :=
  match p with
  | Ret _ => False
  | Step o k =>
      if is_xchg_on cpu o then ∀ b, xchg_free cpu (k b)
      else ∀ b, one_xchg cpu (k b)
  end.

(** On every path the program sets bit [nr] in the word of [cpu]. *)
Fixpoint will_set {A} (nr : Z) (cpu : nat) (p : prog A) : Prop :=
  match p with
  | Ret _ => False
  | Step o k => is_set_bit nr cpu o = true ∨ ∀ b, will_set nr cpu (k b)
  end.

(** What an operation needs in order not to fault: the bit inside the
    word, the parent's operations where it reads them. *)
Definition op_ready `{platform} (ops : option struct_ipi_mux_ops) {T}
    (o : op T) : Prop :=
  match o with
  | set_bit nr _ => 0 ≤ nr < BITS_PER_LONG
  | load_ipi_mux_clear => is_Some ops
  | call_ipi_mux_send _ => is_Some (ops ≫= ipi_mux_send)
  | _ => True
  end.

(** The invariant of a send for line [nr] racing with a drain on
    [cpu]: thread 0 sends, thread 1 drains, nobody else exchanges the
    word of [cpu]. *)
Definition race_inv (nr : Z) (cpu : nat) (pool : list (prog unit))
    (s : state) (evs : list event) : Prop :=
  (∀ i p, pool !! i = Some p → i ≠ 1%nat → xchg_free cpu p) ∧
  (∃ p1, pool !! 1%nat = Some p1 ∧
     ((snapshots cpu evs = [] ∧ one_xchg cpu p1) ∨
      (∃ w, snapshots cpu evs = [w] ∧ xchg_free cpu p1))) ∧
  (∃ p0, pool !! 0%nat = Some p0 ∧
     (will_set nr cpu p0 ∨ has_bit (per_cpu s cpu) nr ∨
      ∃ w, snapshots cpu evs = [w] ∧ has_bit w nr)).

(** ** A sample platform

    Eight logical lines on a 64-bit machine with four CPUs; the parent
    IPI is Linux interrupt 5, and creation is given the block of Linux
    interrupts starting at 10. *)

Definition demo_platform : platform :=
  {| BITS_PER_LONG := 64; IPI_MUX_NR_IRQS := 8; nr_cpu_ids := 4 |}.

Definition demo_ops : struct_ipi_mux_ops :=
  {| ipi_mux_clear := Some 7%nat; ipi_mux_send := Some 9%nat |}.

Definition demo_env : alloc_outcome :=
  {| domain_alloc_ok := true; descs_alloc := DescsOk 10 |}.

Definition demo_boot : state :=
  {| ipi_mux_parent_virq := 0; ipi_mux_domain := None; ipi_mux_ops := None;
     ipi_mux_bits := ∅;
     kernel := {| h_domains := ∅; h_irqs := ∅; h_chained := ∅; h_cpuhp := [];
                  h_enabled := ∅; h_trigger := {[ 5 := 4 ]} |} |}.

(** The state after [ipi_mux_create(5, &demo_ops)]. *)
Definition demo_state : state :=
  match ipi_mux_create (H := demo_platform) demo_env 5 (Some demo_ops) demo_boot with
  | Some (_, s, _) => s
  | None => demo_boot
  end.

(** As [demo_state], with logical line 3 removed from the mapping. *)
Definition demo_state_unmapped : state :=
  set_kernel (set_domains (alter (λ dm,
    {| dom_size := dom_size dm; dom_fwnode := dom_fwnode dm;
       dom_ops := dom_ops dm;
       dom_revmap := delete 3 (dom_revmap dm) |}) 0%nat)) demo_state.

(** The virtual line of logical line 3. *)
Definition demo_line3 : irq_data :=
  {| d_hwirq := 3; d_chip := Some ipi_mux_chip; d_percpu_devid := true;
     d_handler := handle_percpu_devid_irq |}.

(** The sample state with lines 1, 3 and 4 pending on CPU 1 and line
    3 without a mapping. *)
Definition demo_pending : state :=
  set_bits (λ _, {[ 1%nat := 26 ]}) demo_state_unmapped.

(** A race on CPU 1: the drain exchanges its word before the sender,
    running on another CPU, sets bit 3; the bit is in the snapshot of
    the drain that follows. *)
Definition demo_sched : list nat := [1; 1; 1; 1; 0; 0; 1; 0; 0; 0]%nat.

Definition demo_race_events : list event :=
  [EvIpiMuxClear 7%nat 5; EvBarrier mb_full; EvXchg 1 0 0;
   EvBarrier mb_before_atomic; EvSetBit 1 3; EvSetBit 2 3;
   EvBarrier mb_after_atomic; EvIpiMuxSend 9%nat 5 6].

Definition demo_after_race : state :=
  set_bits (λ _, {[ 1%nat := 8; 2%nat := 8 ]}) demo_state.

Definition demo_next_drain_events : list event :=
  [EvIpiMuxClear 7%nat 5; EvBarrier mb_full; EvXchg 1 8 0;
   EvDispatch 1 3 (Some 13)].

(** ** Further definitions used in the statements *)

(** Every pending bit is a logical line: it lies below
    [IPI_MUX_NR_IRQS]. *)
Definition pending_bounded `{platform} (s : state) : Prop :=
  ∀ c i, has_bit (per_cpu s c) i → 0 ≤ i < IPI_MUX_NR_IRQS.

(** Line [i] is sent to CPU [c] by one of the sends of the list. *)
Definition sent `{platform} (sends : list (irq_data * cpumask)) (i : Z)
    (c : nat) : Prop :=
  ∃ d m, (d, m) ∈ sends ∧ d_hwirq d = i ∧ c ∈ cpus_of m.

(** The program stays within [J]: it sets only bits of [J], exchanges
    in only zero, and hands a line to the irq core only if it is in
    [J]; what it does after an exchange is looked at only for returned
    words whose bits are in [J]. *)
Fixpoint within (J : nat → Z → Prop) {A} (p : prog A) : Prop :=
  match p with
  | Ret _ => True
  | Step o k =>
      match o in op T return (T → Prop) → Prop with
      | set_bit nr c => λ K, J c nr ∧ ∀ b, K b
      | xchg c new => λ K, new = 0 ∧ ∀ b, (∀ i, has_bit b i → J c i) → K b
      | generic_handle_domain_irq c hw => λ K, J c hw ∧ ∀ b, K b
      | _ => λ K, ∀ b, K b
      end (λ b, within J (k b))
  end.

(** A pool of threads: one send per entry of [sends], then one drain
    per entry of [drains]. *)
Definition mux_pool `{platform} (sends : list (irq_data * cpumask))
    (drains : list nat) : list (prog unit) :=
  ((λ dm, ipi_mux_send_mask dm.1 dm.2) <$> sends) ++ (ipi_mux_process <$> drains).

(** Bit [i] of CPU [c] is pending in [s] or in a snapshot taken on [c]
    in [evs]. *)
Definition held (s : state) (evs : list event) (c : nat) (i : Z) : Prop :=
  has_bit (per_cpu s c) i ∨ ∃ w, w ∈ snapshots c evs ∧ has_bit w i.

(** The invariant of a pool that stays within [J], started in [s0]:
    pending bits, bits set and lines dispatched are in [J], and a bit
    is pending or in a snapshot exactly when it was pending at the
    start or has been set. *)
Definition pool_inv (J : nat → Z → Prop) (s0 : state) (pool : list (prog unit))
    (s : state) (evs : list event) : Prop :=
  Forall (within J) pool ∧
  (∀ c i, has_bit (per_cpu s c) i → J c i) ∧
  (∀ c i, EvSetBit c i ∈ evs → J c i) ∧
  (∀ c hw v, EvDispatch c hw v ∈ evs → J c hw) ∧
  (∀ c i, held s evs c i ↔ has_bit (per_cpu s0 c) i ∨ EvSetBit c i ∈ evs).

(** Every send of the list will still set its bits or has set them. *)
Definition sends_inv `{platform} (sends : list (irq_data * cpumask))
    (pool : list (prog unit)) (evs : list event) : Prop :=
  ∀ j d m c, sends !! j = Some (d, m) → c ∈ cpus_of m →
    (∃ p, pool !! j = Some p ∧ will_set (d_hwirq d) c p) ∨
    EvSetBit c (d_hwirq d) ∈ evs.

(** The send path, once for each entry of the list. *)
Definition send_all `{platform} (sends : list (irq_data * cpumask)) : prog unit :=
  foreach sends (λ dm, ipi_mux_send_mask dm.1 dm.2).

(** ** The SBI clock driver: rounding a rate

    [sbi_clk_round_rate] of the clock driver is the one function of it
    that computes; the others pass their arguments to the firmware. *)

Definition SBI_CLK_TYPE_RANGE : Z := 0.
Definition SBI_CLK_TYPE_DISCRETE : Z := 1.

(** [union sbi_clk_rates], as the 64-bit words it is made of: word [i]
    is [list[i]], and [range.min_rate], [range.max_rate] and
    [range.step_size] are the words 0, 1 and 2. *)
Definition union_sbi_clk_rates := nat → Z.

Definition range_min_rate (u : union_sbi_clk_rates) : Z := u 0%nat.
Definition range_max_rate (u : union_sbi_clk_rates) : Z := u 1%nat.
Definition range_step_size (u : union_sbi_clk_rates) : Z := u 2%nat.

(** [struct sbi_clk], without its name and its [clk_hw]. *)
Record sbi_clk := {
  sbi_clk_id : Z;
  sbi_clk_type : bool;
  sbi_clk_num_rates : Z;
  sbi_clk_rates : union_sbi_clk_rates;
}.

(** Arithmetic on [u64] wraps. *)
Definition u64 (x : Z) : Z := x mod 2 ^ 64.

(** Conversion to [long], the type [sbi_clk_round_rate] returns. *)
Definition to_long `{platform} (x : Z) : Z :=
  let y := x mod 2 ^ BITS_PER_LONG in
  if bool_decide (y < 2 ^ (BITS_PER_LONG - 1)) then y else y - 2 ^ BITS_PER_LONG.

Section ClkModel.
Context `{platform}.

(** The kernel's [do_div] macro is a parameter: [do_div n base] is the
    value it leaves in [n]. *)
Variable do_div : Z → Z → Z.

(** [rate] is an [unsigned long]; the comparisons and the arithmetic
    are on [u64]. *)
Definition sbi_clk_round_rate (clk : sbi_clk) (rate : Z) : Z :=
  if bool_decide (Z.b2z (sbi_clk_type clk) = SBI_CLK_TYPE_DISCRETE) then
    to_long rate
  else
    let fmin := range_min_rate (sbi_clk_rates clk) in
    let fmax := range_max_rate (sbi_clk_rates clk) in
    if bool_decide (rate ≤ fmin) then to_long fmin
    else if bool_decide (rate >= fmax) then to_long fmax
    else
      let ftmp := u64 (rate - fmin) in
      (* to round up *)
      let ftmp := u64 (ftmp + u64 (range_step_size (sbi_clk_rates clk) - 1)) in
      let ftmp := do_div ftmp (range_step_size (sbi_clk_rates clk)) in
      to_long (u64 (u64 (ftmp * range_step_size (sbi_clk_rates clk)) + fmin)).

End ClkModel.

(** What the driver relies on of [do_div]: for a dividend that is a
    [u64] and a divisor that fits the 32 bits the macro takes, it
    leaves the quotient. *)
Definition do_div_divides (do_div : Z → Z → Z) : Prop :=
  ∀ n base, 0 ≤ n < 2 ^ 64 → 0 < base < 2 ^ 32 → do_div n base = n / base.

(** A clock with a range of rates whose bounds and step the
    arithmetic of [sbi_clk_round_rate] can hold: the step is positive
    and fits [do_div], and one step above the maximum is still a
    [long]. *)
Definition range_clock `{platform} (clk : sbi_clk) : Prop :=
  sbi_clk_type clk = false ∧
  1 ≤ BITS_PER_LONG ≤ 64 ∧
  0 ≤ range_min_rate (sbi_clk_rates clk) < range_max_rate (sbi_clk_rates clk) ∧
  0 < range_step_size (sbi_clk_rates clk) < 2 ^ 32 ∧
  range_max_rate (sbi_clk_rates clk) + range_step_size (sbi_clk_rates clk)
    ≤ 2 ^ (BITS_PER_LONG - 1).

(** ** Further samples *)

(** Line 3 sent to CPUs 1 and 2, then again to CPU 1. *)
Definition demo_sends : list (irq_data * cpumask) :=
  [(demo_line3, 6); (demo_line3, 2)].

(** A clock with rates from 100 to 1000 in steps of 100. *)
Definition demo_clk : sbi_clk :=
  {| sbi_clk_id := 0; sbi_clk_type := false; sbi_clk_num_rates := 1;
     sbi_clk_rates := λ i, match i with
                           | 0%nat => 100 | 1%nat => 1000 | 2%nat => 100
                           | _ => 0
                           end |}.

(** A clock whose maximum is off the grid: rates from 100 to 1050 in
    steps of 100. *)
Definition demo_clk_off : sbi_clk :=
  {| sbi_clk_id := 1; sbi_clk_type := false; sbi_clk_num_rates := 1;
     sbi_clk_rates := λ i, match i with
                           | 0%nat => 100 | 1%nat => 1050 | 2%nat => 100
                           | _ => 0
                           end |}.

Ltac unfold_M :=
  unfold mbind, M_bind, bindM, mret, M_ret, retM, emit, get, modify, fault.

(** ** Basic facts *)

Section Facts.
Context `{platform}.

Lemma exec_bind {A C} (p : prog A) (f : A → prog C) (s : state) :
  exec (p ≫= f) s = (exec p ≫= (λ a, exec (f a))) s.
Proof.
  revert s. induction p as [a | B o k IH]; intros s.
  - unfold_M. simpl. destruct (exec (f a) s) as [[[c s2] e2]|]; reflexivity.
  - change (exec (Step o k ≫= f) s)
      with ((b ← exec_op o; exec (k b ≫= f)) s).
    change (exec (Step o k)) with (b ← exec_op o; exec (k b)).
    unfold mbind at 1 3 4, M_bind, bindM.
    destruct (exec_op o s) as [[[b s1] e1]|]; [|reflexivity].
    rewrite IH. unfold mbind, M_bind, bindM.
    destruct (exec (k b) s1) as [[[a s2] e2]|]; [|reflexivity].
    destruct (exec (f a) s2) as [[[c s3] e3]|]; [|reflexivity].
    by rewrite (assoc_L (++)).
Qed.

Lemma exec_call {B} (o : op B) (s : state) : exec (call o) s = exec_op o s.
Proof.
  unfold call. simpl. unfold_M.
  destruct (exec_op o s) as [[[b s1] e1]|]; [|reflexivity].
  by rewrite (right_id_L [] (++)).
Qed.

Lemma exec_foreach_cons {X} (x : X) (l : list X) (body : X → prog unit)
    (s : state) :
  exec (foreach (x :: l) body) s =
    (exec (body x) ≫= (λ _, exec (foreach l body))) s.
Proof. apply (exec_bind (body x) (λ _, foreach l body)). Qed.

Lemma elem_of_cpus_of (mask : cpumask) (c : nat) :
  c ∈ cpus_of mask ↔ (c < nr_cpu_ids)%nat ∧ has_bit mask (Z.of_nat c).
Proof.
  unfold cpus_of, has_bit. rewrite list_elem_of_filter, elem_of_seq. intuition lia.
Qed.

Lemma NoDup_cpus_of (mask : cpumask) : NoDup (cpus_of mask).
Proof. apply NoDup_filter, NoDup_seq. Qed.

Lemma elem_of_bits_of (w size i : Z) :
  i ∈ bits_of w size ↔ 0 ≤ i < size ∧ has_bit w i.
Proof.
  unfold bits_of, has_bit. rewrite list_elem_of_filter, elem_of_seqZ. intuition lia.
Qed.

Lemma NoDup_bits_of (w size : Z) : NoDup (bits_of w size).
Proof. apply NoDup_filter, NoDup_seqZ. Qed.

Lemma bits_of_zero (size : Z) : bits_of 0 size = [].
Proof.
  unfold bits_of. induction (seqZ 0 size) as [|i l IH]; [done|].
  rewrite filter_cons_False; [done|]. by rewrite Z.bits_0.
Qed.

Lemma has_bit_word_set_bit (nr w i : Z) :
  0 ≤ nr → has_bit (word_set_bit nr w) i ↔ has_bit w i ∨ i = nr.
Proof.
  intros Hnr. unfold has_bit, word_set_bit.
  rewrite Z.lor_spec, orb_true_iff.
  destruct (decide (i = nr)) as [->|Hne].
  - rewrite Z.shiftl_spec, Z.sub_diag by done. simpl. tauto.
  - destruct (decide (0 ≤ i)) as [Hi|Hi].
    + rewrite Z.shiftl_spec by done.
      assert (Z.testbit 1 (i - nr) = false) as ->; [|intuition congruence].
      destruct (decide (i - nr < 0)); [by apply Z.testbit_neg_r|].
      replace (i - nr) with (Z.succ (i - nr - 1)) by lia.
      change 1 with (2 * 0 + 1).
      rewrite Z.testbit_odd_succ by lia. apply Z.bits_0.
    + rewrite (Z.testbit_neg_r (Z.shiftl 1 nr)) by lia. intuition congruence.
Qed.

Lemma word_set_bit_idemp (nr w : Z) :
  word_set_bit nr (word_set_bit nr w) = word_set_bit nr w.
Proof. unfold word_set_bit. by rewrite <-Z.lor_assoc, Z.lor_diag. Qed.

Lemma lookup_set_bit_all (nr : Z) (l : list nat) (b : gmap nat Z) (c : nat) :
  default 0 (set_bit_all nr l b !! c) =
    if decide (c ∈ l) then word_set_bit nr (default 0 (b !! c))
    else default 0 (b !! c).
Proof.
  unfold set_bit_all. revert b. induction l as [|x l IH]; intros b; simpl.
  { destruct (decide (c ∈ [])) as [Hin|]; [by apply elem_of_nil in Hin|done]. }
  rewrite IH. destruct (decide (c = x)) as [->|Hne].
  - rewrite lookup_insert_eq. simpl. rewrite word_set_bit_idemp.
    rewrite (decide_True (P := x ∈ x :: l)) by left.
    by destruct (decide (x ∈ l)).
  - rewrite lookup_insert_ne by done.
    destruct (decide (c ∈ l)), (decide (c ∈ x :: l)) as [Hin|Hin]; try done.
    + exfalso. apply Hin. by right.
    + exfalso. apply elem_of_cons in Hin as [?|?]; done.
Qed.

Lemma exec_set_bit_loop (hw : Z) (l : list nat) (s : state) :
  l = [] ∨ 0 ≤ hw < BITS_PER_LONG →
  exec (foreach l (λ cpu, call (set_bit hw cpu))) s =
    Some (tt, set_bits (set_bit_all hw l) s, (λ c, EvSetBit c hw) <$> l).
Proof.
  intros Hhw. revert s. induction l as [|c l IH]; intros s.
  { simpl. unfold_M. by destruct s. }
  destruct Hhw as [|Hhw]; [done|]. specialize (IH (or_intror Hhw)).
  rewrite exec_foreach_cons. unfold mbind at 1, M_bind, bindM.
  rewrite exec_call. simpl. rewrite bool_decide_eq_true_2 by done.
  unfold_M. by rewrite IH.
Qed.

Lemma exec_foreach_stateless {X} (l : list X) (body : X → prog unit)
    (ev : X → list event) (s : state) :
  (∀ x, exec (body x) s = Some (tt, s, ev x)) →
  exec (foreach l body) s = Some (tt, s, l ≫= ev).
Proof.
  intros Hb. induction l as [|x l IH]; [done|].
  rewrite exec_foreach_cons. unfold mbind at 1, M_bind, bindM.
  by rewrite Hb, IH.
Qed.

Lemma exec_dispatch_body (cpu : nat) (hwirq : Z) (s : state) :
  exec (err ← call (generic_handle_domain_irq cpu hwirq);
        if bool_decide (err ≠ 0) then
          call (pr_warn_ratelimited "can't find mapping for hwirq %lu" hwirq)
        else mret tt) s =
    Some (tt, s, dispatch_events s cpu hwirq).
Proof.
  unfold dispatch_events. simpl. unfold_M. simpl.
  by destruct (irq_resolve_mapping s hwirq).
Qed.

Lemma irq_resolve_mapping_set_bits (f : gmap nat Z → gmap nat Z) (s : state) :
  irq_resolve_mapping (set_bits f s) = irq_resolve_mapping s.
Proof. reflexivity. Qed.

(** The complete behaviour of [ipi_mux_send_mask]. *)
Lemma exec_ipi_mux_send_mask (d : irq_data) (mask : cpumask) (s : state)
    (ops : struct_ipi_mux_ops) (f : fnptr) :
  cpus_of mask = [] ∨ 0 ≤ d_hwirq d < BITS_PER_LONG →
  ipi_mux_ops s = Some ops →
  ipi_mux_send ops = Some f →
  exec (ipi_mux_send_mask d mask) s =
    Some (tt, set_bits (set_bit_all (d_hwirq d) (cpus_of mask)) s,
          EvBarrier mb_before_atomic
            :: ((λ c, EvSetBit c (d_hwirq d)) <$> cpus_of mask)
            ++ [EvBarrier mb_after_atomic;
                EvIpiMuxSend f (ipi_mux_parent_virq s) mask]).
Proof.
  intros Hhw Hops Hsend. unfold ipi_mux_send_mask, for_each_cpu.
  rewrite exec_bind. unfold mbind at 1, M_bind, bindM.
  rewrite exec_call. simpl exec_op. unfold emit.
  rewrite exec_bind. unfold mbind at 1, M_bind, bindM.
  rewrite exec_set_bit_loop by done.
  rewrite exec_bind. unfold mbind at 1, M_bind, bindM.
  rewrite exec_call. simpl exec_op. unfold_M.
  rewrite exec_call. simpl exec_op. unfold_M. simpl.
  rewrite Hops, Hsend. done.
Qed.

(** The complete behaviour of [ipi_mux_process]. *)
Lemma exec_ipi_mux_process (cpu : nat) (s : state) :
  is_Some (ipi_mux_ops s) →
  exec (ipi_mux_process cpu) s =
    Some (tt, set_bits <[cpu := 0]> s,
          clear_events s
            ++ [EvBarrier mb_full; EvXchg cpu (per_cpu s cpu) 0]
            ++ (bits_of (per_cpu s cpu) IPI_MUX_NR_IRQS ≫= dispatch_events s cpu)).
Proof.
  intros [ops Hops]. unfold ipi_mux_process, clear_events.
  rewrite exec_bind. unfold mbind at 1, M_bind, bindM.
  rewrite exec_call. simpl exec_op. unfold_M. rewrite Hops. simpl.
  assert (∀ (p : prog unit) ev,
    exec p s = Some (tt, s, ev) →
    exec (p;; call smp_mb;; irqs ← call (xchg cpu 0);
          if bool_decide (irqs = 0) then mret tt
          else for_each_set_bit irqs IPI_MUX_NR_IRQS (λ hwirq,
            err ← call (generic_handle_domain_irq cpu hwirq);
            if bool_decide (err ≠ 0) then
              call (pr_warn_ratelimited "can't find mapping for hwirq %lu" hwirq)
            else mret tt)) s =
    Some (tt, set_bits <[cpu := 0]> s,
          ev ++ [EvBarrier mb_full; EvXchg cpu (per_cpu s cpu) 0]
            ++ (bits_of (per_cpu s cpu) IPI_MUX_NR_IRQS ≫= dispatch_events s cpu)))
    as Hrest.
  { intros p ev Hp.
    rewrite exec_bind. unfold mbind at 1, M_bind, bindM. rewrite Hp.
    rewrite exec_bind. unfold mbind at 1, M_bind, bindM.
    rewrite exec_call. simpl exec_op. unfold emit.
    rewrite exec_bind. unfold mbind at 1, M_bind, bindM.
    rewrite exec_call. simpl exec_op. unfold_M. simpl.
    case_bool_decide as Hz.
    - simpl. rewrite Hz, bits_of_zero. done.
    - unfold for_each_set_bit.
      erewrite exec_foreach_stateless; [|intros hw; apply exec_dispatch_body].
      simpl. do 3 f_equal. }
  destruct (ipi_mux_clear ops) as [f|].
  - rewrite (Hrest _ [EvIpiMuxClear f (ipi_mux_parent_virq s)]); [done|].
    rewrite exec_call. simpl. by unfold_M.
  - by rewrite (Hrest _ []).
Qed.

Lemma per_cpu_set_bits (f : gmap nat Z → gmap nat Z) (s : state) (c : nat) :
  per_cpu (set_bits f s) c = default 0 (f (ipi_mux_bits s) !! c).
Proof. reflexivity. Qed.

Lemma per_cpu_xchg (cpu : nat) (new : Z) (s : state) (c : nat) :
  per_cpu (set_bits <[cpu := new]> s) c =
    if decide (c = cpu) then new else per_cpu s c.
Proof.
  rewrite per_cpu_set_bits. destruct (decide (c = cpu)) as [->|Hne].
  - by rewrite lookup_insert_eq.
  - by rewrite lookup_insert_ne.
Qed.

Lemma dispatched_app (c : nat) (e1 e2 : list event) :
  dispatched c (e1 ++ e2) = dispatched c e1 ++ dispatched c e2.
Proof. apply omap_app. Qed.

Lemma warned_app (e1 e2 : list event) : warned (e1 ++ e2) = warned e1 ++ warned e2.
Proof. apply omap_app. Qed.

Lemma snapshots_app (c : nat) (e1 e2 : list event) :
  snapshots c (e1 ++ e2) = snapshots c e1 ++ snapshots c e2.
Proof. apply omap_app. Qed.

Lemma dispatched_dispatch_events (s : state) (cpu c : nat) (l : list Z) :
  dispatched c (l ≫= dispatch_events s cpu) = if decide (c = cpu) then l else [].
Proof.
  induction l as [|hw l IH].
  { by destruct (decide (c = cpu)). }
  rewrite bind_cons, dispatched_app, IH. unfold dispatch_events.
  destruct (irq_resolve_mapping s hw); unfold dispatched; simpl;
    by destruct (decide (cpu = c)), (decide (c = cpu)).
Qed.

Lemma warned_dispatch_events (s : state) (cpu : nat) (l : list Z) :
  warned (l ≫= dispatch_events s cpu) =
    filter (λ hw, irq_resolve_mapping s hw = None) l.
Proof.
  induction l as [|hw l IH]; [done|].
  rewrite bind_cons, warned_app, IH. unfold dispatch_events.
  destruct (irq_resolve_mapping s hw) eqn:Hr.
  - by rewrite filter_cons_False by (by rewrite Hr).
  - by rewrite filter_cons_True by done.
Qed.

Lemma dispatched_clear_events (s : state) (c : nat) :
  dispatched c (clear_events s) = [].
Proof. unfold clear_events. by destruct (ipi_mux_ops s ≫= ipi_mux_clear). Qed.

Lemma warned_clear_events (s : state) : warned (clear_events s) = [].
Proof. unfold clear_events. by destruct (ipi_mux_ops s ≫= ipi_mux_clear). Qed.

Lemma snapshots_clear_events (s : state) (c : nat) :
  snapshots c (clear_events s) = [].
Proof. unfold clear_events. by destruct (ipi_mux_ops s ≫= ipi_mux_clear). Qed.

Lemma snapshots_dispatch_events (s : state) (cpu c : nat) (l : list Z) :
  snapshots c (l ≫= dispatch_events s cpu) = [].
Proof.
  induction l as [|hw l IH]; [done|].
  rewrite bind_cons, snapshots_app, IH. unfold dispatch_events.
  by destruct (irq_resolve_mapping s hw).
Qed.

(** What a drain on [cpu] hands to the irq core, read off its events. *)
Lemma dispatched_process (cpu c : nat) (s : state) :
  dispatched c
    (clear_events s
       ++ [EvBarrier mb_full; EvXchg cpu (per_cpu s cpu) 0]
       ++ (bits_of (per_cpu s cpu) IPI_MUX_NR_IRQS ≫= dispatch_events s cpu)) =
    if decide (c = cpu) then bits_of (per_cpu s cpu) IPI_MUX_NR_IRQS else [].
Proof.
  rewrite !dispatched_app, dispatched_clear_events, dispatched_dispatch_events.
  done.
Qed.

Lemma snapshots_process (cpu : nat) (s : state) :
  snapshots cpu
    (clear_events s
       ++ [EvBarrier mb_full; EvXchg cpu (per_cpu s cpu) 0]
       ++ (bits_of (per_cpu s cpu) IPI_MUX_NR_IRQS ≫= dispatch_events s cpu)) =
    [per_cpu s cpu].
Proof.
  rewrite !snapshots_app, snapshots_clear_events, snapshots_dispatch_events.
  unfold snapshots. simpl. by rewrite decide_True.
Qed.

Lemma StronglySorted_seqZ (m n : Z) : StronglySorted Z.lt (seqZ m n).
Proof.
  unfold seqZ. generalize (Z.to_nat n) as k. intros k.
  generalize 0%nat as j. induction k as [|k IH]; intros j; simpl.
  { constructor. }
  constructor; [apply IH|].
  apply Forall_fmap, Forall_forall. intros i Hi.
  apply elem_of_seq in Hi. simpl. lia.
Qed.

Lemma StronglySorted_filter {A} (R : relation A) (P : A → Prop)
    `{∀ x, Decision (P x)} (l : list A) :
  StronglySorted R l → StronglySorted R (filter P l).
Proof.
  induction 1 as [|x l Hl IH Hx]; [constructor|].
  rewrite filter_cons. destruct (decide (P x)); [|done].
  constructor; [done|].
  apply Forall_forall. intros y Hy. apply list_elem_of_filter in Hy as [_ Hy].
  by eapply Forall_forall in Hx.
Qed.

Lemma StronglySorted_bits_of (w size : Z) : StronglySorted Z.lt (bits_of w size).
Proof. apply StronglySorted_filter, StronglySorted_seqZ. Qed.

Lemma occurrences_NoDup (x : Z) (l : list Z) :
  NoDup l → x ∈ l → occurrences x l = 1%nat.
Proof.
  unfold occurrences. induction 1 as [|y l Hy Hl IH]; intros Hin.
  { by apply elem_of_nil in Hin. }
  rewrite filter_cons. destruct (decide (y = x)) as [->|Hne].
  - simpl. f_equal. apply length_zero_iff_nil.
    apply elem_of_nil_inv. intros z Hz.
    apply list_elem_of_filter in Hz as [-> Hz]. done.
  - apply IH. apply elem_of_cons in Hin as [?|?]; [congruence|done].
Qed.

End Facts.

(** ** The send path *)

Section Send.
Context `{platform}.

Lemma cpus_of_zero : cpus_of 0 = [].
Proof.
  unfold cpus_of. induction (seq 0 nr_cpu_ids) as [|c l IH]; [done|].
  rewrite filter_cons_False; [done|]. by rewrite Z.bits_0.
Qed.

(** C4: [ipi_mux_send_mask] on logical line [d_hwirq d] and target set
    [mask] performs, in this order, the barrier before the atomic
    updates, the atomic setting of the bit in the pending word of every
    CPU of the set (and of no other CPU), the barrier after the atomic
    updates, and then exactly one call of the parent's send function
    with the parent interrupt and the same set. *)
Theorem send_mask_order (d : irq_data) (mask : cpumask) (s : state)
    (ops : struct_ipi_mux_ops) (f : fnptr) :
  0 ≤ d_hwirq d < IPI_MUX_NR_IRQS →
  IPI_MUX_NR_IRQS ≤ BITS_PER_LONG →
  ipi_mux_ops s = Some ops →
  ipi_mux_send ops = Some f →
  ∃ s' evs,
    exec (ipi_mux_send_mask d mask) s = Some (tt, s', evs) ∧
    evs = [EvBarrier mb_before_atomic]
            ++ ((λ c, EvSetBit c (d_hwirq d)) <$> cpus_of mask)
            ++ [EvBarrier mb_after_atomic]
            ++ [EvIpiMuxSend f (ipi_mux_parent_virq s) mask] ∧
    backend_sends evs = [(f, ipi_mux_parent_virq s, mask)] ∧
    (∀ c, c ∈ cpus_of mask ↔ (c < nr_cpu_ids)%nat ∧ has_bit mask (Z.of_nat c)) ∧
    (∀ c, per_cpu s' c =
            if decide (c ∈ cpus_of mask)
            then word_set_bit (d_hwirq d) (per_cpu s c)
            else per_cpu s c).
Proof.
  intros Hhw Hn Hops Hsend. eexists _, _. split.
  { eapply exec_ipi_mux_send_mask; [right; lia|done..]. }
  split; [done|]. split; [|split].
  - unfold backend_sends. simpl. rewrite omap_app. simpl.
    replace (omap _ (_ <$> cpus_of mask)) with (@nil (fnptr * Z * cpumask)); [done|].
    induction (cpus_of mask); [done|]. by simpl.
  - apply elem_of_cpus_of.
  - intros c. rewrite per_cpu_set_bits. apply lookup_set_bit_all.
Qed.

(** C10: with a target set that holds no CPU, [ipi_mux_send_mask] sets
    no pending bit on any CPU (the state is unchanged) and still calls
    the parent's send function exactly once, with that empty set. *)
Theorem send_mask_empty (d : irq_data) (mask : cpumask) (s : state)
    (ops : struct_ipi_mux_ops) (f : fnptr) :
  cpus_of mask = [] →
  ipi_mux_ops s = Some ops →
  ipi_mux_send ops = Some f →
  exec (ipi_mux_send_mask d mask) s =
    Some (tt, s, [EvBarrier mb_before_atomic; EvBarrier mb_after_atomic;
                  EvIpiMuxSend f (ipi_mux_parent_virq s) mask]).
Proof.
  intros Hm Hops Hsend.
  erewrite exec_ipi_mux_send_mask; [|by left|done..].
  rewrite Hm. simpl. by destruct s.
Qed.

End Send.

(** ** The drain path *)

Section Drain.
Context `{platform}.

(** C7: a drain on a CPU whose pending word is empty calls the
    parent's clear function if there is one, passes the barrier,
    exchanges zero for zero, and returns: it hands nothing to the irq
    core on any CPU, issues no warning, and leaves every pending word
    and the rest of the state as they were. *)
Theorem process_spurious (cpu : nat) (s : state) :
  is_Some (ipi_mux_ops s) →
  per_cpu s cpu = 0 →
  ∃ s' evs,
    exec (ipi_mux_process cpu) s = Some (tt, s', evs) ∧
    evs = clear_events s ++ [EvBarrier mb_full; EvXchg cpu 0 0] ∧
    (∀ c, dispatched c evs = []) ∧
    warned evs = [] ∧
    (∀ c, per_cpu s' c = per_cpu s c) ∧
    ipi_mux_parent_virq s' = ipi_mux_parent_virq s ∧
    ipi_mux_domain s' = ipi_mux_domain s ∧
    ipi_mux_ops s' = ipi_mux_ops s ∧
    kernel s' = kernel s.
Proof.
  intros Hops Hz. eexists _, _. split; [by apply exec_ipi_mux_process|].
  rewrite Hz, bits_of_zero. simpl.
  split; [done|]. split; [|split; [|split; [|done]]].
  - intros c. by rewrite dispatched_app, dispatched_clear_events.
  - by rewrite warned_app, warned_clear_events.
  - intros c. rewrite per_cpu_xchg. by destruct (decide (c = cpu)) as [->|].
Qed.

(** C6: a drain never aborts.  Its exchange returns the whole pending
    word; every logical line set in that word is handed to the irq
    core, which runs the handler of the virtual line it is mapped to;
    for a line without a mapping a rate-limited warning is issued and
    the loop goes on with the remaining lines. *)
Theorem process_dispatch_all (cpu : nat) (s : state) :
  is_Some (ipi_mux_ops s) →
  ∃ s' evs,
    exec (ipi_mux_process cpu) s = Some (tt, s', evs) ∧
    snapshots cpu evs = [per_cpu s cpu] ∧
    dispatched cpu evs = bits_of (per_cpu s cpu) IPI_MUX_NR_IRQS ∧
    (∀ hw, 0 ≤ hw < IPI_MUX_NR_IRQS → has_bit (per_cpu s cpu) hw →
       EvDispatch cpu hw (irq_resolve_mapping s hw) ∈ evs) ∧
    warned evs =
      filter (λ hw, irq_resolve_mapping s hw = None)
        (bits_of (per_cpu s cpu) IPI_MUX_NR_IRQS).
Proof.
  intros Hops. eexists _, _. split; [by apply exec_ipi_mux_process|].
  split; [|split; [|split]].
  - apply snapshots_process.
  - rewrite dispatched_process. by rewrite decide_True.
  - intros hw Hhw Hbit. rewrite !elem_of_app. right. right.
    apply list_elem_of_bind. exists hw. split; [|by apply elem_of_bits_of].
    unfold dispatch_events.
    destruct (irq_resolve_mapping s hw); [apply list_elem_of_singleton|]; [done|].
    by left.
  - rewrite !warned_app, warned_clear_events, warned_dispatch_events. done.
Qed.

(** C9: within one drain the logical lines of the snapshot are handed
    to the irq core in strictly ascending order of their index.  The
    drain takes one snapshot, the word that was pending; the lines it
    hands to the irq core are the set bits of that snapshot below
    [IPI_MUX_NR_IRQS], all of them and no other line, listed as
    [for_each_set_bit] visits them; and that list is strictly
    increasing. *)
Theorem process_ascending (cpu : nat) (s : state) :
  is_Some (ipi_mux_ops s) →
  ∃ s' evs,
    exec (ipi_mux_process cpu) s = Some (tt, s', evs) ∧
    snapshots cpu evs = [per_cpu s cpu] ∧
    dispatched cpu evs = bits_of (per_cpu s cpu) IPI_MUX_NR_IRQS ∧
    (∀ hw, hw ∈ dispatched cpu evs ↔
           0 ≤ hw < IPI_MUX_NR_IRQS ∧ has_bit (per_cpu s cpu) hw) ∧
    StronglySorted Z.lt (dispatched cpu evs).
Proof.
  intros Hops. eexists _, _. split; [by apply exec_ipi_mux_process|].
  split; [apply snapshots_process|].
  rewrite dispatched_process, decide_True by done.
  split; [reflexivity|]. split.
  - intros hw. apply elem_of_bits_of.
  - apply StronglySorted_bits_of.
Qed.

(** One drain on each CPU of [cs], one after the other. *)
Lemma exec_drains (cs : list nat) (s : state) :
  is_Some (ipi_mux_ops s) →
  NoDup cs →
  ∃ s' evs,
    exec (foreach cs ipi_mux_process) s = Some (tt, s', evs) ∧
    (∀ c, dispatched c evs =
            if decide (c ∈ cs) then bits_of (per_cpu s c) IPI_MUX_NR_IRQS else []) ∧
    (∀ c hw, c ∈ cs → 0 ≤ hw < IPI_MUX_NR_IRQS → has_bit (per_cpu s c) hw →
       EvDispatch c hw (irq_resolve_mapping s hw) ∈ evs) ∧
    (∀ c, per_cpu s' c = if decide (c ∈ cs) then 0 else per_cpu s c).
Proof.
  intros Hops Hnd. revert s Hops.
  induction Hnd as [|c cs Hc Hnd IH]; intros s Hops.
  { eexists _, _. split; [done|]. split; [|split]; intros c.
    - by rewrite decide_False by apply not_elem_of_nil.
    - intros hw Hin. by apply elem_of_nil in Hin.
    - by rewrite decide_False by apply not_elem_of_nil. }
  destruct (IH (set_bits <[c := 0]> s) Hops) as (s' & evs & Hex & Hdis & Hev & Hbits).
  eexists _, _. split.
  { rewrite exec_foreach_cons. unfold mbind at 1, M_bind, bindM.
    rewrite exec_ipi_mux_process by done. by rewrite Hex. }
  split; [|split].
  - intros c0. rewrite dispatched_app, dispatched_process, Hdis.
    rewrite per_cpu_xchg.
    destruct (decide (c0 = c)) as [->|Hne].
    + rewrite (decide_False (P := c ∈ cs)) by done.
      rewrite (decide_True (P := c ∈ c :: cs)) by left.
      by rewrite (right_id_L [] (++)).
    + destruct (decide (c0 ∈ cs)) as [Hin|Hin].
      * by rewrite (decide_True (P := c0 ∈ c :: cs)) by (by right).
      * rewrite (decide_False (P := c0 ∈ c :: cs)); [done|].
        rewrite elem_of_cons. tauto.
  - intros c0 hw Hin Hhw Hbit. apply elem_of_app.
    destruct (decide (c0 = c)) as [->|Hne].
    + left. rewrite !elem_of_app. right. right.
      apply list_elem_of_bind. exists hw. split; [|by apply elem_of_bits_of].
      unfold dispatch_events.
      destruct (irq_resolve_mapping s hw); [apply list_elem_of_singleton|]; [done|].
      by left.
    + right. apply elem_of_cons in Hin as [?|Hin]; [done|].
      apply (Hev c0 hw Hin Hhw). rewrite per_cpu_xchg.
      by rewrite decide_False by done.
  - intros c0. rewrite Hbits, per_cpu_xchg.
    destruct (decide (c0 = c)) as [->|Hne].
    + rewrite (decide_True (P := c ∈ c :: cs)) by left.
      by destruct (decide (c ∈ cs)).
    + destruct (decide (c0 ∈ cs)) as [Hin|Hin].
      * by rewrite (decide_True (P := c0 ∈ c :: cs)) by (by right).
      * rewrite (decide_False (P := c0 ∈ c :: cs)); [done|].
        rewrite elem_of_cons. tauto.
Qed.

(** C1: after [ipi_mux_send_mask] for logical line [d_hwirq d] and
    target set [mask], one drain on each CPU of the set, in any order,
    hands that logical line to the irq core exactly once on each CPU of
    the set, which runs the handler of the virtual line the mapping
    gives it. *)
Theorem send_then_drain_once (d : irq_data) (mask : cpumask) (s : state)
    (ops : struct_ipi_mux_ops) (f : fnptr) (cs : list nat) :
  0 ≤ d_hwirq d < IPI_MUX_NR_IRQS →
  IPI_MUX_NR_IRQS ≤ BITS_PER_LONG →
  ipi_mux_ops s = Some ops →
  ipi_mux_send ops = Some f →
  cs ≡ₚ cpus_of mask →
  ∃ s1 e1 s2 e2,
    exec (ipi_mux_send_mask d mask) s = Some (tt, s1, e1) ∧
    exec (foreach cs ipi_mux_process) s1 = Some (tt, s2, e2) ∧
    (∀ c, c ∈ cpus_of mask →
       occurrences (d_hwirq d) (dispatched c e2) = 1%nat ∧
       EvDispatch c (d_hwirq d) (irq_resolve_mapping s (d_hwirq d)) ∈ e2) ∧
    (∀ c, c ∉ cpus_of mask → dispatched c e2 = []).
Proof.
  intros Hhw Hn Hops Hsend Hperm.
  assert (NoDup cs) as Hnd by (rewrite Hperm; apply NoDup_cpus_of).
  pose proof (exec_ipi_mux_send_mask d mask s ops f) as Hex1.
  destruct (exec_drains cs (set_bits (set_bit_all (d_hwirq d) (cpus_of mask)) s))
    as (s2 & e2 & Hex2 & Hdis & Hev & _); [simpl; rewrite Hops; by eexists|done|].
  eexists _, _, s2, e2. split; [apply Hex1; [right; lia|done..]|].
  split; [done|].
  assert (∀ c, c ∈ cpus_of mask →
    has_bit (per_cpu (set_bits (set_bit_all (d_hwirq d) (cpus_of mask)) s) c)
      (d_hwirq d)) as Hset.
  { intros c Hc. rewrite per_cpu_set_bits, lookup_set_bit_all.
    rewrite decide_True by done. apply has_bit_word_set_bit; [lia|by right]. }
  split.
  - intros c Hc. split.
    + rewrite Hdis, decide_True by (by rewrite Hperm).
      apply occurrences_NoDup; [apply NoDup_bits_of|].
      apply elem_of_bits_of. split; [done|]. by apply Hset.
    + apply (Hev c (d_hwirq d)); [by rewrite Hperm|done|by apply Hset].
  - intros c Hc. rewrite Hdis, decide_False; [done|]. by rewrite Hperm.
Qed.

End Drain.

(** ** Creation and the hotplug callbacks *)

Section Create.
Context `{platform}.

Lemma ipi_mux_domain_alloc_loop_ok (d : nat) (virq hwirq : Z) (idx : list Z)
    (s : state) :
  ∃ g, ipi_mux_domain_alloc_loop d virq hwirq idx s =
         Some (0, set_kernel (set_irqs g) s, []).
Proof.
  revert s. induction idx as [|i idx IH]; intros s.
  { exists id. simpl. unfold_M. by destruct s as [? ? ? ? []]. }
  simpl. unfold ipi_mux_domain_map, irq_set_percpu_devid, irq_domain_set_info.
  unfold_M. simpl.
  match goal with |- context [ipi_mux_domain_alloc_loop _ _ _ _ ?s1] =>
    destruct (IH s1) as [g ->] end.
  eexists (λ m, g (alter _ _ (alter _ _ m))). reflexivity.
Qed.

Lemma ipi_mux_domain_alloc_ok (d : nat) (virq nr_irqs : Z) (arg : irq_fwspec)
    (s : state) :
  1 ≤ param_count arg →
  ∃ g, ipi_mux_domain_alloc d virq nr_irqs arg s =
         Some (0, set_kernel (set_irqs g) s, []).
Proof.
  intros Hpc. unfold ipi_mux_domain_alloc, irq_domain_translate_onecell.
  rewrite bool_decide_eq_false_2 by lia.
  rewrite bool_decide_eq_false_2 by (intros Hne; by apply Hne).
  apply ipi_mux_domain_alloc_loop_ok.
Qed.

Lemma irq_domain_alloc_irqs_ok (base : positive) (d : nat) (nr_irqs : Z)
    (arg : irq_fwspec) (s : state) :
  1 ≤ param_count arg →
  is_Some (h_domains (kernel s) !! d) →
  ∃ kf, irq_core_only kf ∧
    __irq_domain_alloc_irqs (DescsOk base) d nr_irqs arg s =
      Some (Z.pos base, set_kernel kf s, []).
Proof.
  intros Hpc [dm Hdm]. unfold __irq_domain_alloc_irqs.
  unfold mbind at 1, M_bind, bindM, modify.
  unfold mbind at 1, M_bind, bindM, get. simpl. rewrite Hdm.
  unfold mbind at 1, M_bind, bindM.
  destruct (ops_alloc (dom_ops dm)).
  match goal with |- context [ipi_mux_domain_alloc _ _ _ _ ?s1] =>
    destruct (ipi_mux_domain_alloc_ok d (Z.pos base) nr_irqs arg s1 Hpc) as [g ->]
  end.
  rewrite bool_decide_eq_false_2 by lia.
  unfold_M. simpl.
  match goal with
  | |- ∃ kf, _ ∧ Some (_, set_kernel ?f1 (set_kernel ?f2 (set_kernel ?f3 s)), _) = _ =>
      exists (λ h, f1 (f2 (f3 h)))
  end.
  split; [|reflexivity]. by intros h.
Qed.

Lemma irq_domain_add_remove (d : irq_domain) (s : state) :
  let p := fresh (dom (h_domains (kernel s))) in
  set_kernel (set_domains (delete p)) (set_kernel (set_domains <[p := d]>) s) = s.
Proof.
  intros p. destruct s as [v dm o b k]. destruct k as [ds i c hp e tr].
  unfold set_kernel, set_domains. simpl. do 2 f_equal.
  apply delete_insert_id. apply not_elem_of_dom. apply is_fresh.
Qed.

Lemma create_fails_dec (env : alloc_outcome)
    (ops : option struct_ipi_mux_ops) (s : state) :
  create_fails env ops s ∨ ¬ create_fails env ops s.
Proof.
  unfold create_fails.
  destruct (ipi_mux_domain s); [left; left; by eexists|].
  destruct ops as [o|]; [|left; right; left; by intros [? ?]].
  destruct (ipi_mux_send o) eqn:Hs;
    [|left; right; right; left; simpl; rewrite Hs; by intros [? ?]].
  destruct (domain_alloc_ok env); [|left; by do 3 right; left].
  destruct (descs_alloc env) as [b|e]; [|left; do 4 right; by eexists].
  right. simpl. rewrite Hs.
  intros [[? ?]|[Hn|[Hn|[?|[? ?]]]]]; try done; by apply Hn.
Qed.

Lemma create_reject (env : alloc_outcome) (parent_virq : Z)
    (ops : option struct_ipi_mux_ops) (s : state) :
  create_fails env ops s →
  ∃ r evs, ipi_mux_create env parent_virq ops s = Some (r, s, evs) ∧ r ≤ 0.
Proof.
  intros Hf. unfold ipi_mux_create.
  unfold mbind at 1, M_bind, bindM, get.
  destruct (decide _) as [Hrej|Hacc].
  { exists 0, []. by unfold_M. }
  destruct Hf as [?|[?|[?|[Hda|[errno Hde]]]]]; try tauto.
  - rewrite Hda. exists 0. eexists. unfold irq_domain_add_linear. by unfold_M.
  - unfold irq_domain_add_linear. destruct (domain_alloc_ok env).
    + rewrite Hde. exists (Z.neg errno). eexists.
      unfold __irq_domain_alloc_irqs, irq_domain_remove. unfold_M. simpl.
      split; [|lia]. do 2 f_equal. f_equal.
      apply (irq_domain_add_remove _ s).
    + exists 0. eexists. by unfold_M.
Qed.

Lemma create_accept (env : alloc_outcome) (parent_virq : Z)
    (ops : option struct_ipi_mux_ops) (s : state) :
  ¬ create_fails env ops s →
  ∃ base p kf, irq_core_only kf ∧ descs_alloc env = DescsOk base ∧
    ipi_mux_create env parent_virq ops s =
      Some (Z.pos base, created_state parent_virq p ops kf s, []).
Proof.
  intros Hf. unfold create_fails in Hf. unfold ipi_mux_create.
  unfold mbind at 1, M_bind, bindM, get.
  destruct (decide _) as [Hrej|Hacc]; [tauto|].
  destruct (domain_alloc_ok env) eqn:Hda; [|tauto].
  destruct (descs_alloc env) as [base|errno] eqn:Hde; [|exfalso; eauto 10].
  unfold irq_domain_add_linear.
  unfold mbind at 1, M_bind, bindM.
  unfold mbind at 1, M_bind, bindM, get.
  unfold mbind at 1, M_bind, bindM, modify.
  unfold mret at 1, M_ret, retM.
  unfold mbind at 1, M_bind, bindM, get.
  unfold mbind at 1, M_bind, bindM.
  match goal with |- context [__irq_domain_alloc_irqs _ ?p _ ?arg ?s1] =>
    destruct (irq_domain_alloc_irqs_ok base p IPI_MUX_NR_IRQS arg s1)
      as (kf & Hkf & ->);
      [simpl; lia|simpl; rewrite lookup_insert_eq; by eexists|];
    exists base, p,
      (λ h, kf (set_domains <[p := {| dom_size := IPI_MUX_NR_IRQS;
                                      dom_fwnode := None;
                                      dom_ops := ipi_mux_domain_ops;
                                      dom_revmap := ∅ |}]> h))
  end.
  split; [|split; [done|]].
  { intros h. destruct (Hkf (set_domains
      <[fresh (dom (h_domains (kernel s))) :=
          {| dom_size := IPI_MUX_NR_IRQS; dom_fwnode := None;
             dom_ops := ipi_mux_domain_ops; dom_revmap := ∅ |}]> h))
      as (-> & -> & -> & ->).
    done. }
  rewrite bool_decide_eq_false_2 by lia.
  unfold created_state, irq_set_chained_handler, cpuhp_setup_state.
  case_bool_decide; by unfold_M.
Qed.

Lemma ipi_mux_domain_map_lines (d : nat) (irq hwirq : Z) (s : state) :
  ∃ s',
    ipi_mux_domain_map d irq hwirq s = Some (0, s', []) ∧
    h_domains (kernel s') = h_domains (kernel s) ∧
    ∀ k, h_irqs (kernel s') !! k =
           if decide (k = irq) then configure_line hwirq <$> h_irqs (kernel s) !! k
           else h_irqs (kernel s) !! k.
Proof.
  eexists. split; [reflexivity|]. split; [done|]. intros k. simpl.
  destruct (decide (k = irq)) as [->|Hne].
  - rewrite !lookup_alter_eq. by destruct (h_irqs (kernel s) !! irq).
  - by rewrite !lookup_alter_ne by done.
Qed.

Lemma ipi_mux_domain_alloc_loop_lines (d : nat) (virq hwirq : Z) (idx : list Z)
    (s : state) :
  NoDup ((λ i, (virq + i) mod 2 ^ 32) <$> idx) →
  ∃ s',
    ipi_mux_domain_alloc_loop d virq hwirq idx s = Some (0, s', []) ∧
    h_domains (kernel s') = h_domains (kernel s) ∧
    (∀ i, i ∈ idx →
       h_irqs (kernel s') !! ((virq + i) mod 2 ^ 32) =
         configure_line ((hwirq + i) mod 2 ^ BITS_PER_LONG)
           <$> h_irqs (kernel s) !! ((virq + i) mod 2 ^ 32)) ∧
    (∀ k, (∀ i, i ∈ idx → (virq + i) mod 2 ^ 32 ≠ k) →
       h_irqs (kernel s') !! k = h_irqs (kernel s) !! k).
Proof.
  revert s. induction idx as [|i0 idx IH]; intros s Hnd.
  { exists s. repeat split; try done.
    intros i Hi. by apply elem_of_nil in Hi. }
  rewrite fmap_cons in Hnd. apply NoDup_cons in Hnd as [Hi0 Hnd].
  destruct (ipi_mux_domain_map_lines d ((virq + i0) mod 2 ^ 32)
              ((hwirq + i0) mod 2 ^ BITS_PER_LONG) s) as (s1 & Hmap & Hd1 & Hl1).
  destruct (IH s1 Hnd) as (s' & Hloop & Hd' & Hin' & Hout').
  exists s'. split; [|split; [|split]].
  - simpl. unfold mbind, M_bind, bindM. rewrite Hmap.
    rewrite bool_decide_eq_false_2 by (intros Hne; by apply Hne).
    by rewrite Hloop.
  - by rewrite Hd', Hd1.
  - intros i Hi. apply elem_of_cons in Hi as [->|Hi].
    + rewrite Hout'.
      * by rewrite Hl1, decide_True.
      * intros j Hj Heq. apply Hi0. apply list_elem_of_fmap. by exists j.
    + rewrite Hin' by done. rewrite Hl1.
      destruct (decide (_ = _)) as [Heq|]; [|done].
      exfalso. apply Hi0. apply list_elem_of_fmap. by exists i.
  - intros k Hk. rewrite Hout'.
    + rewrite Hl1, decide_False; [done|]. intros ->. apply (Hk i0); [by left|done].
    + intros i Hi. apply Hk. by right.
Qed.

Lemma lookup_foldr_insert_lines (x : irq_data) (l : list Z) (m : gmap Z irq_data)
    (k : Z) :
  k ∈ l → foldr (λ irq m, <[irq := x]> m) m l !! k = Some x.
Proof.
  induction l as [|y l IH]; intros Hin; [by apply elem_of_nil in Hin|].
  simpl. destruct (decide (y = k)) as [->|Hne].
  - apply lookup_insert_eq.
  - rewrite lookup_insert_ne by done. apply IH.
    apply elem_of_cons in Hin as [?|?]; [congruence|done].
Qed.

Lemma lookup_revmap_fold (hirqs : gmap Z irq_data) (base : Z) (l : list Z)
    (r0 : gmap Z Z) (v : Z) :
  (∀ i, i ∈ l → ∃ data, hirqs !! (base + i) = Some data ∧ d_hwirq data = i) →
  v ∈ l →
  foldr (λ irq r,
           match hirqs !! irq with
           | Some data => <[d_hwirq data := irq]> r
           | None => r
           end) r0 ((λ i, base + i) <$> l) !! v = Some (base + v).
Proof.
  induction l as [|i0 l IH]; intros Hl Hin; [by apply elem_of_nil in Hin|].
  rewrite fmap_cons. simpl.
  destruct (Hl i0) as (data & -> & Hhw); [by left|]. rewrite Hhw.
  destruct (decide (i0 = v)) as [->|Hne].
  - apply lookup_insert_eq.
  - rewrite lookup_insert_ne by done. apply IH.
    + intros i Hi. apply Hl. by right.
    + apply elem_of_cons in Hin as [?|?]; [congruence|done].
Qed.

(** A successful creation maps the logical lines one to one onto the
    block of Linux interrupts it was given: line [v] onto [base + v]. *)
Lemma create_maps_lines (env : alloc_outcome) (parent_virq : Z)
    (ops : option struct_ipi_mux_ops) (s s' : state) (r : Z)
    (evs : list event) :
  ipi_mux_create env parent_virq ops s = Some (r, s', evs) →
  0 < r →
  r + IPI_MUX_NR_IRQS ≤ 2 ^ 32 →
  IPI_MUX_NR_IRQS ≤ BITS_PER_LONG →
  ∀ v, 0 ≤ v < IPI_MUX_NR_IRQS → irq_resolve_mapping s' v = Some (r + v).
Proof.
  intros Hc Hr Hwrap Hbits v Hv.
  destruct (create_fails_dec env ops s) as [Hf|Hf].
  { destruct (create_reject env parent_virq ops s Hf) as (r0 & e0 & Hc0 & Hr0).
    rewrite Hc0 in Hc. injection Hc as <- <- <-. lia. }
  destruct (create_accept env parent_virq ops s Hf) as (base & p0 & kf0 & _ & Hde & Hc0).
  assert (r = Z.pos base) as -> by (rewrite Hc0 in Hc; by injection Hc).
  clear Hc0 p0 kf0. revert Hc. unfold create_fails in Hf. unfold ipi_mux_create.
  unfold mbind at 1, M_bind, bindM, get.
  destruct (decide _) as [Hrej|Hacc]; [tauto|].
  destruct (domain_alloc_ok env) eqn:Hda; [|tauto].
  rewrite Hde.
  unfold irq_domain_add_linear.
  unfold mbind at 1, M_bind, bindM.
  unfold mbind at 1, M_bind, bindM, get.
  unfold mbind at 1, M_bind, bindM, modify.
  unfold mret at 1, M_ret, retM.
  unfold mbind at 1, M_bind, bindM, get.
  unfold mbind at 1, M_bind, bindM.
  set (p := fresh (dom (h_domains (kernel s)))).
  unfold __irq_domain_alloc_irqs.
  unfold mbind at 1, M_bind, bindM, modify.
  unfold mbind at 1, M_bind, bindM, get. simpl.
  rewrite lookup_insert_eq. simpl.
  unfold mbind at 1, M_bind, bindM.
  unfold ipi_mux_domain_alloc, irq_domain_translate_onecell. simpl.
  assert (2 ^ 32 = 4294967296) as H32 by reflexivity.
  assert (IPI_MUX_NR_IRQS < 2 ^ BITS_PER_LONG) as Hpow.
  { pose proof (Z.pow_gt_lin_r 2 BITS_PER_LONG). lia. }
  assert (∀ i, i ∈ seqZ 0 IPI_MUX_NR_IRQS →
            (Z.pos base + i) mod 2 ^ 32 = Z.pos base + i ∧
            (0 + i) mod 2 ^ BITS_PER_LONG = i) as Hmod.
  { intros i Hi. apply elem_of_seqZ in Hi.
    split; apply Z.mod_small; lia. }
  match goal with |- context [ipi_mux_domain_alloc_loop p ?vq 0 ?idx ?s1] =>
    destruct (ipi_mux_domain_alloc_loop_lines p vq 0 idx s1)
      as (s2 & -> & Hd2 & Hin2 & _)
  end.
  { apply NoDup_fmap_2_strong; [|apply NoDup_seqZ].
    intros x y Hx Hy. destruct (Hmod x Hx) as [-> _].
    destruct (Hmod y Hy) as [-> _]. lia. }
  simpl in Hd2.
  assert (∀ i, i ∈ seqZ 0 IPI_MUX_NR_IRQS →
            ∃ data, h_irqs (kernel s2) !! (Z.pos base + i) = Some data ∧
                    d_hwirq data = i) as Hlines.
  { intros i Hi. specialize (Hin2 i Hi). destruct (Hmod i Hi) as [Hm1 Hm2].
    rewrite Hm1, Hm2 in Hin2. simpl in Hin2.
    rewrite lookup_foldr_insert_lines in Hin2
      by (apply list_elem_of_fmap; by exists i).
    eexists. split; [exact Hin2|done]. }
  assert (v ∈ seqZ 0 IPI_MUX_NR_IRQS) as Hvin by (apply elem_of_seqZ; lia).
  simpl. unfold_M. simpl.
  case_bool_decide; simpl; intros ?; simplify_eq.
  all: unfold irq_resolve_mapping; simpl; rewrite Hd2, lookup_alter_eq,
    lookup_insert_eq; simpl.
  all: by apply lookup_revmap_fold.
Qed.

Lemma starting_cpu_enables (cpu : nat) (st : state) :
  ∃ st',
    ipi_mux_starting_cpu cpu st = Some (0, st', []) ∧
    h_enabled (kernel st') !! (ipi_mux_parent_virq st, cpu) =
      Some (default IRQ_TYPE_NONE (h_trigger (kernel st) !! ipi_mux_parent_virq st)) ∧
    h_cpuhp (kernel st') = h_cpuhp (kernel st) ∧
    h_trigger (kernel st') = h_trigger (kernel st) ∧
    ipi_mux_parent_virq st' = ipi_mux_parent_virq st.
Proof.
  eexists. split; [reflexivity|]. simpl.
  split; [apply lookup_insert_eq|done].
Qed.

Lemma dying_cpu_disables (cpu : nat) (st : state) :
  ∃ st',
    ipi_mux_dying_cpu cpu st = Some (0, st', []) ∧
    h_enabled (kernel st') !! (ipi_mux_parent_virq st, cpu) = None ∧
    h_cpuhp (kernel st') = h_cpuhp (kernel st) ∧
    ipi_mux_parent_virq st' = ipi_mux_parent_virq st.
Proof.
  eexists. split; [reflexivity|]. simpl.
  split; [apply lookup_delete_eq|done].
Qed.

(** C5: when the parent's operations are absent or lack the send
    function, or a controller already exists, or the host cannot
    allocate the mapping or the virtual lines, [ipi_mux_create] returns
    a value that is not positive and the state after the call is the
    state before it: no mapping, no virtual line, no binding of the
    statics, no chained handler and no hotplug callback is left. *)
Theorem create_failure_atomic (env : alloc_outcome) (parent_virq : Z)
    (ops : option struct_ipi_mux_ops) (s : state) :
  is_Some (ipi_mux_domain s) ∨ ops = None ∨ ops ≫= ipi_mux_send = None ∨
    domain_alloc_ok env = false ∨ (∃ errno, descs_alloc env = DescsErr errno) →
  ∃ r evs,
    ipi_mux_create env parent_virq ops s = Some (r, s, evs) ∧ r ≤ 0.
Proof.
  intros Hf. apply create_reject.
  unfold create_fails. rewrite <-!eq_None_not_Some. tauto.
Qed.

(** C8: the hotplug callbacks are set up exactly when creation
    succeeds with a real parent interrupt (chained mode); with no
    parent interrupt (explicit mode) none is set up.  The starting
    callback enables the parent interrupt on the CPU it runs on, with
    the trigger type configured for that interrupt, and the dying
    callback disables it there. *)
Theorem hooks_iff_chained (env : alloc_outcome) (parent_virq : Z)
    (ops : option struct_ipi_mux_ops) (s s' : state) (r : Z) (evs : list event) :
  ipi_mux_create env parent_virq ops s = Some (r, s', evs) →
  h_cpuhp (kernel s') =
    h_cpuhp (kernel s)
      ++ (if bool_decide (0 < r ∧ parent_virq > 0) then [ipi_mux_cpuhp] else []) ∧
  (∀ cpu st, ∃ st',
     call_hotplug_fn (cpuhp_startup ipi_mux_cpuhp) cpu st = Some (0, st', []) ∧
     h_enabled (kernel st') !! (ipi_mux_parent_virq st, cpu) =
       Some (default IRQ_TYPE_NONE
               (h_trigger (kernel st) !! ipi_mux_parent_virq st))) ∧
  (∀ cpu st, ∃ st',
     call_hotplug_fn (cpuhp_teardown ipi_mux_cpuhp) cpu st = Some (0, st', []) ∧
     h_enabled (kernel st') !! (ipi_mux_parent_virq st, cpu) = None) ∧
  (h_cpuhp (kernel s) = [] → 0 < r → parent_virq > 0 → ∀ cpu, ∃ s1 s2,
     cpu_starting cpu s' = Some (tt, s1, []) ∧
     h_enabled (kernel s1) !! (parent_virq, cpu) =
       Some (default IRQ_TYPE_NONE (h_trigger (kernel s) !! parent_virq)) ∧
     cpu_dying cpu s1 = Some (tt, s2, []) ∧
     h_enabled (kernel s2) !! (parent_virq, cpu) = None) ∧
  (h_cpuhp (kernel s) = [] → ¬ parent_virq > 0 → ∀ cpu,
     cpu_starting cpu s' = Some (tt, s', []) ∧
     cpu_dying cpu s' = Some (tt, s', [])).
Proof.
  intros Hc.
  split; [|split; [|split]].
  2:{ intros cpu st. destruct (starting_cpu_enables cpu st) as (st' & ? & ? & _).
      by exists st'. }
  2:{ intros cpu st. destruct (dying_cpu_disables cpu st) as (st' & ? & ? & _).
      by exists st'. }
  all: destruct (create_fails_dec env ops s) as [Hf|Hf].
  - destruct (create_reject env parent_virq ops s Hf) as (r0 & e0 & Hc0 & Hr0).
    rewrite Hc0 in Hc. injection Hc as <- <- <-.
    rewrite bool_decide_eq_false_2 by lia. by rewrite (right_id_L [] (++)).
  - destruct (create_accept env parent_virq ops s Hf) as (b & p & kf & Hkf & _ & Hc0).
    rewrite Hc0 in Hc. injection Hc as <- <- <-.
    destruct (Hkf (kernel s)) as (_ & Hhp & _).
    unfold created_state. case_bool_decide as Hp.
    + rewrite bool_decide_eq_true_2 by lia. simpl. by rewrite Hhp.
    + rewrite bool_decide_eq_false_2 by lia. simpl.
      by rewrite Hhp, (right_id_L [] (++)).
  - destruct (create_reject env parent_virq ops s Hf) as (r0 & e0 & Hc0 & Hr0).
    rewrite Hc0 in Hc. injection Hc as <- <- <-.
    split; [intros; lia|].
    intros Hnil _ cpu. unfold cpu_starting, cpu_dying. unfold_M.
    rewrite Hnil. simpl. done.
  - destruct (create_accept env parent_virq ops s Hf) as (b & p & kf & Hkf & _ & Hc0).
    rewrite Hc0 in Hc. injection Hc as <- <- <-.
    destruct (Hkf (kernel s)) as (_ & Hhp & _ & Htr).
    unfold created_state. split.
    + intros Hnil _ Hp cpu. rewrite bool_decide_eq_true_2 by done.
      unfold cpu_starting, cpu_dying. unfold_M. simpl.
      rewrite Hhp, Hnil. simpl. unfold_M. simpl.
      eexists _, _. split; [reflexivity|]. simpl. rewrite Hhp, Hnil. simpl.
      split; [by rewrite lookup_insert_eq, Htr|].
      split; [reflexivity|]. apply lookup_delete_eq.
    + intros Hnil Hp cpu. rewrite bool_decide_eq_false_2 by done.
      unfold cpu_starting, cpu_dying. unfold_M. simpl.
      rewrite Hhp, Hnil. simpl. done.
Qed.

End Create.

(** ** Atomic steps and interleavings *)

Section Interleaving.
Context `{platform}.

Lemma all_ops_bind {A C} (Q : ∀ T, op T → Prop) (p : prog A) (f : A → prog C) :
  all_ops Q p → (∀ a, all_ops Q (f a)) → all_ops Q (p ≫= f).
Proof.
  intros Hp Hf. induction p as [a | T o k IH]; [apply Hf|].
  destruct Hp as [Ho Hk]. split; [done|]. intros b. apply IH, Hk.
Qed.

Lemma all_ops_foreach {X} (Q : ∀ T, op T → Prop) (l : list X)
    (body : X → prog unit) :
  (∀ x, all_ops Q (body x)) → all_ops Q (foreach l body).
Proof.
  intros Hb. induction l as [|x l IH]; [done|].
  apply (all_ops_bind Q (body x) (λ _, foreach l body)); [apply Hb|done].
Qed.

Lemma all_ops_send_mask (Q : ∀ T, op T → Prop) (d : irq_data) (mask : cpumask) :
  Q _ smp_mb__before_atomic → Q _ smp_mb__after_atomic →
  (∀ c, Q _ (set_bit (d_hwirq d) c)) → Q _ (call_ipi_mux_send mask) →
  all_ops Q (ipi_mux_send_mask d mask).
Proof.
  intros Q1 Q2 Q3 Q4. unfold ipi_mux_send_mask.
  apply all_ops_bind; [by split|]. intros _.
  apply all_ops_bind.
  { apply all_ops_foreach. intros c. by split. }
  intros _. apply all_ops_bind; [by split|]. intros _. by split.
Qed.

Lemma all_ops_dispatch (Q : ∀ T, op T → Prop) (cpu : nat) (w : Z) :
  (∀ hw, Q _ (generic_handle_domain_irq cpu hw)) →
  (∀ msg hw, Q _ (pr_warn_ratelimited msg hw)) →
  all_ops Q (for_each_set_bit w IPI_MUX_NR_IRQS (λ hwirq,
    err ← call (generic_handle_domain_irq cpu hwirq);
    if bool_decide (err ≠ 0) then
      call (pr_warn_ratelimited "can't find mapping for hwirq %lu" hwirq)
    else mret tt)).
Proof.
  intros Q1 Q2. apply all_ops_foreach. intros hw.
  split; [done|]. intros err. simpl. by case_bool_decide.
Qed.

Lemma all_ops_process (Q : ∀ T, op T → Prop) (cpu : nat) :
  Q _ load_ipi_mux_clear → (∀ f, Q _ (call_ipi_mux_clear f)) → Q _ smp_mb →
  Q _ (xchg cpu 0) → (∀ hw, Q _ (generic_handle_domain_irq cpu hw)) →
  (∀ msg hw, Q _ (pr_warn_ratelimited msg hw)) →
  all_ops Q (ipi_mux_process cpu).
Proof.
  intros Q1 Q2 Q3 Q4 Q5 Q6. unfold ipi_mux_process.
  apply all_ops_bind; [by split|]. intros clear.
  apply all_ops_bind; [by destruct clear|]. intros _.
  apply all_ops_bind; [by split|]. intros _.
  apply all_ops_bind; [by split|]. intros irqs.
  case_bool_decide; [done|]. by apply all_ops_dispatch.
Qed.

Lemma xchg_free_send_mask (cpu : nat) (d : irq_data) (mask : cpumask) :
  xchg_free cpu (ipi_mux_send_mask d mask).
Proof. by apply all_ops_send_mask. Qed.

Lemma xchg_free_process (cpu c : nat) :
  c ≠ cpu → xchg_free cpu (ipi_mux_process c).
Proof.
  intros Hne. apply all_ops_process; try done.
  simpl. by apply bool_decide_eq_false_2.
Qed.

Lemma one_xchg_bind {A C} (cpu : nat) (p : prog A) (f : A → prog C) :
  xchg_free cpu p → (∀ a, one_xchg cpu (f a)) → one_xchg cpu (p ≫= f).
Proof.
  intros Hp Hf. induction p as [a | T o k IH]; [apply Hf|].
  destruct Hp as [Ho Hk]. simpl. rewrite Ho. intros b. apply IH, Hk.
Qed.

Lemma one_xchg_process (cpu : nat) : one_xchg cpu (ipi_mux_process cpu).
Proof.
  unfold ipi_mux_process.
  apply one_xchg_bind; [by split|]. intros clear.
  apply one_xchg_bind; [by destruct clear|]. intros _.
  apply one_xchg_bind; [by split|]. intros _.
  simpl. rewrite bool_decide_eq_true_2 by done. intros irqs.
  case_bool_decide; [done|]. by apply all_ops_dispatch.
Qed.

Lemma will_set_bind_l {A C} (nr : Z) (cpu : nat) (p : prog A) (f : A → prog C) :
  will_set nr cpu p → will_set nr cpu (p ≫= f).
Proof.
  induction p as [a | T o k IH]; [done|].
  intros [Ho|Hk]; [by left|]. right. intros b. by apply IH.
Qed.

Lemma will_set_bind_r {A C} (nr : Z) (cpu : nat) (p : prog A) (f : A → prog C) :
  (∀ a, will_set nr cpu (f a)) → will_set nr cpu (p ≫= f).
Proof.
  intros Hf. induction p as [a | T o k IH]; [apply Hf|].
  right. intros b. apply IH.
Qed.

Lemma will_set_foreach {X} (nr : Z) (cpu : nat) (l : list X)
    (body : X → prog unit) (x : X) :
  x ∈ l → will_set nr cpu (body x) → will_set nr cpu (foreach l body).
Proof.
  intros Hin Hb. induction l as [|y l IH]; [by apply elem_of_nil in Hin|].
  apply elem_of_cons in Hin as [<-|Hin].
  - by apply (will_set_bind_l nr cpu (body x) (λ _, foreach l body)).
  - apply (will_set_bind_r nr cpu (body y) (λ _, foreach l body)).
    intros _. by apply IH.
Qed.

Lemma will_set_send_mask (d : irq_data) (mask : cpumask) (cpu : nat) :
  cpu ∈ cpus_of mask → will_set (d_hwirq d) cpu (ipi_mux_send_mask d mask).
Proof.
  intros Hin. unfold ipi_mux_send_mask, for_each_cpu.
  apply will_set_bind_r. intros _. apply will_set_bind_l.
  apply (will_set_foreach _ _ _ _ cpu); [done|].
  left. simpl. by apply bool_decide_eq_true_2.
Qed.

(** An operation that is not an exchange on [cpu] takes no snapshot
    of its word and clears none of its bits. *)
Lemma exec_op_keeps {T} (o : op T) (cpu : nat) (s s' : state) (b : T)
    (e : list event) :
  is_xchg_on cpu o = false →
  exec_op o s = Some (b, s', e) →
  snapshots cpu e = [] ∧
  ∀ i, has_bit (per_cpu s cpu) i → has_bit (per_cpu s' cpu) i.
Proof.
  intros Hx. destruct o; simpl in Hx |- *; unfold_M; simpl.
  all: try (intros ?; simplify_eq; by split).
  - case_bool_decide as Hnr; simpl; [|done]. intros ?; simplify_eq.
    split; [reflexivity|]. intros i Hi. rewrite per_cpu_set_bits.
    destruct (decide (cpu0 = cpu)) as [->|Hne].
    + rewrite lookup_insert_eq. simpl.
      apply has_bit_word_set_bit; [lia|]. by left.
    + by rewrite lookup_insert_ne.
  - apply bool_decide_eq_false in Hx. intros ?; simplify_eq. split.
    + unfold snapshots. simpl. by rewrite decide_False.
    + intros i Hi. rewrite per_cpu_xchg. by rewrite decide_False by done.
  - destruct (ipi_mux_ops s); simpl; [|done]. intros ?; simplify_eq. by split.
  - destruct (ipi_mux_ops s) as [ops|]; simpl; [|done].
    destruct (ipi_mux_send ops); simpl; [|done]. intros ?; simplify_eq. by split.
Qed.

Lemma exec_op_sets {T} (o : op T) (nr : Z) (cpu : nat) (s s' : state) (b : T)
    (e : list event) :
  is_set_bit nr cpu o = true →
  exec_op o s = Some (b, s', e) →
  has_bit (per_cpu s' cpu) nr.
Proof.
  intros Hx. destruct o; simpl in Hx; try done.
  apply bool_decide_eq_true in Hx as [-> ->]. simpl. unfold_M.
  case_bool_decide as Hnr; simpl; [|done]. intros ?; simplify_eq.
  rewrite per_cpu_set_bits, lookup_insert_eq. simpl.
  apply has_bit_word_set_bit; [lia|]. by right.
Qed.

Lemma exec_op_snapshot {T} (o : op T) (cpu : nat) (s s' : state) (b : T)
    (e : list event) :
  is_xchg_on cpu o = true →
  exec_op o s = Some (b, s', e) →
  snapshots cpu e = [per_cpu s cpu].
Proof.
  intros Hx. destruct o; simpl in Hx; try done.
  apply bool_decide_eq_true in Hx as ->. simpl. unfold_M. simpl.
  intros ?; simplify_eq. unfold snapshots. simpl. by rewrite decide_True.
Qed.

(** No atomic operation clears part of a pending word. *)
Lemma exec_op_whole {T} (o : op T) (s s' : state) (b : T) (e : list event)
    (c : nat) :
  xchg_only_zero o →
  exec_op o s = Some (b, s', e) →
  (∀ i, has_bit (per_cpu s c) i → has_bit (per_cpu s' c) i) ∨
  (per_cpu s' c = 0 ∧ e = [EvXchg c (per_cpu s c) 0]).
Proof.
  intros Hz Hex. destruct (is_xchg_on c o) eqn:Hx.
  - right. destruct o; simpl in Hx, Hz; try done.
    apply bool_decide_eq_true in Hx as ->. subst new.
    revert Hex. simpl. unfold_M. simpl. intros ?; simplify_eq.
    split; [|done]. rewrite per_cpu_xchg. by rewrite decide_True.
  - left. by eapply exec_op_keeps.
Qed.

(** One atomic step of one thread keeps the invariant of the race. *)
Lemma race_inv_step {T} (nr : Z) (cpu : nat) (pool : list (prog unit))
    (s s' : state) (evs e : list event) (i : nat) (o : op T)
    (k : T → prog unit) (b : T) :
  pool !! i = Some (Step o k) →
  exec_op o s = Some (b, s', e) →
  race_inv nr cpu pool s evs →
  race_inv nr cpu (<[i := k b]> pool) s' (evs ++ e).
Proof.
  intros Hi Hex (Hfree & (p1 & Hp1 & Hdrain) & (p0 & Hp0 & Hsend)).
  assert (i < length pool)%nat as Hlen by (by eapply lookup_lt_Some).
  destruct (is_xchg_on cpu o) eqn:Hx.
  - (* the exchange: it is the drain's, and it is its first *)
    assert (i = 1%nat) as ->.
    { destruct (decide (i = 1%nat)) as [|Hne]; [done|].
      destruct (Hfree _ _ Hi Hne) as [Ho _]. congruence. }
    rewrite Hp1 in Hi. injection Hi as ->.
    pose proof (exec_op_snapshot _ _ _ _ _ _ Hx Hex) as Hsnap.
    destruct Hdrain as [[Hnone Hone]|(w & _ & [Ho _])]; [|congruence].
    simpl in Hone. rewrite Hx in Hone.
    split; [|split].
    + intros j p Hj Hne. apply (Hfree j p); [|done].
      by rewrite list_lookup_insert_ne in Hj by done.
    + exists (k b). split; [by apply list_lookup_insert_eq|].
      right. exists (per_cpu s cpu).
      by rewrite snapshots_app, Hnone, Hsnap.
    + exists p0. split; [by rewrite list_lookup_insert_ne by done|].
      destruct Hsend as [Hw|[Hb|(w & Hw & _)]]; [by left| |congruence].
      right. right. exists (per_cpu s cpu).
      by rewrite snapshots_app, Hnone, Hsnap.
  - (* any other operation *)
    destruct (exec_op_keeps _ _ _ _ _ _ Hx Hex) as [Hsnap Hmono].
    unfold race_inv. rewrite snapshots_app, Hsnap, (right_id_L [] (++)).
    split; [|split].
    + intros j p Hj Hne. destruct (decide (j = i)) as [->|Hji].
      * rewrite list_lookup_insert_eq in Hj by done. injection Hj as <-.
        destruct (Hfree _ _ Hi Hne) as [_ Hk]. apply Hk.
      * rewrite list_lookup_insert_ne in Hj by done. by apply (Hfree j p).
    + destruct (decide (i = 1%nat)) as [->|Hne].
      * exists (k b). split; [by apply list_lookup_insert_eq|].
        rewrite Hp1 in Hi. injection Hi as ->.
        destruct Hdrain as [[Hnone Hone]|(w & Hw & [_ Hk])].
        -- left. split; [done|]. simpl in Hone. rewrite Hx in Hone. apply Hone.
        -- right. exists w. split; [done|apply Hk].
      * exists p1. split; [by rewrite list_lookup_insert_ne by done|done].
    + destruct (decide (i = 0%nat)) as [->|Hne].
      * exists (k b). split; [by apply list_lookup_insert_eq|].
        rewrite Hp0 in Hi. injection Hi as ->.
        destruct Hsend as [[Ho|Hk]|[Hb|Hw]].
        -- right. left. by eapply exec_op_sets.
        -- left. apply Hk.
        -- right. left. by apply Hmono.
        -- by right; right.
      * exists p0. split; [by rewrite list_lookup_insert_ne by done|].
        destruct Hsend as [Hw|[Hb|Hw]]; [by left| |by right; right].
        right. left. by apply Hmono.
Qed.

(** Every interleaving keeps the invariant of the race. *)
Lemma race_inv_run (nr : Z) (cpu : nat) (sched : list nat)
    (pool pool' : list (prog unit)) (s s' : state) (evs0 evs : list event) :
  race_inv nr cpu pool s evs0 →
  run_pool sched pool s = Some (pool', s', evs) →
  race_inv nr cpu pool' s' (evs0 ++ evs).
Proof.
  revert pool s evs0 evs. induction sched as [|i sched IH];
    intros pool s evs0 evs Hinv.
  { simpl. unfold_M. intros [= <- <- <-]. by rewrite (right_id_L [] (++)). }
  simpl. destruct (pool !! i) as [[a|T o k]|] eqn:Hi; [by apply IH| |by apply IH].
  unfold mbind, M_bind, bindM.
  destruct (exec_op o s) as [[[b s1] e1]|] eqn:Hex; [|done].
  destruct (run_pool sched (<[i := k b]> pool) s1) as [[[pl s2] e2]|] eqn:Hrun;
    [|done].
  intros [= <- <- <-]. rewrite (assoc_L (++)).
  eapply IH; [|done]. by eapply race_inv_step.
Qed.

(** A send racing with a drain, and the drain that follows: the two
    snapshots between them hold the bit. *)
Lemma race_snapshots (d : irq_data) (mask : cpumask) (cpu : nat)
    (others : list (prog unit)) (sched : list nat)
    (s s1 s2 : state) (p0 p1 : prog unit) (rest : list (prog unit))
    (evs1 evs2 : list event) :
  cpu ∈ cpus_of mask →
  Forall (xchg_free cpu) others →
  run_pool sched (ipi_mux_send_mask d mask :: ipi_mux_process cpu :: others) s =
    Some (p0 :: p1 :: rest, s1, evs1) →
  finished p0 → finished p1 →
  exec (ipi_mux_process cpu) s1 = Some (tt, s2, evs2) →
  ∃ w1 w2,
    snapshots cpu evs1 = [w1] ∧ snapshots cpu evs2 = [w2] ∧
    (has_bit w1 (d_hwirq d) ∨ has_bit w2 (d_hwirq d)).
Proof.
  intros Hin Hoth Hrun Hf0 Hf1 Hex2.
  assert (race_inv (d_hwirq d) cpu
            (ipi_mux_send_mask d mask :: ipi_mux_process cpu :: others) s [])
    as Hinv.
  { split; [|split].
    - intros [|[|i]] p Hp Hne; simpl in Hp.
      + injection Hp as <-. apply xchg_free_send_mask.
      + done.
      + by eapply Forall_lookup_1 in Hoth.
    - exists (ipi_mux_process cpu). split; [done|]. left.
      split; [done|apply one_xchg_process].
    - exists (ipi_mux_send_mask d mask). split; [done|]. left.
      by apply will_set_send_mask. }
  apply (race_inv_run _ _ _ _ _ _ _ _ _ Hinv) in Hrun.
  destruct Hrun as (_ & (q1 & Hq1 & Hdrain) & (q0 & Hq0 & Hsend)).
  simpl in Hq0, Hq1. injection Hq0 as <-. injection Hq1 as <-.
  destruct p0 as [[]|]; [|done]. destruct p1 as [[]|]; [|done].
  destruct Hdrain as [[_ []]|(w1 & Hw1 & _)].
  assert (is_Some (ipi_mux_ops s1)) as Hops.
  { revert Hex2. unfold ipi_mux_process.
    rewrite exec_bind. unfold mbind at 1, M_bind, bindM.
    rewrite exec_call. simpl. unfold_M.
    destruct (ipi_mux_ops s1); [by eexists|done]. }
  rewrite exec_ipi_mux_process in Hex2 by done. injection Hex2 as _ <-.
  exists w1, (per_cpu s1 cpu). split; [done|]. split.
  { apply snapshots_process. }
  destruct Hsend as [[]|[Hb|(w & Hw & Hb)]]; [by right|].
  left. simpl in Hw, Hw1. congruence.
Qed.

Lemma exec_op_statics {T} (o : op T) (s s' : state) (b : T) (e : list event) :
  exec_op o s = Some (b, s', e) → ipi_mux_ops s' = ipi_mux_ops s.
Proof.
  destruct o; simpl; unfold_M; simpl.
  all: try (intros ?; by simplify_eq).
  - case_bool_decide; simpl; [|done]. intros ?; by simplify_eq.
  - destruct (ipi_mux_ops s) eqn:Hops; simpl; [|done]. intros ?; by simplify_eq.
  - destruct (ipi_mux_ops s) as [ops|] eqn:Hops; simpl; [|done].
    destruct (ipi_mux_send ops); simpl; [|done]. intros ?; by simplify_eq.
Qed.

Lemma exec_op_ready {T} (o : op T) (s : state) :
  op_ready (ipi_mux_ops s) o → is_Some (exec_op o s).
Proof.
  destruct o; simpl; unfold_M; simpl; try (by eexists).
  - intros Hnr. rewrite bool_decide_eq_true_2 by done. by eexists.
  - intros [ops ->]. by eexists.
  - intros [f Hf]. destruct (ipi_mux_ops s) as [ops|]; [|done].
    simpl in Hf. rewrite Hf. by eexists.
Qed.

(** No interleaving of threads whose operations are ready faults, and
    none changes the parent's operations. *)
Lemma run_pool_no_fault (sched : list nat) (pool : list (prog unit)) (s : state) :
  Forall (all_ops (λ T o, op_ready (ipi_mux_ops s) o)) pool →
  ∃ pool' s' evs,
    run_pool sched pool s = Some (pool', s', evs) ∧
    ipi_mux_ops s' = ipi_mux_ops s.
Proof.
  revert pool s. induction sched as [|i sched IH]; intros pool s Hall.
  { by eexists _, _, _. }
  simpl. destruct (pool !! i) as [[a|T o k]|] eqn:Hi; [by apply IH| |by apply IH].
  pose proof (Forall_lookup_1 _ _ _ _ Hall Hi) as [Ho Hk].
  destruct (exec_op_ready o s Ho) as [[[b s1] e1] Hex].
  pose proof (exec_op_statics _ _ _ _ _ Hex) as Hops.
  unfold mbind, M_bind, bindM. rewrite Hex.
  destruct (IH (<[i := k b]> pool) s1) as (pool' & s' & evs & -> & Hops').
  { rewrite Hops. apply Forall_insert; [done|apply Hk]. }
  eexists _, _, _. split; [done|congruence].
Qed.

Lemma ready_send_mask (ops : option struct_ipi_mux_ops) (d : irq_data)
    (mask : cpumask) :
  0 ≤ d_hwirq d < BITS_PER_LONG →
  is_Some (ops ≫= ipi_mux_send) →
  all_ops (λ T o, op_ready ops o) (ipi_mux_send_mask d mask).
Proof. intros Hhw Hs. by apply all_ops_send_mask. Qed.

Lemma ready_process (ops : option struct_ipi_mux_ops) (cpu : nat) :
  is_Some ops → all_ops (λ T o, op_ready ops o) (ipi_mux_process cpu).
Proof. intros Hs. by apply all_ops_process. Qed.

(** C2: a send for logical line [d_hwirq d] whose target set holds
    [cpu] races with a drain on [cpu], under any interleaving of their
    atomic operations and of those of other threads that do not drain
    [cpu] (sends, drains on other CPUs).  No interleaving faults.
    Whenever the send and the drain have both finished, the drain has
    taken exactly one snapshot, the drain that follows on [cpu] returns
    and takes exactly one, and the bit of the line is in the first or
    in the second: it is never in neither. *)
Theorem send_never_lost (d : irq_data) (mask : cpumask) (cpu : nat)
    (others : list (prog unit)) (s : state) :
  cpu ∈ cpus_of mask →
  0 ≤ d_hwirq d < IPI_MUX_NR_IRQS →
  IPI_MUX_NR_IRQS ≤ BITS_PER_LONG →
  is_Some (ipi_mux_ops s ≫= ipi_mux_send) →
  Forall (xchg_free cpu) others →
  Forall (all_ops (λ T o, op_ready (ipi_mux_ops s) o)) others →
  ∀ sched, ∃ pool' s1 evs1,
    run_pool sched (ipi_mux_send_mask d mask :: ipi_mux_process cpu :: others) s =
      Some (pool', s1, evs1) ∧
    ∀ p0 p1 rest, pool' = p0 :: p1 :: rest → finished p0 → finished p1 →
      ∃ s2 evs2 w1 w2,
        exec (ipi_mux_process cpu) s1 = Some (tt, s2, evs2) ∧
        snapshots cpu evs1 = [w1] ∧ snapshots cpu evs2 = [w2] ∧
        (has_bit w1 (d_hwirq d) ∨ has_bit w2 (d_hwirq d)).
Proof.
  intros Hin Hhw Hn Hsend Hfree Hready sched.
  assert (is_Some (ipi_mux_ops s)) as Hops.
  { destruct (ipi_mux_ops s); [by eexists|]. by destruct Hsend. }
  destruct (run_pool_no_fault sched
              (ipi_mux_send_mask d mask :: ipi_mux_process cpu :: others) s)
    as (pool' & s1 & evs1 & Hrun & Hops1).
  { constructor; [apply ready_send_mask; [lia|done]|].
    constructor; [by apply ready_process|done]. }
  exists pool', s1, evs1. split; [done|].
  intros p0 p1 rest -> Hf0 Hf1.
  eexists _, _.
  pose proof (exec_ipi_mux_process cpu s1) as Hex2.
  rewrite Hops1 in Hex2. specialize (Hex2 Hops).
  destruct (race_snapshots d mask cpu others sched s s1 _ p0 p1 rest evs1 _
              Hin Hfree Hrun Hf0 Hf1 Hex2) as (w1 & w2 & ? & ? & ?).
  by exists w1, w2.
Qed.

(** C3: every atomic operation of the send and drain paths either
    clears no bit of any pending word, or is the exchange, which leaves
    the word entirely zero and returns the whole old word as its
    snapshot; the only exchange in the code is the one with zero; and
    after a drain the word of its CPU is zero, the words of the other
    CPUs are untouched, and the drain's single snapshot is the word as
    it was. *)
Theorem clear_is_whole :
  (∀ T (o : op T) s s' b e c,
     xchg_only_zero o →
     exec_op o s = Some (b, s', e) →
     (∀ i, has_bit (per_cpu s c) i → has_bit (per_cpu s' c) i) ∨
     (per_cpu s' c = 0 ∧ e = [EvXchg c (per_cpu s c) 0])) ∧
  (∀ d mask, all_ops (@xchg_only_zero) (ipi_mux_send_mask d mask)) ∧
  (∀ cpu, all_ops (@xchg_only_zero) (ipi_mux_process cpu)) ∧
  (∀ cpu s, is_Some (ipi_mux_ops s) →
     ∃ s' evs,
       exec (ipi_mux_process cpu) s = Some (tt, s', evs) ∧
       per_cpu s' cpu = 0 ∧
       (∀ c, c ≠ cpu → per_cpu s' c = per_cpu s c) ∧
       snapshots cpu evs = [per_cpu s cpu]).
Proof.
  split; [|split; [|split]].
  - intros T o s s' b e c. apply exec_op_whole.
  - intros d mask. by apply all_ops_send_mask.
  - intros cpu. by apply all_ops_process.
  - intros cpu s Hops. eexists _, _.
    split; [by apply exec_ipi_mux_process|]. split; [|split].
    + rewrite per_cpu_xchg. by rewrite decide_True.
    + intros c Hne. rewrite per_cpu_xchg. by rewrite decide_False.
    + apply snapshots_process.
Qed.

End Interleaving.

(** ** More on creation *)

Section CreateMore.
Context `{platform}.

Lemma create_exists (env : alloc_outcome) (parent_virq : Z)
    (ops : option struct_ipi_mux_ops) (s : state) :
  is_Some (ipi_mux_domain s) →
  ipi_mux_create env parent_virq ops s = Some (0, s, []).
Proof.
  intros Hd. unfold ipi_mux_create.
  unfold mbind at 1, M_bind, bindM, get.
  destruct (decide _) as [Hrej|Hacc]; [done|]. tauto.
Qed.

Lemma created_state_statics (parent_virq : Z) (p : nat)
    (ops : option struct_ipi_mux_ops) (kf : host → host) (s : state) :
  ipi_mux_parent_virq (created_state parent_virq p ops kf s) = parent_virq ∧
  ipi_mux_domain (created_state parent_virq p ops kf s) = Some p ∧
  ipi_mux_ops (created_state parent_virq p ops kf s) = ops ∧
  ipi_mux_bits (created_state parent_virq p ops kf s) = ipi_mux_bits s.
Proof. unfold created_state. by case_bool_decide. Qed.

(** What a call of [ipi_mux_create] that returned a positive value
    went through. *)
Lemma create_succeeded (env : alloc_outcome) (parent_virq : Z)
    (ops : option struct_ipi_mux_ops) (s s' : state) (r : Z)
    (evs : list event) :
  ipi_mux_create env parent_virq ops s = Some (r, s', evs) →
  0 < r →
  ¬ create_fails env ops s ∧
  ∃ base p kf, irq_core_only kf ∧ descs_alloc env = DescsOk base ∧
    r = Z.pos base ∧ s' = created_state parent_virq p ops kf s ∧ evs = [].
Proof.
  intros Hc Hr. destruct (create_fails_dec env ops s) as [Hf|Hf].
  { destruct (create_reject env parent_virq ops s Hf) as (r0 & e0 & Hc0 & Hr0).
    rewrite Hc0 in Hc. simplify_eq. lia. }
  split; [done|].
  destruct (create_accept env parent_virq ops s Hf)
    as (base & p & kf & Hkf & Hde & Hc0).
  rewrite Hc0 in Hc. simplify_eq. by exists base, p, kf.
Qed.

(** X1: [ipi_mux_create] never faults.  It returns a positive value
    exactly when no controller exists yet, the operations are given
    and have a send function, and the host allocates both the domain
    and the block of virtual lines; the value is then the first Linux
    interrupt of that block.  Whenever the value is not positive the
    state is the one before the call. *)
Theorem create_outcome (env : alloc_outcome) (parent_virq : Z)
    (ops : option struct_ipi_mux_ops) (s : state) :
  ∃ r s' evs,
    ipi_mux_create env parent_virq ops s = Some (r, s', evs) ∧
    (0 < r ↔
       ipi_mux_domain s = None ∧ is_Some (ops ≫= ipi_mux_send) ∧
       domain_alloc_ok env = true ∧
       ∃ base, descs_alloc env = DescsOk base ∧ r = Z.pos base) ∧
    (r ≤ 0 → s' = s).
Proof.
  destruct (create_fails_dec env ops s) as [Hf|Hf].
  - destruct (create_reject env parent_virq ops s Hf) as (r & evs & Hc & Hr).
    exists r, s, evs. split; [done|]. split; [|done]. split; [lia|].
    intros (_ & _ & _ & base & _ & ->). lia.
  - destruct (create_accept env parent_virq ops s Hf)
      as (base & p & kf & Hkf & Hde & Hc).
    eexists _, _, _. split; [exact Hc|]. split; [|lia]. split; [|lia].
    intros _. unfold create_fails in Hf.
    split; [apply eq_None_not_Some; tauto|].
    split; [destruct (ops ≫= ipi_mux_send); [by eexists|]; exfalso;
            apply Hf; right; right; left; by intros [? ?]|].
    split; [destruct (domain_alloc_ok env); [done|tauto]|]. by exists base.
Qed.

(** The domain a successful creation leaves. *)
Lemma created_domain (env : alloc_outcome) (parent_virq : Z)
    (ops : option struct_ipi_mux_ops) (s s' : state) (r : Z)
    (evs : list event) :
  ipi_mux_create env parent_virq ops s = Some (r, s', evs) →
  0 < r →
  ∃ p dm,
    ipi_mux_domain s' = Some p ∧
    h_domains (kernel s) !! p = None ∧
    h_domains (kernel s') !! p = Some dm ∧
    dom_size dm = IPI_MUX_NR_IRQS ∧
    dom_ops dm = ipi_mux_domain_ops ∧
    ∀ q, q ≠ p → h_domains (kernel s') !! q = h_domains (kernel s) !! q.
Proof.
  intros Hc Hr.
  destruct (create_succeeded _ _ _ _ _ _ _ Hc Hr)
    as (Hf & base & _ & _ & _ & Hde & -> & _ & _).
  revert Hc. unfold create_fails in Hf. unfold ipi_mux_create.
  unfold mbind at 1, M_bind, bindM, get.
  destruct (decide _) as [Hrej|Hacc]; [tauto|].
  destruct (domain_alloc_ok env) eqn:Hda; [|tauto].
  rewrite Hde.
  unfold irq_domain_add_linear.
  unfold mbind at 1, M_bind, bindM.
  unfold mbind at 1, M_bind, bindM, get.
  unfold mbind at 1, M_bind, bindM, modify.
  unfold mret at 1, M_ret, retM.
  unfold mbind at 1, M_bind, bindM, get.
  unfold mbind at 1, M_bind, bindM.
  set (p := fresh (dom (h_domains (kernel s)))).
  assert (h_domains (kernel s) !! p = None) as Hfresh
    by (apply not_elem_of_dom, is_fresh).
  unfold __irq_domain_alloc_irqs.
  unfold mbind at 1, M_bind, bindM, modify.
  unfold mbind at 1, M_bind, bindM, get. simpl.
  rewrite lookup_insert_eq. simpl.
  unfold mbind at 1, M_bind, bindM.
  unfold ipi_mux_domain_alloc, irq_domain_translate_onecell. simpl.
  match goal with |- context [ipi_mux_domain_alloc_loop p ?vq 0 ?idx ?s1] =>
    destruct (ipi_mux_domain_alloc_loop_ok p vq 0 idx s1) as [g ->]
  end.
  simpl. unfold_M. simpl.
  case_bool_decide; simpl; intros ?; simplify_eq.
  all: eexists p, _; simpl.
  all: split; [reflexivity|]; split; [exact Hfresh|].
  all: split; [rewrite lookup_alter_eq, lookup_insert_eq; reflexivity|].
  all: split; [reflexivity|]; split; [reflexivity|].
  all: intros q Hq; by rewrite lookup_alter_ne, lookup_insert_ne.
Qed.

(** X2: a successful [ipi_mux_create] binds the statics to its
    arguments: the parent interrupt, the operations, and a domain that
    did not exist before, of [IPI_MUX_NR_IRQS] lines with
    [ipi_mux_domain_ops]; every other domain is as before.  It logs
    nothing and leaves the pending words and the trigger types alone.
    It installs [ipi_mux_handler] as the chained handler of the parent
    interrupt when that interrupt is a real one ([parent_virq > 0])
    and installs no chained handler otherwise.  Of the per-CPU enable
    state it touches no entry of an interrupt other than the parent,
    and none at all when there is no parent interrupt; what becomes of
    the parent's entries in chained mode is left to the hotplug core,
    which may run [ipi_mux_starting_cpu] on the CPUs that are online
    when the callbacks are registered. *)
Theorem create_binds (env : alloc_outcome) (parent_virq : Z)
    (ops : option struct_ipi_mux_ops) (s s' : state) (r : Z)
    (evs : list event) :
  ipi_mux_create env parent_virq ops s = Some (r, s', evs) →
  0 < r →
  ipi_mux_parent_virq s' = parent_virq ∧
  ipi_mux_ops s' = ops ∧
  (∃ p dm,
     ipi_mux_domain s' = Some p ∧
     h_domains (kernel s) !! p = None ∧
     h_domains (kernel s') !! p = Some dm ∧
     dom_size dm = IPI_MUX_NR_IRQS ∧
     dom_ops dm = ipi_mux_domain_ops ∧
     ∀ q, q ≠ p → h_domains (kernel s') !! q = h_domains (kernel s) !! q) ∧
  ipi_mux_bits s' = ipi_mux_bits s ∧
  evs = [] ∧
  h_chained (kernel s') =
    (if bool_decide (parent_virq > 0)
     then <[parent_virq := fn_ipi_mux_handler]> (h_chained (kernel s))
     else h_chained (kernel s)) ∧
  (∀ irq cpu, irq ≠ parent_virq →
     h_enabled (kernel s') !! (irq, cpu) = h_enabled (kernel s) !! (irq, cpu)) ∧
  (¬ parent_virq > 0 → h_enabled (kernel s') = h_enabled (kernel s)) ∧
  h_trigger (kernel s') = h_trigger (kernel s).
Proof.
  intros Hc Hr.
  pose proof (created_domain _ _ _ _ _ _ _ Hc Hr) as Hdom.
  destruct (create_succeeded _ _ _ _ _ _ _ Hc Hr)
    as (_ & base & p & kf & Hkf & _ & _ & -> & ->).
  destruct (created_state_statics parent_virq p ops kf s) as (Hpv & _ & Hops & Hb).
  destruct (Hkf (kernel s)) as (Hch & _ & Hen & Htr).
  assert (h_enabled (kernel (created_state parent_virq p ops kf s)) =
            h_enabled (kernel s)) as Hen'
    by (unfold created_state; case_bool_decide; simpl; congruence).
  split; [exact Hpv|]. split; [exact Hops|]. split; [exact Hdom|].
  split; [exact Hb|]. split; [reflexivity|].
  split; [unfold created_state; case_bool_decide; simpl; congruence|].
  split; [intros irq cpu _; by rewrite Hen'|].
  split; [intros _; exact Hen'|].
  unfold created_state; case_bool_decide; simpl; congruence.
Qed.

(** X3: once a controller exists, every further [ipi_mux_create] is
    turned down: it returns 0, logs nothing and changes nothing,
    whatever its arguments and whatever the host would allocate. *)
Theorem create_twice_rejected (env env2 : alloc_outcome) (parent_virq parent2 : Z)
    (ops ops2 : option struct_ipi_mux_ops) (s s' : state) (r : Z)
    (evs : list event) :
  ipi_mux_create env parent_virq ops s = Some (r, s', evs) →
  0 < r →
  ipi_mux_create env2 parent2 ops2 s' = Some (0, s', []).
Proof.
  intros Hc Hr.
  destruct (create_succeeded _ _ _ _ _ _ _ Hc Hr)
    as (_ & base & p & kf & _ & _ & _ & -> & _).
  apply create_exists.
  destruct (created_state_statics parent_virq p ops kf s) as (_ & -> & _).
  by eexists.
Qed.

Lemma lookup_revmap_fold_out (hirqs : gmap Z irq_data) (base : Z) (l : list Z)
    (r0 : gmap Z Z) (v : Z) :
  (∀ i, i ∈ l → ∃ data, hirqs !! (base + i) = Some data ∧ d_hwirq data = i) →
  v ∉ l →
  foldr (λ irq r,
           match hirqs !! irq with
           | Some data => <[d_hwirq data := irq]> r
           | None => r
           end) r0 ((λ i, base + i) <$> l) !! v = r0 !! v.
Proof.
  induction l as [|i0 l IH]; intros Hl Hout; [done|].
  rewrite fmap_cons. simpl.
  destruct (Hl i0) as (data & -> & Hhw); [by left|]. rewrite Hhw.
  apply not_elem_of_cons in Hout as [Hne Hout].
  rewrite lookup_insert_ne by done. apply IH; [|done].
  intros i Hi. apply Hl. by right.
Qed.

(** X4: [ipi_mux_domain_alloc] never faults and changes nothing but
    the table of allocated interrupts.  With a specifier that has no
    cell it returns [-EINVAL] and changes nothing at all.  Otherwise it
    returns 0, and when the block [virq .. virq + nr_irqs - 1] does not
    wrap it configures line [virq + i] of the block, if allocated, with
    hardware number "first cell + i", the chip [ipi_mux_chip], the
    per-CPU marking and the per-CPU flow handler; it allocates no line
    and leaves every line outside the block as it was. *)
Theorem domain_alloc_lines (d : nat) (virq nr_irqs : Z) (arg : irq_fwspec)
    (s : state) :
  ∃ ret g,
    ipi_mux_domain_alloc d virq nr_irqs arg s =
      Some (ret, set_kernel (set_irqs g) s, []) ∧
    (param_count arg < 1 → ret = - EINVAL ∧ set_kernel (set_irqs g) s = s) ∧
    (1 ≤ param_count arg → ret = 0 ∧
       (0 ≤ virq → virq + nr_irqs ≤ 2 ^ 32 →
          (∀ i, 0 ≤ i < nr_irqs →
             g (h_irqs (kernel s)) !! (virq + i) =
               configure_line ((default 0 (param arg !! 0%nat) + i)
                                 mod 2 ^ BITS_PER_LONG)
                 <$> h_irqs (kernel s) !! (virq + i)) ∧
          (∀ k, ¬ (virq ≤ k < virq + nr_irqs) →
             g (h_irqs (kernel s)) !! k = h_irqs (kernel s) !! k))).
Proof.
  destruct (decide (param_count arg < 1)) as [Hpc|Hpc].
  { exists (- EINVAL), id. unfold ipi_mux_domain_alloc, irq_domain_translate_onecell.
    rewrite bool_decide_eq_true_2 by done.
    rewrite bool_decide_eq_true_2 by done.
    assert (set_kernel (set_irqs id) s = s) as Hid by (by destruct s as [? ? ? ? []]).
    rewrite Hid. split; [done|]. split; [done|lia]. }
  unfold ipi_mux_domain_alloc, irq_domain_translate_onecell.
  rewrite bool_decide_eq_false_2 by done.
  rewrite bool_decide_eq_false_2 by (intros Hne; by apply Hne).
  set (hw0 := default 0 (param arg !! 0%nat)).
  destruct (ipi_mux_domain_alloc_loop_ok d virq hw0 (seqZ 0 nr_irqs) s)
    as [g Hloop].
  exists 0, g. split; [done|]. split; [lia|]. intros _. split; [done|].
  intros Hv Hwrap.
  assert (∀ i, i ∈ seqZ 0 nr_irqs → (virq + i) mod 2 ^ 32 = virq + i) as Hmod.
  { intros i Hi. apply elem_of_seqZ in Hi. apply Z.mod_small. lia. }
  destruct (ipi_mux_domain_alloc_loop_lines d virq hw0 (seqZ 0 nr_irqs) s)
    as (s' & Hloop' & _ & Hin & Hout).
  { apply NoDup_fmap_2_strong; [|apply NoDup_seqZ].
    intros x y Hx Hy. rewrite (Hmod x Hx), (Hmod y Hy). lia. }
  rewrite Hloop in Hloop'. injection Hloop' as <-. simpl in Hin, Hout.
  split.
  - intros i Hi. assert (i ∈ seqZ 0 nr_irqs) as Hi' by (apply elem_of_seqZ; lia).
    specialize (Hin i Hi'). by rewrite (Hmod i Hi') in Hin.
  - intros k Hk. apply Hout. intros i Hi Heq. rewrite (Hmod i Hi) in Heq.
    apply elem_of_seqZ in Hi. lia.
Qed.

(** The lines and the mapping a successful creation leaves. *)
Lemma created_lines (env : alloc_outcome) (parent_virq : Z)
    (ops : option struct_ipi_mux_ops) (s s' : state) (r : Z)
    (evs : list event) :
  ipi_mux_create env parent_virq ops s = Some (r, s', evs) →
  0 < r →
  r + IPI_MUX_NR_IRQS ≤ 2 ^ 32 →
  IPI_MUX_NR_IRQS ≤ BITS_PER_LONG →
  (∀ v, irq_resolve_mapping s' v =
          if bool_decide (0 ≤ v < IPI_MUX_NR_IRQS) then Some (r + v) else None) ∧
  (∀ v, 0 ≤ v < IPI_MUX_NR_IRQS →
     h_irqs (kernel s') !! (r + v) =
       Some {| d_hwirq := v; d_chip := Some ipi_mux_chip;
               d_percpu_devid := true;
               d_handler := handle_percpu_devid_irq |}).
Proof.
  intros Hc Hr Hwrap Hbits.
  destruct (create_succeeded _ _ _ _ _ _ _ Hc Hr)
    as (Hf & base & _ & _ & _ & Hde & -> & _ & _).
  revert Hc. unfold create_fails in Hf. unfold ipi_mux_create.
  unfold mbind at 1, M_bind, bindM, get.
  destruct (decide _) as [Hrej|Hacc]; [tauto|].
  destruct (domain_alloc_ok env) eqn:Hda; [|tauto].
  rewrite Hde.
  unfold irq_domain_add_linear.
  unfold mbind at 1, M_bind, bindM.
  unfold mbind at 1, M_bind, bindM, get.
  unfold mbind at 1, M_bind, bindM, modify.
  unfold mret at 1, M_ret, retM.
  unfold mbind at 1, M_bind, bindM, get.
  unfold mbind at 1, M_bind, bindM.
  set (p := fresh (dom (h_domains (kernel s)))).
  unfold __irq_domain_alloc_irqs.
  unfold mbind at 1, M_bind, bindM, modify.
  unfold mbind at 1, M_bind, bindM, get. simpl.
  rewrite lookup_insert_eq. simpl.
  unfold mbind at 1, M_bind, bindM.
  unfold ipi_mux_domain_alloc, irq_domain_translate_onecell. simpl.
  assert (2 ^ 32 = 4294967296) as H32 by reflexivity.
  assert (IPI_MUX_NR_IRQS < 2 ^ BITS_PER_LONG) as Hpow.
  { pose proof (Z.pow_gt_lin_r 2 BITS_PER_LONG). lia. }
  assert (∀ i, i ∈ seqZ 0 IPI_MUX_NR_IRQS →
            (Z.pos base + i) mod 2 ^ 32 = Z.pos base + i ∧
            (0 + i) mod 2 ^ BITS_PER_LONG = i) as Hmod.
  { intros i Hi. apply elem_of_seqZ in Hi.
    split; apply Z.mod_small; lia. }
  match goal with |- context [ipi_mux_domain_alloc_loop p ?vq 0 ?idx ?s1] =>
    destruct (ipi_mux_domain_alloc_loop_lines p vq 0 idx s1)
      as (s2 & -> & Hd2 & Hin2 & _);
    [|destruct (ipi_mux_domain_alloc_loop_ok p vq 0 idx s1) as [g Hg]]
  end.
  { apply NoDup_fmap_2_strong; [|apply NoDup_seqZ].
    intros x y Hx Hy. destruct (Hmod x Hx) as [-> _].
    destruct (Hmod y Hy) as [-> _]. lia. }
  simpl in Hd2.
  assert (∀ i, i ∈ seqZ 0 IPI_MUX_NR_IRQS →
            h_irqs (kernel s2) !! (Z.pos base + i) =
              Some (configure_line i no_irq_data)) as Hlines.
  { intros i Hi. specialize (Hin2 i Hi). destruct (Hmod i Hi) as [Hm1 Hm2].
    rewrite Hm1, Hm2 in Hin2. simpl in Hin2.
    rewrite lookup_foldr_insert_lines in Hin2
      by (apply list_elem_of_fmap; by exists i).
    exact Hin2. }
  assert (∀ i, i ∈ seqZ 0 IPI_MUX_NR_IRQS →
            ∃ data, h_irqs (kernel s2) !! (Z.pos base + i) = Some data ∧
                    d_hwirq data = i) as Hdata.
  { intros i Hi. eexists. split; [by apply Hlines|done]. }
  simpl. unfold_M. simpl.
  case_bool_decide; simpl; intros ?; simplify_eq.
  all: unfold irq_resolve_mapping; simpl; rewrite Hd2, lookup_alter_eq,
    lookup_insert_eq; simpl.
  all: split;
    [intros v; case_bool_decide as Hv;
       [apply lookup_revmap_fold; [done|apply elem_of_seqZ; lia]
       |rewrite lookup_revmap_fold_out; [done|done|];
        rewrite elem_of_seqZ; lia]
    |intros v Hv; apply Hlines, elem_of_seqZ; lia].
Qed.

(** X5: a successful [ipi_mux_create] maps the logical lines one to
    one and contiguously onto the block of virtual lines it was given:
    line [v] below [IPI_MUX_NR_IRQS] onto Linux interrupt [r + v],
    where [r] is the value returned, and no index outside that range
    onto anything.  Each virtual line of the block is a per-CPU line of
    the chip [ipi_mux_chip] with the per-CPU flow handler. *)
Theorem create_lines (env : alloc_outcome) (parent_virq : Z)
    (ops : option struct_ipi_mux_ops) (s s' : state) (r : Z)
    (evs : list event) :
  ipi_mux_create env parent_virq ops s = Some (r, s', evs) →
  0 < r →
  r + IPI_MUX_NR_IRQS ≤ 2 ^ 32 →
  IPI_MUX_NR_IRQS ≤ BITS_PER_LONG →
  (∀ v, irq_resolve_mapping s' v =
          if bool_decide (0 ≤ v < IPI_MUX_NR_IRQS) then Some (r + v) else None) ∧
  (∀ v, 0 ≤ v < IPI_MUX_NR_IRQS →
     h_irqs (kernel s') !! (r + v) =
       Some {| d_hwirq := v; d_chip := Some ipi_mux_chip;
               d_percpu_devid := true;
               d_handler := handle_percpu_devid_irq |}).
Proof. apply created_lines. Qed.

End CreateMore.

(** ** More on the send and drain paths *)

Section PathsMore.
Context `{platform}.

Lemma exec_statics {A} (p : prog A) (s s' : state) (a : A) (e : list event) :
  exec p s = Some (a, s', e) → ipi_mux_ops s' = ipi_mux_ops s.
Proof.
  revert s e. induction p as [a0 | T o k IH]; intros s e.
  { simpl. unfold_M. intros ?; by simplify_eq. }
  simpl. unfold mbind, M_bind, bindM.
  destruct (exec_op o s) as [[[b s1] e1]|] eqn:Hop; [|done].
  destruct (exec (k b) s1) as [[[a1 s2] e2]|] eqn:Hk; [|done].
  intros ?; simplify_eq.
  rewrite (IH _ _ _ Hk). by eapply exec_op_statics.
Qed.

(** X6: [ipi_mux_process] runs to its end exactly when the parent's
    operations are bound; with [ipi_mux_ops] still NULL (no successful
    [ipi_mux_create] yet) it faults on reading [ipi_mux_clear],
    whatever is pending.  [ipi_mux_send_mask] runs to its end exactly
    when the operations are bound with a send function and either no
    CPU is targeted or the line's bit lies inside the pending word. *)
Theorem paths_run_iff (cpu : nat) (d : irq_data) (mask : cpumask) (s : state) :
  (is_Some (exec (ipi_mux_process cpu) s) ↔ is_Some (ipi_mux_ops s)) ∧
  (is_Some (exec (ipi_mux_send_mask d mask) s) ↔
     is_Some (ipi_mux_ops s ≫= ipi_mux_send) ∧
     (cpus_of mask = [] ∨ 0 ≤ d_hwirq d < BITS_PER_LONG)).
Proof.
  split; split.
  - intros [[[[] s'] e] Hex]. revert Hex. unfold ipi_mux_process.
    rewrite exec_bind. unfold mbind at 1, M_bind, bindM.
    rewrite exec_call. simpl. unfold_M.
    destruct (ipi_mux_ops s); [by eexists|done].
  - intros Hops. rewrite exec_ipi_mux_process by done. by eexists.
  - intros [[[[] s'] e] Hex]. revert Hex. unfold ipi_mux_send_mask, for_each_cpu.
    rewrite exec_bind. unfold mbind at 1, M_bind, bindM.
    rewrite exec_call. simpl exec_op. unfold emit.
    rewrite exec_bind. unfold mbind at 1, M_bind, bindM.
    destruct (exec (foreach (cpus_of mask) _) s) as [[[[] s1] e1]|] eqn:Hloop;
      [|done].
    pose proof (exec_statics _ _ _ _ _ Hloop) as Hops.
    rewrite exec_bind. unfold mbind at 1, M_bind, bindM.
    rewrite exec_call. simpl exec_op. unfold emit.
    rewrite exec_call. simpl exec_op. unfold_M. rewrite Hops.
    intros Hex. split.
    + destruct (ipi_mux_ops s) as [ops|]; [|done]. simpl.
      destruct (ipi_mux_send ops); [by eexists|done].
    + destruct (cpus_of mask) as [|c l]; [by left|]. right.
      revert Hloop. rewrite exec_foreach_cons.
      unfold mbind at 1, M_bind, bindM. rewrite exec_call. simpl.
      case_bool_decide; [done|]. by unfold_M.
  - intros [[f Hf] Hhw]. destruct (ipi_mux_ops s) as [ops|] eqn:Hops; [|done].
    simpl in Hf. erewrite exec_ipi_mux_send_mask; [by eexists|done..].
Qed.

(** X7: the complete course of one [ipi_mux_process]: the parent's
    clear function is called once if there is one and not at all
    otherwise, then comes the full barrier, then the exchange that
    returns the whole pending word of the CPU and leaves zero, and only
    then, for each set bit below [IPI_MUX_NR_IRQS] in ascending order,
    the call of the irq core, followed by a warning exactly when it
    found no mapping.  Nothing but the pending word of the CPU
    changes. *)
Theorem process_order (cpu : nat) (s : state) :
  is_Some (ipi_mux_ops s) →
  exec (ipi_mux_process cpu) s =
    Some (tt, set_bits <[cpu := 0]> s,
          (match ipi_mux_ops s ≫= ipi_mux_clear with
           | Some f => [EvIpiMuxClear f (ipi_mux_parent_virq s)]
           | None => []
           end)
            ++ [EvBarrier mb_full; EvXchg cpu (per_cpu s cpu) 0]
            ++ (bits_of (per_cpu s cpu) IPI_MUX_NR_IRQS ≫= λ hwirq,
                  match irq_resolve_mapping s hwirq with
                  | Some virq => [EvDispatch cpu hwirq (Some virq)]
                  | None =>
                      [EvDispatch cpu hwirq None;
                       EvWarnRatelimited "can't find mapping for hwirq %lu" hwirq]
                  end)).
Proof. apply exec_ipi_mux_process. Qed.

(** X8: a drain that directly follows a drain on the same CPU is
    spurious: it takes the empty snapshot, hands nothing to the irq
    core, warns about nothing and leaves the state as the first drain
    left it. *)
Theorem drain_twice (cpu : nat) (s : state) :
  is_Some (ipi_mux_ops s) →
  ∃ s1 e1 e2,
    exec (ipi_mux_process cpu) s = Some (tt, s1, e1) ∧
    exec (ipi_mux_process cpu) s1 = Some (tt, s1, e2) ∧
    snapshots cpu e2 = [0] ∧
    (∀ c, dispatched c e2 = []) ∧
    warned e2 = [].
Proof.
  intros Hops.
  eexists (set_bits <[cpu := 0]> s), _,
    (clear_events (set_bits <[cpu := 0]> s) ++ [EvBarrier mb_full; EvXchg cpu 0 0]).
  split; [by apply exec_ipi_mux_process|].
  assert (per_cpu (set_bits <[cpu := 0]> s) cpu = 0) as Hz.
  { rewrite per_cpu_xchg. by rewrite decide_True. }
  split.
  { rewrite exec_ipi_mux_process by done. rewrite Hz, bits_of_zero.
    do 2 f_equal. destruct s as [v dm o b k]. unfold set_bits. simpl.
    by rewrite insert_insert_eq. }
  split; [|split].
  - rewrite snapshots_app, snapshots_clear_events.
    unfold snapshots. simpl. by rewrite decide_True.
  - intros c. by rewrite dispatched_app, dispatched_clear_events.
  - by rewrite warned_app, warned_clear_events.
Qed.

Lemma exec_ipi_mux_handler (cpu : nat) (s : state) :
  is_Some (ipi_mux_ops s) →
  exec (ipi_mux_handler cpu) s =
    Some (tt, set_bits <[cpu := 0]> s,
          [EvChainedEnter]
            ++ (clear_events s
                  ++ [EvBarrier mb_full; EvXchg cpu (per_cpu s cpu) 0]
                  ++ (bits_of (per_cpu s cpu) IPI_MUX_NR_IRQS ≫= dispatch_events s cpu))
            ++ [EvChainedExit]).
Proof.
  intros Hops. unfold ipi_mux_handler.
  rewrite exec_bind. unfold mbind at 1, M_bind, bindM.
  rewrite exec_call. simpl exec_op. unfold emit.
  rewrite exec_bind. unfold mbind at 1, M_bind, bindM.
  rewrite exec_ipi_mux_process by done.
  rewrite exec_call. simpl. by unfold_M.
Qed.

(** X9: [ipi_mux_handler], the chained handler of the parent
    interrupt, is one drain between [chained_irq_enter] and
    [chained_irq_exit]: the exit is reached also when the drain finds
    nothing pending, and every dispatch lies between the two. *)
Theorem handler_brackets (cpu : nat) (s : state) :
  is_Some (ipi_mux_ops s) →
  ∃ s' evs,
    exec (ipi_mux_process cpu) s = Some (tt, s', evs) ∧
    exec (ipi_mux_handler cpu) s =
      Some (tt, s', [EvChainedEnter] ++ evs ++ [EvChainedExit]) ∧
    dispatched cpu evs = bits_of (per_cpu s cpu) IPI_MUX_NR_IRQS.
Proof.
  intros Hops. eexists _, _. split; [by apply exec_ipi_mux_process|].
  split; [by apply exec_ipi_mux_handler|].
  by rewrite dispatched_process, decide_True.
Qed.

End PathsMore.

(** ** Several sends *)

Section SendsMore.
Context `{platform}.

Lemma has_bit_after_send (hw : Z) (mask : cpumask) (s : state) (c : nat) (i : Z) :
  0 ≤ hw →
  has_bit (per_cpu (set_bits (set_bit_all hw (cpus_of mask)) s) c) i ↔
    has_bit (per_cpu s c) i ∨ (i = hw ∧ c ∈ cpus_of mask).
Proof.
  intros Hhw. rewrite per_cpu_set_bits, lookup_set_bit_all.
  destruct (decide (c ∈ cpus_of mask)) as [Hin|Hin].
  - rewrite has_bit_word_set_bit by done. unfold per_cpu. tauto.
  - unfold per_cpu. tauto.
Qed.

Lemma sent_cons (d : irq_data) (m : cpumask) (sends : list (irq_data * cpumask))
    (i : Z) (c : nat) :
  sent ((d, m) :: sends) i c ↔ (i = d_hwirq d ∧ c ∈ cpus_of m) ∨ sent sends i c.
Proof.
  unfold sent. split.
  - intros (d' & m' & Hin & Hi & Hc). apply elem_of_cons in Hin as [Heq|Hin].
    + injection Heq as -> ->. left. by split.
    + right. by exists d', m'.
  - intros [[-> Hc]|(d' & m' & Hin & Hi & Hc)].
    + exists d, m. split; [by left|done].
    + exists d', m'. split; [by right|done].
Qed.

(** What the readers see of the events of one send followed by more
    events. *)
Lemma readers_send_events (hw : Z) (l : list nat) (f : fnptr) (v : Z)
    (m : cpumask) (e : list event) :
  let evs := (EvBarrier mb_before_atomic
                :: ((λ c, EvSetBit c hw) <$> l)
                ++ [EvBarrier mb_after_atomic; EvIpiMuxSend f v m]) ++ e in
  backend_sends evs = (f, v, m) :: backend_sends e ∧
  (∀ c, dispatched c evs = dispatched c e) ∧
  (∀ c, snapshots c evs = snapshots c e).
Proof.
  simpl. unfold backend_sends, dispatched, snapshots.
  induction l as [|c0 l IH]; [done|]. simpl. exact IH.
Qed.

(** The complete behaviour of a sequence of sends. *)
Lemma exec_send_all (sends : list (irq_data * cpumask)) (s : state)
    (ops : struct_ipi_mux_ops) (f : fnptr) :
  Forall (λ dm, 0 ≤ d_hwirq dm.1 < IPI_MUX_NR_IRQS) sends →
  IPI_MUX_NR_IRQS ≤ BITS_PER_LONG →
  ipi_mux_ops s = Some ops →
  ipi_mux_send ops = Some f →
  ∃ g e,
    exec (send_all sends) s = Some (tt, set_bits g s, e) ∧
    (∀ c i, has_bit (per_cpu (set_bits g s) c) i ↔
              has_bit (per_cpu s c) i ∨ sent sends i c) ∧
    backend_sends e = (λ dm, (f, ipi_mux_parent_virq s, dm.2)) <$> sends ∧
    (∀ c, dispatched c e = []) ∧ (∀ c, snapshots c e = []).
Proof.
  intros Hall Hn Hops Hsend. revert s Hops.
  induction Hall as [|[d m] sends Hd Hall IH]; intros s Hops.
  { exists id, []. split; [by destruct s|]. split; [|done].
    intros c i. assert (set_bits id s = s) as -> by (by destruct s).
    split; [by left|]. intros [?|(d & m & Hin & _)]; [done|].
    by apply elem_of_nil in Hin. }
  simpl in Hd.
  destruct (IH (set_bits (set_bit_all (d_hwirq d) (cpus_of m)) s))
    as (g & e & Hex & Hbits & Hbs & Hdis & Hsn); [done|].
  eexists (λ b, g (set_bit_all (d_hwirq d) (cpus_of m) b)), _. split.
  { unfold send_all. rewrite exec_foreach_cons.
    unfold mbind at 1, M_bind, bindM. simpl fst. simpl snd.
    erewrite exec_ipi_mux_send_mask; [|right; lia|done..].
    unfold send_all in Hex. by rewrite Hex. }
  change (set_bits (λ b, g (set_bit_all (d_hwirq d) (cpus_of m) b)) s)
    with (set_bits g (set_bits (set_bit_all (d_hwirq d) (cpus_of m)) s)).
  split; [|split; [|split]].
  - intros c i. rewrite Hbits, has_bit_after_send by lia. rewrite sent_cons. tauto.
  - rewrite (proj1 (readers_send_events _ _ _ _ _ _)). by rewrite Hbs.
  - intros c. rewrite (proj1 (proj2 (readers_send_events _ _ _ _ _ _))). apply Hdis.
  - intros c. rewrite (proj2 (proj2 (readers_send_events _ _ _ _ _ _))). apply Hsn.
Qed.

(** X10: sends accumulate.  After any sequence of calls of
    [ipi_mux_send_mask] for logical lines, a bit is pending on a CPU
    exactly when it was pending before or one of the calls sent that
    line to that CPU: no send clears or overwrites what another has
    set.  The parent's send function is called once per call, in
    order, with the parent interrupt and that call's mask, and nothing
    is handed to the irq core. *)
Theorem sends_accumulate (sends : list (irq_data * cpumask)) (s : state)
    (ops : struct_ipi_mux_ops) (f : fnptr) :
  Forall (λ dm, 0 ≤ d_hwirq dm.1 < IPI_MUX_NR_IRQS) sends →
  IPI_MUX_NR_IRQS ≤ BITS_PER_LONG →
  ipi_mux_ops s = Some ops →
  ipi_mux_send ops = Some f →
  ∃ s' e,
    exec (send_all sends) s = Some (tt, s', e) ∧
    (∀ c i, has_bit (per_cpu s' c) i ↔ has_bit (per_cpu s c) i ∨ sent sends i c) ∧
    backend_sends e = (λ dm, (f, ipi_mux_parent_virq s, dm.2)) <$> sends ∧
    (∀ c, dispatched c e = []).
Proof.
  intros Hall Hn Hops Hsend.
  destruct (exec_send_all sends s ops f Hall Hn Hops Hsend)
    as (g & e & Hex & Hbits & Hbs & Hdis & _).
  by exists (set_bits g s), e.
Qed.

(** X11: sends coalesce.  After any sequence of sends, one drain on a
    CPU hands to the irq core exactly the logical lines that were
    pending on that CPU before or were sent to it, each of them once,
    however many times it was sent, and in ascending order. *)
Theorem sends_coalesce (sends : list (irq_data * cpumask)) (s : state)
    (ops : struct_ipi_mux_ops) (f : fnptr) (cpu : nat) :
  Forall (λ dm, 0 ≤ d_hwirq dm.1 < IPI_MUX_NR_IRQS) sends →
  IPI_MUX_NR_IRQS ≤ BITS_PER_LONG →
  ipi_mux_ops s = Some ops →
  ipi_mux_send ops = Some f →
  ∃ s1 e1 s2 e2,
    exec (send_all sends) s = Some (tt, s1, e1) ∧
    exec (ipi_mux_process cpu) s1 = Some (tt, s2, e2) ∧
    (∀ hw, hw ∈ dispatched cpu e2 ↔
           0 ≤ hw < IPI_MUX_NR_IRQS ∧
           (has_bit (per_cpu s cpu) hw ∨ sent sends hw cpu)) ∧
    NoDup (dispatched cpu e2) ∧
    StronglySorted Z.lt (dispatched cpu e2).
Proof.
  intros Hall Hn Hops Hsend.
  destruct (exec_send_all sends s ops f Hall Hn Hops Hsend)
    as (g & e & Hex & Hbits & _).
  eexists _, _, _, _. split; [exact Hex|].
  split; [apply exec_ipi_mux_process; simpl; rewrite Hops; by eexists|].
  rewrite dispatched_process, decide_True by done.
  split; [|split].
  - intros hw. rewrite elem_of_bits_of, Hbits. tauto.
  - apply NoDup_bits_of.
  - apply StronglySorted_bits_of.
Qed.

(** X12: a line cannot be masked.  The mask and unmask members of
    [ipi_mux_chip] are [ipi_mux_dummy], which does nothing: a send
    that follows a call of either behaves as the send alone, and the
    next drain on a CPU of the mask still hands the line to the irq
    core. *)
Theorem mask_does_not_suppress (fn : chip_fn) (d : irq_data) (mask : cpumask)
    (s : state) (ops : struct_ipi_mux_ops) (f : fnptr) (cpu : nat) :
  irq_mask ipi_mux_chip = Some fn ∨ irq_unmask ipi_mux_chip = Some fn →
  0 ≤ d_hwirq d < IPI_MUX_NR_IRQS →
  IPI_MUX_NR_IRQS ≤ BITS_PER_LONG →
  ipi_mux_ops s = Some ops →
  ipi_mux_send ops = Some f →
  cpu ∈ cpus_of mask →
  exec (call_chip_fn fn d mask) s = Some (tt, s, []) ∧
  ∃ s1 e1 s2 e2,
    exec (call_chip_fn fn d mask;; ipi_mux_send_mask d mask) s = Some (tt, s1, e1) ∧
    exec (ipi_mux_send_mask d mask) s = Some (tt, s1, e1) ∧
    exec (ipi_mux_process cpu) s1 = Some (tt, s2, e2) ∧
    d_hwirq d ∈ dispatched cpu e2.
Proof.
  intros Hfn Hhw Hn Hops Hsend Hcpu.
  assert (fn = fn_ipi_mux_dummy) as ->.
  { destruct Hfn as [Hfn|Hfn]; simpl in Hfn; by simplify_eq. }
  split; [reflexivity|]. eexists _, _, _, _.
  split; [|split; [|split]].
  - change (call_chip_fn fn_ipi_mux_dummy d mask;; ipi_mux_send_mask d mask)
      with (ipi_mux_send_mask d mask).
    eapply exec_ipi_mux_send_mask; [right; lia|done..].
  - eapply exec_ipi_mux_send_mask; [right; lia|done..].
  - apply exec_ipi_mux_process. simpl. rewrite Hops. by eexists.
  - rewrite dispatched_process, decide_True by done.
    apply elem_of_bits_of. split; [done|].
    apply has_bit_after_send; [lia|]. by right.
Qed.

End SendsMore.

(** ** Pools of sends and drains *)

Section PoolMore.
Context `{platform}.

Lemma within_bind {A C} (J : nat → Z → Prop) (p : prog A) (f : A → prog C) :
  within J p → (∀ a, within J (f a)) → within J (p ≫= f).
Proof.
  intros Hp Hf. induction p as [a | T o k IH]; [apply Hf|].
  destruct o; simpl in Hp |- *.
  all: try (intros b; apply IH, Hp).
  - destruct Hp as [HJ Hk]. split; [done|]. intros b. apply IH, Hk.
  - destruct Hp as [HJ Hk]. split; [done|]. intros b Hb. by apply IH, Hk.
  - destruct Hp as [HJ Hk]. split; [done|]. intros b. apply IH, Hk.
Qed.

Lemma within_foreach {X} (J : nat → Z → Prop) (l : list X) (body : X → prog unit) :
  (∀ x, x ∈ l → within J (body x)) → within J (foreach l body).
Proof.
  induction l as [|x l IH]; intros Hb; [done|].
  apply (within_bind J (body x) (λ _, foreach l body)).
  - apply Hb. by left.
  - intros _. apply IH. intros y Hy. apply Hb. by right.
Qed.

Lemma within_send_mask (J : nat → Z → Prop) (d : irq_data) (mask : cpumask) :
  (∀ c, c ∈ cpus_of mask → J c (d_hwirq d)) →
  within J (ipi_mux_send_mask d mask).
Proof.
  intros HJ. unfold ipi_mux_send_mask, for_each_cpu.
  apply within_bind; [done|]. intros _.
  apply within_bind.
  { apply within_foreach. intros c Hc. simpl. split; [by apply HJ|done]. }
  intros _. apply within_bind; [done|]. intros _. done.
Qed.

Lemma within_process (J : nat → Z → Prop) (cpu : nat) :
  within J (ipi_mux_process cpu).
Proof.
  unfold ipi_mux_process.
  apply within_bind; [done|]. intros clear.
  apply within_bind; [by destruct clear|]. intros _.
  apply within_bind; [done|]. intros _.
  simpl. split; [done|]. intros irqs Hirqs.
  case_bool_decide; [done|].
  apply within_foreach. intros hw Hhw. apply elem_of_bits_of in Hhw as [_ Hhw].
  simpl. split; [by apply Hirqs|]. intros err. by case_bool_decide.
Qed.

Lemma held_app (s : state) (evs e : list event) (c : nat) (i : Z) :
  held s (evs ++ e) c i ↔
    held s e c i ∨ ∃ w, w ∈ snapshots c evs ∧ has_bit w i.
Proof.
  unfold held. rewrite snapshots_app. split.
  - intros [?|(w & Hin & Hw)]; [by left; left|].
    apply elem_of_app in Hin as [Hin|Hin]; [right|left; right]; by exists w.
  - intros [[?|(w & Hin & Hw)]|(w & Hin & Hw)]; [by left| |].
    + right. exists w. split; [|done]. apply elem_of_app. by right.
    + right. exists w. split; [|done]. apply elem_of_app. by left.
Qed.

(** One atomic step: a bit is pending afterwards or in the snapshot
    the step took exactly when it was pending before or the step set
    it. *)
Lemma exec_op_conserves {T} (o : op T) (s s' : state) (b : T) (e : list event)
    (c : nat) (i : Z) :
  xchg_only_zero o →
  exec_op o s = Some (b, s', e) →
  held s' e c i ↔ has_bit (per_cpu s c) i ∨ EvSetBit c i ∈ e.
Proof.
  assert (∀ ev, snapshots c [ev] = [] → (∀ c i, ev ≠ EvSetBit c i) →
            held s [ev] c i ↔ has_bit (per_cpu s c) i ∨ EvSetBit c i ∈ [ev])
    as Hone.
  { intros ev Hsn Hne. unfold held. rewrite Hsn. split.
    - intros [?|(w & Hin & _)]; [by left|by apply elem_of_nil in Hin].
    - intros [?|Hin]; [by left|]. apply list_elem_of_singleton in Hin.
      by destruct (Hne c i). }
  assert (held s [] c i ↔ has_bit (per_cpu s c) i ∨ EvSetBit c i ∈ []) as Hnil.
  { unfold held. split.
    - intros [?|(w & Hin & _)]; [by left|by apply elem_of_nil in Hin].
    - intros [?|Hin]; [by left|by apply elem_of_nil in Hin]. }
  intros Hz. destruct o; simpl in Hz |- *; unfold_M; simpl.
  all: try (intros ?; simplify_eq; by apply Hone).
  - case_bool_decide as Hnr; simpl; [|done]. intros ?; simplify_eq.
    unfold held. simpl. rewrite per_cpu_set_bits.
    rewrite list_elem_of_singleton.
    destruct (decide (c = cpu)) as [->|Hne].
    + rewrite lookup_insert_eq. simpl.
      rewrite has_bit_word_set_bit by lia. unfold per_cpu. split.
      * intros [[?|Heq]|(w & Hin & _)]; [by left|right; by subst|].
        by apply elem_of_nil in Hin.
      * intros [?|Heq]; [by left; left|]. left. right. congruence.
    + rewrite lookup_insert_ne by done. unfold per_cpu. split.
      * intros [?|(w & Hin & _)]; [by left|by apply elem_of_nil in Hin].
      * intros [?|Heq]; [by left|congruence].
  - subst new. intros ?; simplify_eq. unfold held, snapshots. simpl.
    rewrite per_cpu_xchg. rewrite list_elem_of_singleton.
    destruct (decide (c = cpu)) as [->|Hne].
    + rewrite decide_True by done. simpl. split.
      * intros [Hb|(w & Hin & Hw)].
        -- unfold has_bit in Hb. by rewrite Z.testbit_0_l in Hb.
        -- apply list_elem_of_singleton in Hin as ->. by left.
      * intros [Hb|?]; [|done]. right. eexists. split; [|done].
        by apply list_elem_of_singleton.
    + rewrite decide_False by done. simpl. split.
      * intros [?|(w & Hin & _)]; [by left|by apply elem_of_nil in Hin].
      * intros [?|?]; [by left|done].
  - destruct (ipi_mux_ops s); simpl; [|done]. intros ?; simplify_eq. apply Hnil.
  - destruct (ipi_mux_ops s) as [ops|]; simpl; [|done].
    destruct (ipi_mux_send ops); simpl; [|done]. intros ?; simplify_eq.
    by apply Hone.
Qed.

Lemma within_xchg_only_zero {T A} (J : nat → Z → Prop) (o : op T) (k : T → prog A) :
  within J (Step o k) → xchg_only_zero o.
Proof. destruct o; simpl; try done. by intros [? _]. Qed.

(** One atomic step of one thread keeps the invariant of the pool. *)
Lemma pool_inv_step {T} (J : nat → Z → Prop) (s0 : state) (pool : list (prog unit))
    (s s' : state) (evs e : list event) (i : nat) (o : op T)
    (k : T → prog unit) (b : T) :
  pool !! i = Some (Step o k) →
  exec_op o s = Some (b, s', e) →
  pool_inv J s0 pool s evs →
  pool_inv J s0 (<[i := k b]> pool) s' (evs ++ e).
Proof.
  intros Hi Hex (Hall & Hbits & Hset & Hdis & Hcons).
  pose proof (Forall_lookup_1 _ _ _ _ Hall Hi) as Hw.
  assert (∀ c j, held s' (evs ++ e) c j ↔
                 has_bit (per_cpu s0 c) j ∨ EvSetBit c j ∈ evs ++ e) as Hcons'.
  { intros c j. rewrite held_app, elem_of_app.
    rewrite (exec_op_conserves o s s' b e c j (within_xchg_only_zero J o k Hw) Hex).
    specialize (Hcons c j). unfold held in Hcons. tauto. }
  assert (within J (k b) ∧
          (∀ c j, has_bit (per_cpu s' c) j → J c j) ∧
          (∀ c j, EvSetBit c j ∈ e → J c j) ∧
          (∀ c hw v, EvDispatch c hw v ∈ e → J c hw)) as (Hk & Hbits' & Hset' & Hdis').
  { revert Hex. clear Hcons' Hi. destruct o; simpl in Hw |- *; unfold_M; simpl.
    all: try (intros ?; simplify_eq; split; [apply Hw|]; split; [done|];
              split; [intros ??|intros ???];
              rewrite list_elem_of_singleton; intros ?; by simplify_eq).
    - case_bool_decide as Hnr; simpl; [|done]. intros ?; simplify_eq.
      destruct Hw as [HJ Hk]. split; [apply Hk|]. split; [|split].
      + intros c j. rewrite per_cpu_set_bits.
        destruct (decide (c = cpu)) as [->|Hne].
        * rewrite lookup_insert_eq. simpl. rewrite has_bit_word_set_bit by lia.
          intros [?| ->]; [by apply Hbits|done].
        * rewrite lookup_insert_ne by done. apply Hbits.
      + intros c j. rewrite list_elem_of_singleton. intros ?; by simplify_eq.
      + intros c hw v. rewrite list_elem_of_singleton. intros ?; by simplify_eq.
    - intros ?; simplify_eq. destruct Hw as [-> Hk].
      split; [apply Hk; intros j; apply Hbits|]. split; [|split].
      + intros c j. rewrite per_cpu_xchg. destruct (decide (c = cpu)) as [->|Hne].
        * unfold has_bit. by rewrite Z.testbit_0_l.
        * apply Hbits.
      + intros c j. rewrite list_elem_of_singleton. intros ?; by simplify_eq.
      + intros c hw v. rewrite list_elem_of_singleton. intros ?; by simplify_eq.
    - destruct (ipi_mux_ops s); simpl; [|done]. intros ?; simplify_eq.
      split; [apply Hw|]. split; [done|].
      split; [intros ??|intros ???]; intros Hin; by apply elem_of_nil in Hin.
    - destruct (ipi_mux_ops s) as [ops|]; simpl; [|done].
      destruct (ipi_mux_send ops); simpl; [|done]. intros ?; simplify_eq.
      split; [apply Hw|]. split; [done|].
      split; [intros ??|intros ???];
        rewrite list_elem_of_singleton; intros ?; by simplify_eq.
    - intros ?; simplify_eq. destruct Hw as [HJ Hk].
      split; [apply Hk|]. split; [done|]. split.
      + intros c j. rewrite list_elem_of_singleton. intros ?; by simplify_eq.
      + intros c hw v. rewrite list_elem_of_singleton. intros ?; by simplify_eq. }
  split; [by apply Forall_insert|]. split; [done|].
  split; [|split; [|done]].
  - intros c j [?|?]%elem_of_app; [by apply Hset|by apply Hset'].
  - intros c hw v [?|?]%elem_of_app; [by eapply Hdis|by eapply Hdis'].
Qed.

(** One atomic step of one thread keeps what the sends still owe. *)
Lemma sends_inv_step {T} (sends : list (irq_data * cpumask))
    (pool : list (prog unit)) (s s' : state) (evs e : list event) (i : nat)
    (o : op T) (k : T → prog unit) (b : T) :
  pool !! i = Some (Step o k) →
  exec_op o s = Some (b, s', e) →
  sends_inv sends pool evs →
  sends_inv sends (<[i := k b]> pool) (evs ++ e).
Proof.
  intros Hi Hex Hinv j d m c Hj Hc.
  destruct (Hinv j d m c Hj Hc) as [(p & Hp & Hwill)|Hin];
    [|right; apply elem_of_app; by left].
  destruct (decide (j = i)) as [->|Hne].
  - rewrite Hi in Hp. injection Hp as <-. destruct Hwill as [Hset|Hk].
    + right. apply elem_of_app. right.
      destruct o; simpl in Hset; try done.
      apply bool_decide_eq_true in Hset as [-> ->].
      revert Hex. simpl. unfold_M. case_bool_decide; simpl; [|done].
      intros ?; simplify_eq. by apply list_elem_of_singleton.
    + left. exists (k b). split; [|apply Hk].
      apply list_lookup_insert_eq. by eapply lookup_lt_Some.
  - left. exists p. split; [|done]. by rewrite list_lookup_insert_ne.
Qed.

Lemma pool_run (J : nat → Z → Prop) (sends : list (irq_data * cpumask))
    (s0 : state) (sched : list nat) (pool pool' : list (prog unit))
    (s s' : state) (evs0 evs : list event) :
  pool_inv J s0 pool s evs0 →
  sends_inv sends pool evs0 →
  run_pool sched pool s = Some (pool', s', evs) →
  pool_inv J s0 pool' s' (evs0 ++ evs) ∧ sends_inv sends pool' (evs0 ++ evs).
Proof.
  revert pool s evs0 evs. induction sched as [|i sched IH];
    intros pool s evs0 evs Hinv Hsinv.
  { simpl. unfold_M. intros ?; simplify_eq. by rewrite (right_id_L [] (++)). }
  simpl. destruct (pool !! i) as [[a|T o k]|] eqn:Hi; [by apply IH| |by apply IH].
  unfold mbind, M_bind, bindM.
  destruct (exec_op o s) as [[[b s1] e1]|] eqn:Hex; [|done].
  destruct (run_pool sched (<[i := k b]> pool) s1) as [[[pl s2] e2]|] eqn:Hrun;
    [|done].
  intros ?; simplify_eq. rewrite (assoc_L (++)).
  eapply IH; [| |done]; [by eapply pool_inv_step|by eapply sends_inv_step].
Qed.

Lemma mux_pool_ready (sends : list (irq_data * cpumask)) (drains : list nat)
    (ops : option struct_ipi_mux_ops) :
  Forall (λ dm, 0 ≤ d_hwirq dm.1 < IPI_MUX_NR_IRQS) sends →
  IPI_MUX_NR_IRQS ≤ BITS_PER_LONG →
  is_Some (ops ≫= ipi_mux_send) →
  Forall (all_ops (λ T o, op_ready ops o)) (mux_pool sends drains).
Proof.
  intros Hall Hn Hs. apply Forall_app. split.
  - apply Forall_fmap. eapply Forall_impl; [exact Hall|].
    intros [d m] Hd. simpl in *. apply ready_send_mask; [lia|done].
  - apply Forall_fmap, Forall_forall. intros c _. apply ready_process.
    destruct ops; [by eexists|by destruct Hs].
Qed.

Lemma mux_pool_within (J : nat → Z → Prop) (sends : list (irq_data * cpumask))
    (drains : list nat) :
  (∀ c i, sent sends i c → J c i) →
  Forall (within J) (mux_pool sends drains).
Proof.
  intros HJ. apply Forall_app. split.
  - apply Forall_fmap, Forall_forall. intros [d m] Hin. simpl.
    apply within_send_mask. intros c Hc. apply HJ. by exists d, m.
  - apply Forall_fmap, Forall_forall. intros c _. apply within_process.
Qed.

Lemma mux_pool_sends_inv (sends : list (irq_data * cpumask)) (drains : list nat) :
  sends_inv sends (mux_pool sends drains) [].
Proof.
  intros j d m c Hj Hc. left. exists (ipi_mux_send_mask d m). split.
  - unfold mux_pool. rewrite lookup_app_l.
    + by rewrite list_lookup_fmap, Hj.
    + rewrite length_fmap. by eapply lookup_lt_Some.
  - by apply will_set_send_mask.
Qed.

(** The run of a pool of sends and drains, with all that the
    invariants say at its end. *)
Lemma mux_pool_run (J : nat → Z → Prop) (sends : list (irq_data * cpumask))
    (drains sched : list nat) (s : state) :
  Forall (λ dm, 0 ≤ d_hwirq dm.1 < IPI_MUX_NR_IRQS) sends →
  IPI_MUX_NR_IRQS ≤ BITS_PER_LONG →
  is_Some (ipi_mux_ops s ≫= ipi_mux_send) →
  (∀ c i, has_bit (per_cpu s c) i → J c i) →
  (∀ c i, sent sends i c → J c i) →
  ∃ pool' s' evs,
    run_pool sched (mux_pool sends drains) s = Some (pool', s', evs) ∧
    pool_inv J s pool' s' evs ∧ sends_inv sends pool' evs.
Proof.
  intros Hall Hn Hs HJ0 HJ1.
  destruct (run_pool_no_fault sched (mux_pool sends drains) s)
    as (pool' & s' & evs & Hrun & _); [by apply mux_pool_ready|].
  exists pool', s', evs. split; [done|].
  apply (pool_run J sends s sched (mux_pool sends drains) pool' s s' [] evs);
    [|apply mux_pool_sends_inv|done].
  split; [by apply mux_pool_within|]. split; [done|].
  split; [intros ?? Hin; by apply elem_of_nil in Hin|].
  split; [intros ??? Hin; by apply elem_of_nil in Hin|].
  intros c i. unfold held. simpl. split.
  - intros [?|(w & Hin & _)]; [by left|by apply elem_of_nil in Hin].
  - intros [?|Hin]; [by left|by apply elem_of_nil in Hin].
Qed.

(** X13: conservation of pending bits under concurrency.  Any number
    of sends for logical lines and any number of drains run as threads
    under any interleaving of their atomic operations.  The run does
    not fault.  At its end a bit that is pending on a CPU or in a
    snapshot taken on that CPU was pending there at the start or was
    sent to it; a bit pending at the start is still pending or in a
    snapshot; and once all threads have finished, so is every bit that
    was sent: no bit is invented and none is lost. *)
Theorem pool_conserves (sends : list (irq_data * cpumask))
    (drains sched : list nat) (s : state) :
  Forall (λ dm, 0 ≤ d_hwirq dm.1 < IPI_MUX_NR_IRQS) sends →
  IPI_MUX_NR_IRQS ≤ BITS_PER_LONG →
  is_Some (ipi_mux_ops s ≫= ipi_mux_send) →
  ∃ pool' s' evs,
    run_pool sched (mux_pool sends drains) s = Some (pool', s', evs) ∧
    (∀ c i, held s' evs c i → has_bit (per_cpu s c) i ∨ sent sends i c) ∧
    (∀ c i, has_bit (per_cpu s c) i → held s' evs c i) ∧
    (Forall finished pool' → ∀ c i, sent sends i c → held s' evs c i).
Proof.
  intros Hall Hn Hs.
  destruct (mux_pool_run (λ c i, has_bit (per_cpu s c) i ∨ sent sends i c)
              sends drains sched s Hall Hn Hs)
    as (pool' & s' & evs & Hrun & (_ & _ & Hset & _ & Hcons) & Hsinv);
    [by left|by right|].
  exists pool', s', evs. split; [done|]. split; [|split].
  - intros c i Hh. apply Hcons in Hh as [?|Hin]; [by left|by apply Hset].
  - intros c i Hb. apply Hcons. by left.
  - intros Hfin c i (d & m & Hin & <- & Hc). apply Hcons. right.
    apply list_elem_of_lookup in Hin as [j Hj].
    destruct (Hsinv j d m c Hj Hc) as [(p & Hp & Hwill)|?]; [|done].
    pose proof (Forall_lookup_1 _ _ _ _ Hfin Hp) as Hf.
    by destruct p.
Qed.

(** X14: what concurrent drains dispatch.  With every pending bit a
    logical line at the start, under any interleaving of sends for
    logical lines and drains, every line handed to the irq core on a
    CPU is a logical line that was pending on that CPU at the start or
    was sent to it, and at the end every pending bit is still a
    logical line. *)
Theorem pool_dispatch_sound (sends : list (irq_data * cpumask))
    (drains sched : list nat) (s : state) :
  Forall (λ dm, 0 ≤ d_hwirq dm.1 < IPI_MUX_NR_IRQS) sends →
  IPI_MUX_NR_IRQS ≤ BITS_PER_LONG →
  is_Some (ipi_mux_ops s ≫= ipi_mux_send) →
  pending_bounded s →
  ∃ pool' s' evs,
    run_pool sched (mux_pool sends drains) s = Some (pool', s', evs) ∧
    (∀ c hw v, EvDispatch c hw v ∈ evs →
       0 ≤ hw < IPI_MUX_NR_IRQS ∧ (has_bit (per_cpu s c) hw ∨ sent sends hw c)) ∧
    pending_bounded s'.
Proof.
  intros Hall Hn Hs Hb.
  destruct (mux_pool_run
              (λ c i, 0 ≤ i < IPI_MUX_NR_IRQS ∧
                      (has_bit (per_cpu s c) i ∨ sent sends i c))
              sends drains sched s Hall Hn Hs)
    as (pool' & s' & evs & Hrun & (_ & Hbits & _ & Hdis & _) & _).
  { intros c i Hi. split; [by eapply Hb|by left]. }
  { intros c i Hsent. split; [|by right].
    destruct Hsent as (d & m & Hin & <- & _).
    by apply (proj1 (Forall_forall _ _) Hall (d, m)). }
  exists pool', s', evs. split; [done|]. split.
  - intros c hw v Hin. by eapply Hdis.
  - intros c i Hi. by destruct (Hbits c i Hi).
Qed.

End PoolMore.

(** ** Hotplug and the pending words *)

Section HotplugMore.
Context `{platform}.

(** X15: pending lines survive a CPU going offline and coming back.
    [ipi_mux_dying_cpu] and [ipi_mux_starting_cpu] change nothing but
    the enable state of the parent interrupt on the CPU they run on:
    neither clears a pending word.  After the two, the parent interrupt
    is enabled on the CPU with its configured trigger type, all else
    is as before, and the next drain on the CPU hands to the irq core
    the lines that were pending before the CPU went offline. *)
Theorem pending_survives_hotplug (cpu : nat) (s : state) :
  is_Some (ipi_mux_ops s) →
  ∃ s1 s2 s3 e,
    ipi_mux_dying_cpu cpu s = Some (0, s1, []) ∧
    ipi_mux_starting_cpu cpu s1 = Some (0, s2, []) ∧
    exec (ipi_mux_process cpu) s2 = Some (tt, s3, e) ∧
    h_enabled (kernel s1) = delete (ipi_mux_parent_virq s, cpu) (h_enabled (kernel s)) ∧
    h_enabled (kernel s2) =
      <[(ipi_mux_parent_virq s, cpu) :=
          default IRQ_TYPE_NONE (h_trigger (kernel s) !! ipi_mux_parent_virq s)]>
        (h_enabled (kernel s)) ∧
    set_kernel (set_enabled (λ _, h_enabled (kernel s))) s1 = s ∧
    set_kernel (set_enabled (λ _, h_enabled (kernel s))) s2 = s ∧
    dispatched cpu e = bits_of (per_cpu s cpu) IPI_MUX_NR_IRQS.
Proof.
  intros Hops. eexists _, _, _, _.
  split; [reflexivity|]. split; [reflexivity|].
  split; [by apply exec_ipi_mux_process|].
  split; [reflexivity|]. split; [|split; [|split]].
  - simpl. apply insert_delete_eq.
  - by destruct s as [? ? ? ? []].
  - by destruct s as [? ? ? ? []].
  - rewrite dispatched_process, decide_True by done. reflexivity.
Qed.

End HotplugMore.

(** ** From creation to delivery *)

Section LifecycleMore.
Context `{platform}.

(** X16: from creation to delivery.  After a successful
    [ipi_mux_create] that returned [r], the Linux interrupt [r + v] of
    a logical line [v] carries the chip whose send function is
    [ipi_mux_send_mask].  Sending through it to a mask calls the
    parent's send function once with the parent interrupt and the
    mask, and the chained handler, run afterwards on a CPU of the mask
    with nothing else pending there, hands line [v] to the irq core
    once, as Linux interrupt [r + v], and warns about nothing. *)
Theorem create_send_handle (env : alloc_outcome) (parent_virq : Z)
    (ops : option struct_ipi_mux_ops) (s s' : state) (r : Z)
    (evs : list event) (v : Z) (mask : cpumask) (cpu : nat) :
  ipi_mux_create env parent_virq ops s = Some (r, s', evs) →
  0 < r →
  r + IPI_MUX_NR_IRQS ≤ 2 ^ 32 →
  IPI_MUX_NR_IRQS ≤ BITS_PER_LONG →
  0 ≤ v < IPI_MUX_NR_IRQS →
  cpu ∈ cpus_of mask →
  per_cpu s cpu = 0 →
  ∃ data chip fn f s1 e1 s2 e2,
    h_irqs (kernel s') !! (r + v) = Some data ∧
    d_chip data = Some chip ∧
    ipi_send_mask chip = Some fn ∧
    ops ≫= ipi_mux_send = Some f ∧
    exec (call_chip_fn fn data mask) s' = Some (tt, s1, e1) ∧
    backend_sends e1 = [(f, parent_virq, mask)] ∧
    exec (ipi_mux_handler cpu) s1 = Some (tt, s2, e2) ∧
    dispatched cpu e2 = [v] ∧
    EvDispatch cpu v (Some (r + v)) ∈ e2 ∧
    warned e2 = [].
Proof.
  intros Hc Hr Hwrap Hn Hv Hcpu Hzero.
  destruct (created_lines _ _ _ _ _ _ _ Hc Hr Hwrap Hn) as [Hmap Hline].
  destruct (create_succeeded _ _ _ _ _ _ _ Hc Hr)
    as (Hf & base & p & kf & _ & _ & _ & Hs' & _).
  destruct (created_state_statics parent_virq p ops kf s)
    as (Hpv & _ & Hops & Hbits).
  rewrite <-Hs' in Hpv, Hops, Hbits.
  assert (∃ ops0 f, ops = Some ops0 ∧ ipi_mux_send ops0 = Some f)
    as (ops0 & f & -> & Hsend).
  { unfold create_fails in Hf. destruct ops as [ops0|].
    - destruct (ipi_mux_send ops0) as [f|] eqn:Hsend; [by exists ops0, f|].
      exfalso. apply Hf. right. right. left. simpl. rewrite Hsend.
      by intros [? ?].
    - exfalso. apply Hf. right. left. by intros [? ?]. }
  set (data := {| d_hwirq := v; d_chip := Some ipi_mux_chip;
                  d_percpu_devid := true;
                  d_handler := handle_percpu_devid_irq |}).
  set (s1 := set_bits (set_bit_all v (cpus_of mask)) s').
  assert (per_cpu s1 cpu = word_set_bit v 0) as Hw.
  { unfold s1. rewrite per_cpu_set_bits, lookup_set_bit_all.
    rewrite decide_True by done. f_equal.
    change (per_cpu s' cpu = 0). unfold per_cpu. by rewrite Hbits. }
  assert (bits_of (per_cpu s1 cpu) IPI_MUX_NR_IRQS = [v]) as Hb.
  { rewrite Hw. unfold bits_of.
    assert (∀ l, NoDup l → v ∈ l →
              filter (λ i, Z.testbit (word_set_bit v 0) i = true) l = [v]) as Hfil.
    { intros l Hnd. induction Hnd as [|x l Hx Hnd IH]; intros Hin.
      { by apply elem_of_nil in Hin. }
      assert (∀ i, Z.testbit (word_set_bit v 0) i = true ↔ i = v) as Hiff.
      { intros i. pose proof (has_bit_word_set_bit v 0 i (proj1 Hv)) as Hh.
        unfold has_bit in Hh. rewrite Z.testbit_0_l in Hh.
        split; [intros Ht; apply Hh in Ht as [?|?]; done|].
        intros ->. apply Hh. by right. }
      destruct (decide (x = v)) as [->|Hne].
      - rewrite filter_cons_True by (by apply Hiff). f_equal.
        apply elem_of_nil_inv. intros z Hz.
        apply list_elem_of_filter in Hz as [Hz1 Hz2].
        apply Hiff in Hz1 as ->. done.
      - rewrite filter_cons_False by (by rewrite Hiff).
        apply IH. apply elem_of_cons in Hin as [?|?]; [congruence|done]. }
    apply Hfil; [apply NoDup_seqZ|]. apply elem_of_seqZ. lia. }
  assert (irq_resolve_mapping s1 v = Some (r + v)) as Hres.
  { change (irq_resolve_mapping s' v = Some (r + v)).
    rewrite Hmap. by rewrite bool_decide_eq_true_2. }
  exists data, ipi_mux_chip, fn_ipi_mux_send_mask, f, s1. eexists _, _, _.
  split; [by apply Hline|]. split; [done|]. split; [done|]. split; [done|].
  split.
  { simpl. apply (exec_ipi_mux_send_mask data mask s' ops0 f); [right|done..].
    simpl. lia. }
  split.
  { pose proof (proj1 (readers_send_events v (cpus_of mask) f
                         (ipi_mux_parent_virq s') mask [])) as Hbs.
    rewrite (right_id_L [] (++)) in Hbs. rewrite <-Hpv. exact Hbs. }
  split; [apply exec_ipi_mux_handler; change (is_Some (ipi_mux_ops s'));
          rewrite Hops; by eexists|].
  rewrite Hb. split; [|split].
  - rewrite !dispatched_app, dispatched_clear_events, dispatched_dispatch_events.
    by rewrite decide_True.
  - rewrite !elem_of_app. right. left. right. right.
    rewrite bind_cons. apply elem_of_app. left.
    unfold dispatch_events. rewrite Hres. by apply list_elem_of_singleton.
  - rewrite !warned_app, warned_clear_events, warned_dispatch_events.
    by rewrite filter_cons_False by (by rewrite Hres).
Qed.

End LifecycleMore.

(** ** The SBI clock driver: rounding a rate *)

Section ClkMore.
Context `{platform}.
Variable do_div : Z → Z → Z.
Hypothesis do_div_ok : do_div_divides do_div.

Lemma to_long_small (x : Z) :
  1 ≤ BITS_PER_LONG → 0 ≤ x < 2 ^ (BITS_PER_LONG - 1) → to_long x = x.
Proof.
  intros Hb Hx. unfold to_long.
  assert (2 ^ BITS_PER_LONG = 2 * 2 ^ (BITS_PER_LONG - 1)) as Hp.
  { rewrite <-Z.pow_succ_r by lia. f_equal. lia. }
  rewrite Z.mod_small by lia. by rewrite bool_decide_eq_true_2 by lia.
Qed.

Lemma long_fits_u64 (x : Z) :
  1 ≤ BITS_PER_LONG ≤ 64 → 0 ≤ x < 2 ^ (BITS_PER_LONG - 1) → 0 ≤ x < 2 ^ 64.
Proof.
  intros Hb Hx. split; [lia|].
  assert (2 ^ (BITS_PER_LONG - 1) ≤ 2 ^ 63) by (apply Z.pow_le_mono_r; lia).
  lia.
Qed.

(** The value computed between the bounds. *)
Lemma round_rate_between (clk : sbi_clk) (rate : Z) :
  range_clock clk →
  range_min_rate (sbi_clk_rates clk) < rate < range_max_rate (sbi_clk_rates clk) →
  sbi_clk_round_rate do_div clk rate =
    range_min_rate (sbi_clk_rates clk)
    + (rate - range_min_rate (sbi_clk_rates clk)
         + range_step_size (sbi_clk_rates clk) - 1)
        / range_step_size (sbi_clk_rates clk)
      * range_step_size (sbi_clk_rates clk).
Proof.
  intros (Hty & Hb & Hmin & Hstep & Hmax) Hr. unfold sbi_clk_round_rate.
  rewrite Hty. simpl.
  rewrite bool_decide_eq_false_2 by lia.
  rewrite bool_decide_eq_false_2 by lia.
  set (fmin := range_min_rate (sbi_clk_rates clk)) in *.
  set (fmax := range_max_rate (sbi_clk_rates clk)) in *.
  set (step := range_step_size (sbi_clk_rates clk)) in *.
  assert (2 ^ (BITS_PER_LONG - 1) ≤ 2 ^ 63) as Hp
    by (apply Z.pow_le_mono_r; lia).
  assert (2 ^ 63 < 2 ^ 64) as Hp' by done.
  unfold u64. rewrite (Z.mod_small (rate - fmin)) by lia.
  rewrite (Z.mod_small (step - 1)) by lia.
  rewrite (Z.mod_small (rate - fmin + (step - 1))) by lia.
  rewrite do_div_ok by lia.
  replace (rate - fmin + (step - 1)) with (rate - fmin + step - 1) by lia.
  set (q := (rate - fmin + step - 1) / step).
  assert (rate - fmin ≤ q * step < rate - fmin + step) as Hq.
  { pose proof (Z.div_mod (rate - fmin + step - 1) step ltac:(lia)) as Hdm.
    pose proof (Z.mod_pos_bound (rate - fmin + step - 1) step ltac:(lia)) as Hm.
    fold q in Hdm. lia. }
  rewrite (Z.mod_small (q * step)) by lia.
  rewrite (Z.mod_small (q * step + fmin)) by lia.
  rewrite to_long_small by lia. lia.
Qed.

(** X17: between the bounds of a range clock [sbi_clk_round_rate]
    rounds up to the grid of steps that starts at the minimum: the
    result is the least rate not below the request that is a whole
    number of steps above the minimum. *)
Theorem round_rate_rounds_up (clk : sbi_clk) (rate : Z) :
  range_clock clk →
  range_min_rate (sbi_clk_rates clk) < rate < range_max_rate (sbi_clk_rates clk) →
  rate ≤ sbi_clk_round_rate do_div clk rate
    < rate + range_step_size (sbi_clk_rates clk) ∧
  (sbi_clk_round_rate do_div clk rate - range_min_rate (sbi_clk_rates clk))
    mod range_step_size (sbi_clk_rates clk) = 0.
Proof.
  intros Hclk Hr. rewrite (round_rate_between clk rate Hclk Hr).
  destruct Hclk as (_ & _ & _ & Hstep & _).
  set (fmin := range_min_rate (sbi_clk_rates clk)) in *.
  set (step := range_step_size (sbi_clk_rates clk)) in *.
  set (q := (rate - fmin + step - 1) / step).
  split.
  - pose proof (Z.div_mod (rate - fmin + step - 1) step ltac:(lia)) as Hdm.
    pose proof (Z.mod_pos_bound (rate - fmin + step - 1) step ltac:(lia)) as Hm.
    fold q in Hdm. lia.
  - replace (fmin + q * step - fmin) with (q * step) by lia.
    apply Z.mod_mul. lia.
Qed.

(** What [sbi_clk_round_rate] returns for every request. *)
Lemma round_rate_cases (clk : sbi_clk) (rate : Z) :
  range_clock clk →
  0 ≤ rate →
  let fmin := range_min_rate (sbi_clk_rates clk) in
  let fmax := range_max_rate (sbi_clk_rates clk) in
  let step := range_step_size (sbi_clk_rates clk) in
  sbi_clk_round_rate do_div clk rate =
    if bool_decide (rate ≤ fmin) then fmin
    else if bool_decide (rate >= fmax) then fmax
    else fmin + (rate - fmin + step - 1) / step * step.
Proof.
  intros Hclk Hr fmin fmax step.
  case_bool_decide as H1; [|case_bool_decide as H2].
  - destruct Hclk as (Hty & Hb & Hmin & Hstep & Hmax).
    unfold sbi_clk_round_rate. rewrite Hty. simpl.
    rewrite bool_decide_eq_true_2 by done.
    apply to_long_small; [lia|]. fold fmin fmax step in Hmin, Hstep, Hmax. lia.
  - destruct Hclk as (Hty & Hb & Hmin & Hstep & Hmax).
    unfold sbi_clk_round_rate. rewrite Hty. simpl.
    rewrite bool_decide_eq_false_2 by done.
    rewrite bool_decide_eq_true_2 by done.
    apply to_long_small; [lia|]. fold fmin fmax step in Hmin, Hstep, Hmax. lia.
  - apply round_rate_between; [done|]. fold fmin fmax. lia.
Qed.

(** X18: when the result stays inside the range.  The rounded rate of
    a range clock lies between the minimum and the maximum for every
    request exactly when the maximum is on the grid of steps or one
    above a grid point; otherwise the request one below the maximum is
    rounded to a rate above the maximum. *)
Theorem round_rate_within_iff (clk : sbi_clk) :
  range_clock clk →
  ((∀ rate, 0 ≤ rate →
      range_min_rate (sbi_clk_rates clk) ≤ sbi_clk_round_rate do_div clk rate
        ≤ range_max_rate (sbi_clk_rates clk)) ↔
   (range_max_rate (sbi_clk_rates clk) - range_min_rate (sbi_clk_rates clk))
     mod range_step_size (sbi_clk_rates clk) ≤ 1) ∧
  (1 < (range_max_rate (sbi_clk_rates clk) - range_min_rate (sbi_clk_rates clk))
         mod range_step_size (sbi_clk_rates clk) →
   range_max_rate (sbi_clk_rates clk)
     < sbi_clk_round_rate do_div clk (range_max_rate (sbi_clk_rates clk) - 1)).
Proof.
  intros Hclk. pose proof Hclk as (Hty & Hb & Hmin & Hstep & Hmax).
  set (fmin := range_min_rate (sbi_clk_rates clk)) in *.
  set (fmax := range_max_rate (sbi_clk_rates clk)) in *.
  set (step := range_step_size (sbi_clk_rates clk)) in *.
  pose proof (Z.div_mod (fmax - fmin) step ltac:(lia)) as HD.
  pose proof (Z.mod_pos_bound (fmax - fmin) step ltac:(lia)) as HDm.
  set (Q := (fmax - fmin) / step) in *. set (m := (fmax - fmin) mod step) in *.
  assert (0 ≤ Q) as HQ by (apply Z.div_pos; lia).
  assert (0 ≤ step * Q) as HQs by nia.
  assert (1 < m → fmax < sbi_clk_round_rate do_div clk (fmax - 1)) as Hover.
  { intros Hm.
    rewrite (round_rate_cases clk (fmax - 1) Hclk) by lia.
    fold fmin fmax step.
    rewrite bool_decide_eq_false_2 by lia.
    rewrite bool_decide_eq_false_2 by lia.
    replace (fmax - 1 - fmin + step - 1) with ((Q + 1) * step + (m - 2)) by lia.
    rewrite Z.div_add_l by lia.
    rewrite (Z.div_small (m - 2) step) by lia. nia. }
  split; [|exact Hover]. split.
  - intros Hall. destruct (decide (m ≤ 1)) as [|Hm]; [done|]. exfalso.
    specialize (Hall (fmax - 1) ltac:(lia)).
    specialize (Hover ltac:(lia)). lia.
  - intros Hm rate Hr. rewrite (round_rate_cases clk rate Hclk Hr).
    fold fmin fmax step.
    case_bool_decide as H1; [lia|]. case_bool_decide as H2; [lia|].
    pose proof (Z.div_mod (rate - fmin + step - 1) step ltac:(lia)) as Hdm.
    pose proof (Z.mod_pos_bound (rate - fmin + step - 1) step ltac:(lia)) as Hmm.
    set (q := (rate - fmin + step - 1) / step) in *.
    assert (q ≤ Q); [|nia].
    apply Z.lt_succ_r. apply (Z.mul_lt_mono_pos_r step); [lia|]. nia.
Qed.

(** X19: with the maximum on the grid of steps (or one above a grid
    point) [sbi_clk_round_rate] of a range clock is monotone, and
    rounding a rounded rate changes nothing. *)
Theorem round_rate_stable (clk : sbi_clk) (rate rate' : Z) :
  range_clock clk →
  (range_max_rate (sbi_clk_rates clk) - range_min_rate (sbi_clk_rates clk))
    mod range_step_size (sbi_clk_rates clk) ≤ 1 →
  0 ≤ rate ≤ rate' →
  sbi_clk_round_rate do_div clk rate ≤ sbi_clk_round_rate do_div clk rate' ∧
  sbi_clk_round_rate do_div clk (sbi_clk_round_rate do_div clk rate) =
    sbi_clk_round_rate do_div clk rate.
Proof.
  intros Hclk Hm Hr. pose proof Hclk as (Hty & Hb & Hmin & Hstep & Hmax).
  assert (∀ x, 0 ≤ x →
            range_min_rate (sbi_clk_rates clk) ≤ sbi_clk_round_rate do_div clk x
              ≤ range_max_rate (sbi_clk_rates clk)) as Hin.
  { intros x Hx. rewrite (round_rate_cases clk x Hclk Hx).
    set (fmin := range_min_rate (sbi_clk_rates clk)) in *.
    set (fmax := range_max_rate (sbi_clk_rates clk)) in *.
    set (step := range_step_size (sbi_clk_rates clk)) in *.
    pose proof (Z.div_mod (fmax - fmin) step ltac:(lia)) as HD.
    pose proof (Z.mod_pos_bound (fmax - fmin) step ltac:(lia)) as HDm.
    case_bool_decide as H1; [lia|]. case_bool_decide as H2; [lia|].
    pose proof (Z.div_mod (x - fmin + step - 1) step ltac:(lia)) as Hdm.
    pose proof (Z.mod_pos_bound (x - fmin + step - 1) step ltac:(lia)) as Hmm.
    set (q := (x - fmin + step - 1) / step) in *.
    set (Q := (fmax - fmin) / step) in *.
    assert (q ≤ Q); [|nia].
    apply Z.lt_succ_r. apply (Z.mul_lt_mono_pos_r step); [lia|]. nia. }
  pose proof (Hin rate ltac:(lia)) as Hin1.
  pose proof (Hin rate' ltac:(lia)) as Hin2.
  revert Hin1 Hin2.
  set (fmin := range_min_rate (sbi_clk_rates clk)) in *.
  set (fmax := range_max_rate (sbi_clk_rates clk)) in *.
  set (step := range_step_size (sbi_clk_rates clk)) in *.
  intros Hin1 Hin2. split.
  - pose proof (round_rate_cases clk rate Hclk ltac:(lia)) as Hc1.
    pose proof (round_rate_cases clk rate' Hclk ltac:(lia)) as Hc2.
    cbv zeta in Hc1, Hc2. fold fmin fmax step in Hc1, Hc2.
    assert ((rate - fmin + step - 1) / step * step
              ≤ (rate' - fmin + step - 1) / step * step) as Hmono.
    { apply Z.mul_le_mono_nonneg_r; [lia|]. apply Z.div_le_mono; lia. }
    revert Hc1 Hc2 Hin1 Hin2.
    generalize (sbi_clk_round_rate do_div clk rate)
               (sbi_clk_round_rate do_div clk rate').
    intros r r' Hc1 Hc2 Hin1 Hin2. repeat case_bool_decide; lia.
  - pose proof (round_rate_cases clk rate Hclk ltac:(lia)) as Hc1.
    cbv zeta in Hc1. fold fmin fmax step in Hc1.
    remember (sbi_clk_round_rate do_div clk rate) as r eqn:Hreq. clear Hreq.
    assert (r = fmin ∨ r = fmax ∨
            (fmin < r < fmax ∧ (r - fmin) mod step = 0)) as Hr'.
    { destruct (decide (r = fmin)) as [|N1]; [by left|].
      destruct (decide (r = fmax)) as [|N2]; [by right; left|]. right. right.
      split; [lia|]. revert Hc1. repeat case_bool_decide; intros Hc1; [lia|lia|].
      rewrite Hc1.
      replace (fmin + (rate - fmin + step - 1) / step * step - fmin)
        with ((rate - fmin + step - 1) / step * step) by lia.
      apply Z.mod_mul. lia. }
    rewrite (round_rate_cases clk r Hclk) by lia. fold fmin fmax step.
    destruct Hr' as [->|[->|[Hbt Hgrid]]].
    + by rewrite bool_decide_eq_true_2 by lia.
    + rewrite bool_decide_eq_false_2 by lia.
      by rewrite bool_decide_eq_true_2 by lia.
    + rewrite bool_decide_eq_false_2 by lia.
      rewrite bool_decide_eq_false_2 by lia.
      apply Z.mod_divide in Hgrid as [k Hk]; [|lia].
      replace (r - fmin + step - 1) with (k * step + (step - 1)) by lia.
      rewrite Z.div_add_l by lia. rewrite (Z.div_small (step - 1)) by lia. lia.
Qed.

End ClkMore.

(** ** The sample platform, run *)

Section Demo.
Local Existing Instance demo_platform.

Example demo_create :
  ipi_mux_create (H := demo_platform) demo_env 5 (Some demo_ops) demo_boot =
    Some (10, demo_state, []).
Proof. reflexivity. Qed.

Example demo_send :
  exec (ipi_mux_send_mask demo_line3 6) demo_state =
    Some (tt, set_bits (λ _, {[ 1%nat := 8; 2%nat := 8 ]}) demo_state,
          [EvBarrier mb_before_atomic; EvSetBit 1 3; EvSetBit 2 3;
           EvBarrier mb_after_atomic; EvIpiMuxSend 9%nat 5 6]).
Proof. vm_compute. reflexivity. Qed.

Example demo_drain_unmapped :
  exec (ipi_mux_process 1)
    (set_bits (λ _, {[ 1%nat := 26 ]}) demo_state_unmapped) =
    Some (tt, set_bits (λ _, {[ 1%nat := 0 ]}) demo_state_unmapped,
          [EvIpiMuxClear 7%nat 5; EvBarrier mb_full; EvXchg 1 26 0;
           EvDispatch 1 1 (Some 11);
           EvDispatch 1 3 None;
           EvWarnRatelimited "can't find mapping for hwirq %lu" 3;
           EvDispatch 1 4 (Some 14)]).
Proof. vm_compute. reflexivity. Qed.

(** Witnesses: the theorems above at the sample platform. *)

Lemma send_mask_order_witness :
  (0 ≤ d_hwirq demo_line3 < IPI_MUX_NR_IRQS ∧
   IPI_MUX_NR_IRQS ≤ BITS_PER_LONG ∧
   ipi_mux_ops demo_state = Some demo_ops ∧
   ipi_mux_send demo_ops = Some 9%nat) ∧
  ∃ s' evs,
    exec (ipi_mux_send_mask demo_line3 6) demo_state = Some (tt, s', evs) ∧
    evs = [EvBarrier mb_before_atomic]
            ++ ((λ c, EvSetBit c 3) <$> cpus_of 6)
            ++ [EvBarrier mb_after_atomic]
            ++ [EvIpiMuxSend 9%nat 5 6] ∧
    backend_sends evs = [(9%nat, 5, 6)] ∧
    (∀ c, c ∈ cpus_of 6 ↔ (c < 4)%nat ∧ has_bit 6 (Z.of_nat c)) ∧
    (∀ c, per_cpu s' c =
            if decide (c ∈ cpus_of 6)
            then word_set_bit 3 (per_cpu demo_state c)
            else per_cpu demo_state c).
Proof.
  assert (0 ≤ d_hwirq demo_line3 < IPI_MUX_NR_IRQS) as H1 by (simpl; lia).
  assert (IPI_MUX_NR_IRQS ≤ BITS_PER_LONG) as H2 by (simpl; lia).
  split; [by repeat split|].
  exact (send_mask_order demo_line3 6 demo_state demo_ops 9%nat
           H1 H2 eq_refl eq_refl).
Defined.

Lemma send_mask_empty_witness :
  (cpus_of 0 = [] ∧ ipi_mux_ops demo_state = Some demo_ops ∧
   ipi_mux_send demo_ops = Some 9%nat) ∧
  exec (ipi_mux_send_mask demo_line3 0) demo_state =
    Some (tt, demo_state,
          [EvBarrier mb_before_atomic; EvBarrier mb_after_atomic;
           EvIpiMuxSend 9%nat 5 0]).
Proof.
  split; [by repeat split|].
  exact (send_mask_empty demo_line3 0 demo_state demo_ops 9%nat
           eq_refl eq_refl eq_refl).
Defined.

Lemma process_spurious_witness :
  (is_Some (ipi_mux_ops demo_state) ∧ per_cpu demo_state 1 = 0) ∧
  ∃ s' evs,
    exec (ipi_mux_process 1) demo_state = Some (tt, s', evs) ∧
    evs = clear_events demo_state ++ [EvBarrier mb_full; EvXchg 1 0 0] ∧
    (∀ c, dispatched c evs = []) ∧
    warned evs = [] ∧
    (∀ c, per_cpu s' c = per_cpu demo_state c) ∧
    ipi_mux_parent_virq s' = ipi_mux_parent_virq demo_state ∧
    ipi_mux_domain s' = ipi_mux_domain demo_state ∧
    ipi_mux_ops s' = ipi_mux_ops demo_state ∧
    kernel s' = kernel demo_state.
Proof.
  assert (is_Some (ipi_mux_ops demo_state)) as H1 by (by eexists).
  split; [by split|].
  exact (process_spurious 1 demo_state H1 eq_refl).
Defined.

Lemma process_dispatch_all_witness :
  is_Some (ipi_mux_ops demo_pending) ∧
  ∃ s' evs,
    exec (ipi_mux_process 1) demo_pending = Some (tt, s', evs) ∧
    snapshots 1 evs = [per_cpu demo_pending 1] ∧
    dispatched 1 evs = bits_of (per_cpu demo_pending 1) IPI_MUX_NR_IRQS ∧
    (∀ hw, 0 ≤ hw < IPI_MUX_NR_IRQS → has_bit (per_cpu demo_pending 1) hw →
       EvDispatch 1 hw (irq_resolve_mapping demo_pending hw) ∈ evs) ∧
    warned evs =
      filter (λ hw, irq_resolve_mapping demo_pending hw = None)
        (bits_of (per_cpu demo_pending 1) IPI_MUX_NR_IRQS).
Proof.
  assert (is_Some (ipi_mux_ops demo_pending)) as H1 by (by eexists).
  split; [done|].
  exact (process_dispatch_all 1 demo_pending H1).
Defined.

Lemma process_ascending_witness :
  is_Some (ipi_mux_ops demo_pending) ∧
  ∃ s' evs,
    exec (ipi_mux_process 1) demo_pending = Some (tt, s', evs) ∧
    snapshots 1 evs = [per_cpu demo_pending 1] ∧
    dispatched 1 evs = bits_of (per_cpu demo_pending 1) IPI_MUX_NR_IRQS ∧
    (∀ hw, hw ∈ dispatched 1 evs ↔
           0 ≤ hw < IPI_MUX_NR_IRQS ∧ has_bit (per_cpu demo_pending 1) hw) ∧
    StronglySorted Z.lt (dispatched 1 evs).
Proof.
  assert (is_Some (ipi_mux_ops demo_pending)) as H1 by (by eexists).
  split; [done|].
  exact (process_ascending 1 demo_pending H1).
Defined.

Lemma send_then_drain_once_witness :
  (0 ≤ d_hwirq demo_line3 < IPI_MUX_NR_IRQS ∧
   IPI_MUX_NR_IRQS ≤ BITS_PER_LONG ∧
   ipi_mux_ops demo_state = Some demo_ops ∧
   ipi_mux_send demo_ops = Some 9%nat ∧
   [2; 1]%nat ≡ₚ cpus_of 6) ∧
  ∃ s1 e1 s2 e2,
    exec (ipi_mux_send_mask demo_line3 6) demo_state = Some (tt, s1, e1) ∧
    exec (foreach [2; 1]%nat ipi_mux_process) s1 = Some (tt, s2, e2) ∧
    (∀ c, c ∈ cpus_of 6 →
       occurrences 3 (dispatched c e2) = 1%nat ∧
       EvDispatch c 3 (irq_resolve_mapping demo_state 3) ∈ e2) ∧
    (∀ c, c ∉ cpus_of 6 → dispatched c e2 = []).
Proof.
  assert (0 ≤ d_hwirq demo_line3 < IPI_MUX_NR_IRQS) as H1 by (simpl; lia).
  assert (IPI_MUX_NR_IRQS ≤ BITS_PER_LONG) as H2 by (simpl; lia).
  assert ([2; 1]%nat ≡ₚ cpus_of 6) as H3 by exact (perm_swap 1%nat 2%nat []).
  split; [by repeat split|].
  exact (send_then_drain_once demo_line3 6 demo_state demo_ops 9%nat [2; 1]%nat
           H1 H2 eq_refl eq_refl H3).
Defined.

Lemma create_failure_atomic_witness :
  (is_Some (ipi_mux_domain demo_boot) ∨ @None struct_ipi_mux_ops = None ∨
   None ≫= ipi_mux_send = None ∨ domain_alloc_ok demo_env = false ∨
   (∃ errno, descs_alloc demo_env = DescsErr errno)) ∧
  ∃ r evs,
    ipi_mux_create demo_env 5 None demo_boot = Some (r, demo_boot, evs) ∧ r ≤ 0.
Proof.
  assert (is_Some (ipi_mux_domain demo_boot) ∨ @None struct_ipi_mux_ops = None ∨
          None ≫= ipi_mux_send = None ∨ domain_alloc_ok demo_env = false ∨
          (∃ errno, descs_alloc demo_env = DescsErr errno)) as H1
    by (right; left; reflexivity).
  split; [done|].
  exact (create_failure_atomic demo_env 5 None demo_boot H1).
Defined.

Lemma hooks_iff_chained_witness :
  ipi_mux_create demo_env 5 (Some demo_ops) demo_boot = Some (10, demo_state, []) ∧
  h_cpuhp (kernel demo_state) =
    h_cpuhp (kernel demo_boot)
      ++ (if bool_decide (0 < 10 ∧ 5 > 0) then [ipi_mux_cpuhp] else []) ∧
  (∀ cpu st, ∃ st',
     call_hotplug_fn (cpuhp_startup ipi_mux_cpuhp) cpu st = Some (0, st', []) ∧
     h_enabled (kernel st') !! (ipi_mux_parent_virq st, cpu) =
       Some (default IRQ_TYPE_NONE
               (h_trigger (kernel st) !! ipi_mux_parent_virq st))) ∧
  (∀ cpu st, ∃ st',
     call_hotplug_fn (cpuhp_teardown ipi_mux_cpuhp) cpu st = Some (0, st', []) ∧
     h_enabled (kernel st') !! (ipi_mux_parent_virq st, cpu) = None) ∧
  (h_cpuhp (kernel demo_boot) = [] → 0 < 10 → 5 > 0 → ∀ cpu, ∃ s1 s2,
     cpu_starting cpu demo_state = Some (tt, s1, []) ∧
     h_enabled (kernel s1) !! (5, cpu) =
       Some (default IRQ_TYPE_NONE (h_trigger (kernel demo_boot) !! 5)) ∧
     cpu_dying cpu s1 = Some (tt, s2, []) ∧
     h_enabled (kernel s2) !! (5, cpu) = None) ∧
  (h_cpuhp (kernel demo_boot) = [] → ¬ 5 > 0 → ∀ cpu,
     cpu_starting cpu demo_state = Some (tt, demo_state, []) ∧
     cpu_dying cpu demo_state = Some (tt, demo_state, [])).
Proof.
  assert (ipi_mux_create demo_env 5 (Some demo_ops) demo_boot =
            Some (10, demo_state, [])) as H1 by reflexivity.
  split; [exact H1|].
  exact (hooks_iff_chained demo_env 5 (Some demo_ops) demo_boot demo_state
           10 [] H1).
Defined.

Lemma send_never_lost_witness :
  (1%nat ∈ cpus_of 6 ∧
   0 ≤ d_hwirq demo_line3 < IPI_MUX_NR_IRQS ∧
   IPI_MUX_NR_IRQS ≤ BITS_PER_LONG ∧
   is_Some (ipi_mux_ops demo_state ≫= ipi_mux_send)) ∧
  ∃ pool' s1 evs1,
    run_pool demo_sched [ipi_mux_send_mask demo_line3 6; ipi_mux_process 1]
      demo_state = Some (pool', s1, evs1) ∧
    ∀ p0 p1 rest, pool' = p0 :: p1 :: rest → finished p0 → finished p1 →
      ∃ s2 evs2 w1 w2,
        exec (ipi_mux_process 1) s1 = Some (tt, s2, evs2) ∧
        snapshots 1 evs1 = [w1] ∧ snapshots 1 evs2 = [w2] ∧
        (has_bit w1 3 ∨ has_bit w2 3).
Proof.
  assert (1%nat ∈ cpus_of 6) as H1
    by (apply elem_of_cpus_of; split; [simpl; lia|reflexivity]).
  assert (0 ≤ d_hwirq demo_line3 < IPI_MUX_NR_IRQS) as H2 by (simpl; lia).
  assert (IPI_MUX_NR_IRQS ≤ BITS_PER_LONG) as H3 by (simpl; lia).
  assert (is_Some (ipi_mux_ops demo_state ≫= ipi_mux_send)) as H4
    by (by eexists).
  split; [exact (conj H1 (conj H2 (conj H3 H4)))|].
  exact (send_never_lost demo_line3 6 1 [] demo_state H1 H2 H3 H4
           (Forall_nil_2 _) (Forall_nil_2 _) demo_sched).
Defined.

(** The race of [demo_sched], run: the first snapshot is empty and
    the second holds line 3. *)
Example demo_race :
  run_pool demo_sched [ipi_mux_send_mask demo_line3 6; ipi_mux_process 1]
    demo_state = Some ([Ret tt; Ret tt], demo_after_race, demo_race_events) ∧
  exec (ipi_mux_process 1) demo_after_race =
    Some (tt, set_bits (λ _, {[ 1%nat := 0; 2%nat := 8 ]}) demo_state,
          demo_next_drain_events) ∧
  snapshots 1 demo_race_events = [0] ∧
  snapshots 1 demo_next_drain_events = [8].
Proof.
  split; [vm_compute; reflexivity|].
  split; [vm_compute; reflexivity|].
  split; vm_compute; reflexivity.
Qed.

(** Witnesses of the further properties. *)

Lemma create_binds_witness :
  (ipi_mux_create demo_env 5 (Some demo_ops) demo_boot = Some (10, demo_state, []) ∧
   0 < 10) ∧
  (ipi_mux_parent_virq demo_state = 5 ∧
   ipi_mux_ops demo_state = Some demo_ops ∧
   (∃ p dm,
      ipi_mux_domain demo_state = Some p ∧
      h_domains (kernel demo_boot) !! p = None ∧
      h_domains (kernel demo_state) !! p = Some dm ∧
      dom_size dm = IPI_MUX_NR_IRQS ∧
      dom_ops dm = ipi_mux_domain_ops ∧
      ∀ q, q ≠ p →
        h_domains (kernel demo_state) !! q = h_domains (kernel demo_boot) !! q) ∧
   ipi_mux_bits demo_state = ipi_mux_bits demo_boot ∧
   @nil event = [] ∧
   h_chained (kernel demo_state) =
     (if bool_decide (5 > 0)
      then <[5 := fn_ipi_mux_handler]> (h_chained (kernel demo_boot))
      else h_chained (kernel demo_boot)) ∧
   (∀ irq cpu, irq ≠ 5 →
      h_enabled (kernel demo_state) !! (irq, cpu) =
        h_enabled (kernel demo_boot) !! (irq, cpu)) ∧
   (¬ 5 > 0 → h_enabled (kernel demo_state) = h_enabled (kernel demo_boot)) ∧
   h_trigger (kernel demo_state) = h_trigger (kernel demo_boot)).
Proof.
  assert (ipi_mux_create demo_env 5 (Some demo_ops) demo_boot =
            Some (10, demo_state, [])) as H1 by reflexivity.
  assert (0 < 10) as H2 by lia.
  split; [exact (conj H1 H2)|].
  exact (create_binds demo_env 5 (Some demo_ops) demo_boot demo_state 10 [] H1 H2).
Defined.

Lemma create_twice_rejected_witness :
  (ipi_mux_create demo_env 5 (Some demo_ops) demo_boot = Some (10, demo_state, []) ∧
   0 < 10) ∧
  ipi_mux_create demo_env 6 (Some demo_ops) demo_state = Some (0, demo_state, []).
Proof.
  assert (ipi_mux_create demo_env 5 (Some demo_ops) demo_boot =
            Some (10, demo_state, [])) as H1 by reflexivity.
  assert (0 < 10) as H2 by lia.
  split; [exact (conj H1 H2)|].
  exact (create_twice_rejected demo_env demo_env 5 6 (Some demo_ops)
           (Some demo_ops) demo_boot demo_state 10 [] H1 H2).
Defined.

Lemma create_lines_witness :
  (ipi_mux_create demo_env 5 (Some demo_ops) demo_boot = Some (10, demo_state, []) ∧
   0 < 10 ∧ 10 + IPI_MUX_NR_IRQS ≤ 2 ^ 32 ∧ IPI_MUX_NR_IRQS ≤ BITS_PER_LONG) ∧
  ((∀ v, irq_resolve_mapping demo_state v =
           if bool_decide (0 ≤ v < IPI_MUX_NR_IRQS) then Some (10 + v) else None) ∧
   (∀ v, 0 ≤ v < IPI_MUX_NR_IRQS →
      h_irqs (kernel demo_state) !! (10 + v) =
        Some {| d_hwirq := v; d_chip := Some ipi_mux_chip;
                d_percpu_devid := true;
                d_handler := handle_percpu_devid_irq |})).
Proof.
  assert (ipi_mux_create demo_env 5 (Some demo_ops) demo_boot =
            Some (10, demo_state, [])) as H1 by reflexivity.
  assert (0 < 10) as H2 by lia.
  assert (10 + IPI_MUX_NR_IRQS ≤ 2 ^ 32) as H3 by (simpl; lia).
  assert (IPI_MUX_NR_IRQS ≤ BITS_PER_LONG) as H4 by (simpl; lia).
  split; [exact (conj H1 (conj H2 (conj H3 H4)))|].
  exact (create_lines demo_env 5 (Some demo_ops) demo_boot demo_state 10 []
           H1 H2 H3 H4).
Defined.

Lemma process_order_witness :
  is_Some (ipi_mux_ops demo_pending) ∧
  exec (ipi_mux_process 1) demo_pending =
    Some (tt, set_bits <[1%nat := 0]> demo_pending,
          (match ipi_mux_ops demo_pending ≫= ipi_mux_clear with
           | Some f => [EvIpiMuxClear f (ipi_mux_parent_virq demo_pending)]
           | None => []
           end)
            ++ [EvBarrier mb_full; EvXchg 1 (per_cpu demo_pending 1) 0]
            ++ (bits_of (per_cpu demo_pending 1) IPI_MUX_NR_IRQS ≫= λ hwirq,
                  match irq_resolve_mapping demo_pending hwirq with
                  | Some virq => [EvDispatch 1 hwirq (Some virq)]
                  | None =>
                      [EvDispatch 1 hwirq None;
                       EvWarnRatelimited "can't find mapping for hwirq %lu" hwirq]
                  end)).
Proof.
  assert (is_Some (ipi_mux_ops demo_pending)) as H1 by (by eexists).
  split; [exact H1|].
  exact (process_order 1 demo_pending H1).
Defined.

Lemma drain_twice_witness :
  is_Some (ipi_mux_ops demo_pending) ∧
  ∃ s1 e1 e2,
    exec (ipi_mux_process 1) demo_pending = Some (tt, s1, e1) ∧
    exec (ipi_mux_process 1) s1 = Some (tt, s1, e2) ∧
    snapshots 1 e2 = [0] ∧
    (∀ c, dispatched c e2 = []) ∧
    warned e2 = [].
Proof.
  assert (is_Some (ipi_mux_ops demo_pending)) as H1 by (by eexists).
  split; [exact H1|].
  exact (drain_twice 1 demo_pending H1).
Defined.

Lemma handler_brackets_witness :
  is_Some (ipi_mux_ops demo_pending) ∧
  ∃ s' evs,
    exec (ipi_mux_process 1) demo_pending = Some (tt, s', evs) ∧
    exec (ipi_mux_handler 1) demo_pending =
      Some (tt, s', [EvChainedEnter] ++ evs ++ [EvChainedExit]) ∧
    dispatched 1 evs = bits_of (per_cpu demo_pending 1) IPI_MUX_NR_IRQS.
Proof.
  assert (is_Some (ipi_mux_ops demo_pending)) as H1 by (by eexists).
  split; [exact H1|].
  exact (handler_brackets 1 demo_pending H1).
Defined.

Lemma sends_accumulate_witness :
  (Forall (λ dm, 0 ≤ d_hwirq dm.1 < IPI_MUX_NR_IRQS) demo_sends ∧
   IPI_MUX_NR_IRQS ≤ BITS_PER_LONG ∧
   ipi_mux_ops demo_state = Some demo_ops ∧
   ipi_mux_send demo_ops = Some 9%nat) ∧
  ∃ s' e,
    exec (send_all demo_sends) demo_state = Some (tt, s', e) ∧
    (∀ c i, has_bit (per_cpu s' c) i ↔
              has_bit (per_cpu demo_state c) i ∨ sent demo_sends i c) ∧
    backend_sends e =
      (λ dm, (9%nat, ipi_mux_parent_virq demo_state, dm.2)) <$> demo_sends ∧
    (∀ c, dispatched c e = []).
Proof.
  assert (Forall (λ dm, 0 ≤ d_hwirq dm.1 < IPI_MUX_NR_IRQS) demo_sends) as H1
    by (repeat constructor; simpl; lia).
  assert (IPI_MUX_NR_IRQS ≤ BITS_PER_LONG) as H2 by (simpl; lia).
  assert (ipi_mux_ops demo_state = Some demo_ops) as H3 by reflexivity.
  assert (ipi_mux_send demo_ops = Some 9%nat) as H4 by reflexivity.
  split; [exact (conj H1 (conj H2 (conj H3 H4)))|].
  exact (sends_accumulate demo_sends demo_state demo_ops 9%nat H1 H2 H3 H4).
Defined.

Lemma sends_coalesce_witness :
  (Forall (λ dm, 0 ≤ d_hwirq dm.1 < IPI_MUX_NR_IRQS) demo_sends ∧
   IPI_MUX_NR_IRQS ≤ BITS_PER_LONG ∧
   ipi_mux_ops demo_state = Some demo_ops ∧
   ipi_mux_send demo_ops = Some 9%nat) ∧
  ∃ s1 e1 s2 e2,
    exec (send_all demo_sends) demo_state = Some (tt, s1, e1) ∧
    exec (ipi_mux_process 1) s1 = Some (tt, s2, e2) ∧
    (∀ hw, hw ∈ dispatched 1 e2 ↔
           0 ≤ hw < IPI_MUX_NR_IRQS ∧
           (has_bit (per_cpu demo_state 1) hw ∨ sent demo_sends hw 1)) ∧
    NoDup (dispatched 1 e2) ∧
    StronglySorted Z.lt (dispatched 1 e2).
Proof.
  assert (Forall (λ dm, 0 ≤ d_hwirq dm.1 < IPI_MUX_NR_IRQS) demo_sends) as H1
    by (repeat constructor; simpl; lia).
  assert (IPI_MUX_NR_IRQS ≤ BITS_PER_LONG) as H2 by (simpl; lia).
  assert (ipi_mux_ops demo_state = Some demo_ops) as H3 by reflexivity.
  assert (ipi_mux_send demo_ops = Some 9%nat) as H4 by reflexivity.
  split; [exact (conj H1 (conj H2 (conj H3 H4)))|].
  exact (sends_coalesce demo_sends demo_state demo_ops 9%nat 1 H1 H2 H3 H4).
Defined.

Lemma mask_does_not_suppress_witness :
  ((irq_mask ipi_mux_chip = Some fn_ipi_mux_dummy ∨
    irq_unmask ipi_mux_chip = Some fn_ipi_mux_dummy) ∧
   0 ≤ d_hwirq demo_line3 < IPI_MUX_NR_IRQS ∧
   IPI_MUX_NR_IRQS ≤ BITS_PER_LONG ∧
   ipi_mux_ops demo_state = Some demo_ops ∧
   ipi_mux_send demo_ops = Some 9%nat ∧
   1%nat ∈ cpus_of 6) ∧
  (exec (call_chip_fn fn_ipi_mux_dummy demo_line3 6) demo_state =
     Some (tt, demo_state, []) ∧
   ∃ s1 e1 s2 e2,
     exec (call_chip_fn fn_ipi_mux_dummy demo_line3 6;;
           ipi_mux_send_mask demo_line3 6) demo_state = Some (tt, s1, e1) ∧
     exec (ipi_mux_send_mask demo_line3 6) demo_state = Some (tt, s1, e1) ∧
     exec (ipi_mux_process 1) s1 = Some (tt, s2, e2) ∧
     d_hwirq demo_line3 ∈ dispatched 1 e2).
Proof.
  assert (irq_mask ipi_mux_chip = Some fn_ipi_mux_dummy ∨
          irq_unmask ipi_mux_chip = Some fn_ipi_mux_dummy) as H0
    by (left; reflexivity).
  assert (0 ≤ d_hwirq demo_line3 < IPI_MUX_NR_IRQS) as H1 by (simpl; lia).
  assert (IPI_MUX_NR_IRQS ≤ BITS_PER_LONG) as H2 by (simpl; lia).
  assert (ipi_mux_ops demo_state = Some demo_ops) as H3 by reflexivity.
  assert (ipi_mux_send demo_ops = Some 9%nat) as H4 by reflexivity.
  assert (1%nat ∈ cpus_of 6) as H5
    by (apply elem_of_cpus_of; split; [simpl; lia|reflexivity]).
  split; [exact (conj H0 (conj H1 (conj H2 (conj H3 (conj H4 H5)))))|].
  exact (mask_does_not_suppress fn_ipi_mux_dummy demo_line3 6 demo_state
           demo_ops 9%nat 1 H0 H1 H2 H3 H4 H5).
Defined.

Lemma pool_conserves_witness :
  (Forall (λ dm, 0 ≤ d_hwirq dm.1 < IPI_MUX_NR_IRQS) demo_sends ∧
   IPI_MUX_NR_IRQS ≤ BITS_PER_LONG ∧
   is_Some (ipi_mux_ops demo_state ≫= ipi_mux_send)) ∧
  ∃ pool' s' evs,
    run_pool demo_sched (mux_pool demo_sends [1%nat]) demo_state =
      Some (pool', s', evs) ∧
    (∀ c i, held s' evs c i →
            has_bit (per_cpu demo_state c) i ∨ sent demo_sends i c) ∧
    (∀ c i, has_bit (per_cpu demo_state c) i → held s' evs c i) ∧
    (Forall finished pool' → ∀ c i, sent demo_sends i c → held s' evs c i).
Proof.
  assert (Forall (λ dm, 0 ≤ d_hwirq dm.1 < IPI_MUX_NR_IRQS) demo_sends) as H1
    by (repeat constructor; simpl; lia).
  assert (IPI_MUX_NR_IRQS ≤ BITS_PER_LONG) as H2 by (simpl; lia).
  assert (is_Some (ipi_mux_ops demo_state ≫= ipi_mux_send)) as H3
    by (exists 9%nat; reflexivity).
  split; [exact (conj H1 (conj H2 H3))|].
  exact (pool_conserves demo_sends [1%nat] demo_sched demo_state H1 H2 H3).
Defined.

Lemma pool_dispatch_sound_witness :
  (Forall (λ dm, 0 ≤ d_hwirq dm.1 < IPI_MUX_NR_IRQS) demo_sends ∧
   IPI_MUX_NR_IRQS ≤ BITS_PER_LONG ∧
   is_Some (ipi_mux_ops demo_state ≫= ipi_mux_send) ∧
   pending_bounded demo_state) ∧
  ∃ pool' s' evs,
    run_pool demo_sched (mux_pool demo_sends [1%nat]) demo_state =
      Some (pool', s', evs) ∧
    (∀ c hw v, EvDispatch c hw v ∈ evs →
       0 ≤ hw < IPI_MUX_NR_IRQS ∧
       (has_bit (per_cpu demo_state c) hw ∨ sent demo_sends hw c)) ∧
    pending_bounded s'.
Proof.
  assert (Forall (λ dm, 0 ≤ d_hwirq dm.1 < IPI_MUX_NR_IRQS) demo_sends) as H1
    by (repeat constructor; simpl; lia).
  assert (IPI_MUX_NR_IRQS ≤ BITS_PER_LONG) as H2 by (simpl; lia).
  assert (is_Some (ipi_mux_ops demo_state ≫= ipi_mux_send)) as H3
    by (exists 9%nat; reflexivity).
  assert (pending_bounded demo_state) as H4.
  { intros c i Hb. exfalso. unfold has_bit, per_cpu in Hb.
    assert (ipi_mux_bits demo_state = ∅) as Hbits by reflexivity.
    rewrite Hbits, lookup_empty in Hb. simpl in Hb.
    rewrite Z.testbit_0_l in Hb. discriminate. }
  split; [exact (conj H1 (conj H2 (conj H3 H4)))|].
  exact (pool_dispatch_sound demo_sends [1%nat] demo_sched demo_state H1 H2 H3 H4).
Defined.

Lemma pending_survives_hotplug_witness :
  is_Some (ipi_mux_ops demo_pending) ∧
  ∃ s1 s2 s3 e,
    ipi_mux_dying_cpu 1 demo_pending = Some (0, s1, []) ∧
    ipi_mux_starting_cpu 1 s1 = Some (0, s2, []) ∧
    exec (ipi_mux_process 1) s2 = Some (tt, s3, e) ∧
    h_enabled (kernel s1) =
      delete (ipi_mux_parent_virq demo_pending, 1%nat)
        (h_enabled (kernel demo_pending)) ∧
    h_enabled (kernel s2) =
      <[(ipi_mux_parent_virq demo_pending, 1%nat) :=
          default IRQ_TYPE_NONE
            (h_trigger (kernel demo_pending) !! ipi_mux_parent_virq demo_pending)]>
        (h_enabled (kernel demo_pending)) ∧
    set_kernel (set_enabled (λ _, h_enabled (kernel demo_pending))) s1 =
      demo_pending ∧
    set_kernel (set_enabled (λ _, h_enabled (kernel demo_pending))) s2 =
      demo_pending ∧
    dispatched 1 e = bits_of (per_cpu demo_pending 1) IPI_MUX_NR_IRQS.
Proof.
  assert (is_Some (ipi_mux_ops demo_pending)) as H1 by (by eexists).
  split; [exact H1|].
  exact (pending_survives_hotplug 1 demo_pending H1).
Defined.

Lemma create_send_handle_witness :
  (ipi_mux_create demo_env 5 (Some demo_ops) demo_boot = Some (10, demo_state, []) ∧
   0 < 10 ∧ 10 + IPI_MUX_NR_IRQS ≤ 2 ^ 32 ∧ IPI_MUX_NR_IRQS ≤ BITS_PER_LONG ∧
   0 ≤ 3 < IPI_MUX_NR_IRQS ∧ 1%nat ∈ cpus_of 6 ∧ per_cpu demo_boot 1 = 0) ∧
  ∃ data chip fn f s1 e1 s2 e2,
    h_irqs (kernel demo_state) !! (10 + 3) = Some data ∧
    d_chip data = Some chip ∧
    ipi_send_mask chip = Some fn ∧
    Some demo_ops ≫= ipi_mux_send = Some f ∧
    exec (call_chip_fn fn data 6) demo_state = Some (tt, s1, e1) ∧
    backend_sends e1 = [(f, 5, 6)] ∧
    exec (ipi_mux_handler 1) s1 = Some (tt, s2, e2) ∧
    dispatched 1 e2 = [3] ∧
    EvDispatch 1 3 (Some (10 + 3)) ∈ e2 ∧
    warned e2 = [].
Proof.
  assert (ipi_mux_create demo_env 5 (Some demo_ops) demo_boot =
            Some (10, demo_state, [])) as H1 by reflexivity.
  assert (0 < 10) as H2 by lia.
  assert (10 + IPI_MUX_NR_IRQS ≤ 2 ^ 32) as H3 by (simpl; lia).
  assert (IPI_MUX_NR_IRQS ≤ BITS_PER_LONG) as H4 by (simpl; lia).
  assert (0 ≤ 3 < IPI_MUX_NR_IRQS) as H5 by (simpl; lia).
  assert (1%nat ∈ cpus_of 6) as H6
    by (apply elem_of_cpus_of; split; [simpl; lia|reflexivity]).
  assert (per_cpu demo_boot 1 = 0) as H7 by reflexivity.
  split; [exact (conj H1 (conj H2 (conj H3 (conj H4 (conj H5 (conj H6 H7))))))|].
  exact (create_send_handle demo_env 5 (Some demo_ops) demo_boot demo_state 10 []
           3 6 1 H1 H2 H3 H4 H5 H6 H7).
Defined.

Lemma demo_clk_range : range_clock demo_clk.
Proof.
  unfold range_clock, range_min_rate, range_max_rate, range_step_size. simpl.
  split; [reflexivity|]. split; [lia|]. split; [lia|]. split; lia.
Qed.

Lemma round_rate_rounds_up_witness :
  (do_div_divides Z.div ∧ range_clock demo_clk ∧
   range_min_rate (sbi_clk_rates demo_clk) < 250
     < range_max_rate (sbi_clk_rates demo_clk)) ∧
  (250 ≤ sbi_clk_round_rate Z.div demo_clk 250
     < 250 + range_step_size (sbi_clk_rates demo_clk) ∧
   (sbi_clk_round_rate Z.div demo_clk 250 - range_min_rate (sbi_clk_rates demo_clk))
     mod range_step_size (sbi_clk_rates demo_clk) = 0).
Proof.
  assert (do_div_divides Z.div) as H0 by (intros n base _ _; reflexivity).
  assert (range_clock demo_clk) as H1 by exact demo_clk_range.
  assert (range_min_rate (sbi_clk_rates demo_clk) < 250
            < range_max_rate (sbi_clk_rates demo_clk)) as H2
    by (unfold range_min_rate, range_max_rate; simpl; lia).
  split; [exact (conj H0 (conj H1 H2))|].
  exact (round_rate_rounds_up Z.div H0 demo_clk 250 H1 H2).
Defined.

Lemma demo_clk_off_range : range_clock demo_clk_off.
Proof.
  unfold range_clock, range_min_rate, range_max_rate, range_step_size. simpl.
  split; [reflexivity|]. split; [lia|]. split; [lia|]. split; lia.
Qed.

Example demo_round_above_max :
  sbi_clk_round_rate Z.div demo_clk_off 1049 = 1100.
Proof. reflexivity. Qed.

Lemma round_rate_within_iff_witness :
  (do_div_divides Z.div ∧ range_clock demo_clk_off) ∧
  (((∀ rate, 0 ≤ rate →
       range_min_rate (sbi_clk_rates demo_clk_off)
         ≤ sbi_clk_round_rate Z.div demo_clk_off rate
         ≤ range_max_rate (sbi_clk_rates demo_clk_off)) ↔
    (range_max_rate (sbi_clk_rates demo_clk_off)
       - range_min_rate (sbi_clk_rates demo_clk_off))
      mod range_step_size (sbi_clk_rates demo_clk_off) ≤ 1) ∧
   (1 < (range_max_rate (sbi_clk_rates demo_clk_off)
           - range_min_rate (sbi_clk_rates demo_clk_off))
          mod range_step_size (sbi_clk_rates demo_clk_off) →
    range_max_rate (sbi_clk_rates demo_clk_off)
      < sbi_clk_round_rate Z.div demo_clk_off
          (range_max_rate (sbi_clk_rates demo_clk_off) - 1))).
Proof.
  assert (do_div_divides Z.div) as H0 by (intros n base _ _; reflexivity).
  assert (range_clock demo_clk_off) as H1 by exact demo_clk_off_range.
  split; [exact (conj H0 H1)|].
  exact (round_rate_within_iff Z.div H0 demo_clk_off H1).
Defined.

Lemma round_rate_stable_witness :
  (do_div_divides Z.div ∧ range_clock demo_clk ∧
   (range_max_rate (sbi_clk_rates demo_clk) - range_min_rate (sbi_clk_rates demo_clk))
     mod range_step_size (sbi_clk_rates demo_clk) ≤ 1 ∧
   0 ≤ 250 ≤ 980) ∧
  (sbi_clk_round_rate Z.div demo_clk 250 ≤ sbi_clk_round_rate Z.div demo_clk 980 ∧
   sbi_clk_round_rate Z.div demo_clk (sbi_clk_round_rate Z.div demo_clk 250) =
     sbi_clk_round_rate Z.div demo_clk 250).
Proof.
  assert (do_div_divides Z.div) as H0 by (intros n base _ _; reflexivity).
  assert (range_clock demo_clk) as H1 by exact demo_clk_range.
  assert ((range_max_rate (sbi_clk_rates demo_clk)
             - range_min_rate (sbi_clk_rates demo_clk))
            mod range_step_size (sbi_clk_rates demo_clk) ≤ 1) as H2
    by (vm_compute; discriminate).
  assert (0 ≤ 250 ≤ 980) as H3 by lia.
  split; [exact (conj H0 (conj H1 (conj H2 H3)))|].
  exact (round_rate_stable Z.div H0 demo_clk 250 980 H1 H2 H3).
Defined.

End Demo.
